(** * Flash sale: the purchase-attempt pipeline

    A shallow embedding of the reservation scripts
    ([infrastructure/redis/lua-scripts.ts]), of the client that runs them
    ([infrastructure/redis/RedisService.ts]), of the orchestrator
    ([services/FlashSaleService.ts]) and of the order finalizer (the worker's
    [processFlashSaleAttempt] over [OrderRepository]), followed by the
    properties of the pipeline.

    Modelling conventions.
    - Redis is a map from key strings to entries; every command a script or
      the client issues is appended to a command log kept next to the data,
      so that "which keys does this operation touch" is a statement about
      the log.
    - A Lua script is a function in a state-and-exception monad over the
      Redis server; [redis.call] converts replies to Lua values and a
      script's return value is converted back to a reply exactly as Redis
      documents it (a missing key reads as Lua [false], a returned table is
      cut at its first [nil]).
    - Numbers are integers ([Z]).  Redis keeps counters as signed 64-bit
      decimal strings (checked here); Lua and JavaScript read them as
      doubles, which agree with [Z] on every count below 2^53.  A property
      that speaks of a number passed through Lua or JavaScript carries
      that bound.
    - Strings are sequences of bytes, the UTF-8 encoding of the text.
    - Logging ([redis.log], [logger.*]) has no effect on any state modelled
      here and is left out.  Key expiry is recorded (the TTL given to SETEX)
      but the passage of time inside Redis is not modelled. *)

From Stdlib Require Import ZArith String Ascii DecimalString DecimalZ DecimalPos.
From stdpp Require Import base option list gmap sets strings.

Open Scope string_scope.
Open Scope list_scope.
Open Scope Z_scope.

(** ** Decimal rendering of integers

    [String(n)] and template interpolation in JavaScript, the conversion of
    a Lua number handed to [redis.call], and the strings Redis writes back
    after INCR/DECR all produce the canonical decimal numeral. *)

Definition string_of_Z (z : Z) : string := NilZero.string_of_int (Z.to_int z).

Definition Z_of_string (s : string) : option Z :=
  Z.of_int <$> NilZero.int_of_string s.

(** ** Exceptions and the state-and-exception monad

    A JavaScript [Error] carries a [message]; errors raised by the Postgres
    driver also carry a [code].  A Redis error reply reaches the client as
    an [Error] whose message is the reply text. *)

Record exn := Error { code : option string; message : string }.

Inductive outcome (A : Type) :=
  | Ok (a : A)
  | Throw (e : exn).
Arguments Ok {A} a.
Arguments Throw {A} e.

Definition M (S A : Type) : Type := S → outcome A * S.

Definition ret {S A} (a : A) : M S A := λ s, (Ok a, s).

Definition bind {S A B} (m : M S A) (k : A → M S B) : M S B :=
  λ s, match m s with
       | (Ok a, s') => k a s'
       | (Throw e, s') => (Throw e, s')
       end.

Definition throw {S A} (e : exn) : M S A := λ s, (Throw e, s).

(** [try { m } catch (e) { h e }] *)
Definition try_catch {S A} (m : M S A) (h : exn → M S A) : M S A :=
  λ s, match m s with
       | (Ok a, s') => (Ok a, s')
       | (Throw e, s') => h e s'
       end.

Declare Scope m_scope.
Delimit Scope m_scope with m.
Notation "x <- m ;; k" := (bind m (λ x, k))
  (at level 100, m at next level, right associativity) : m_scope.
Notation "m ;;; k" := (bind m (λ _, k))
  (at level 100, right associativity) : m_scope.
Open Scope m_scope.

(** ** Lua values *)

Module Lua.

#[warnings="-register-all"]
Inductive value :=
  | LNil
  | LBool (b : bool)
  | LNum (n : Z)
  | LStr (s : string)
  | LStatus (ok : string)
  | LTab (items : list value).

(** [LStatus s] is the table [{ok = s}] that stands for a status reply;
    [LTab l] is a table used as an array.

    Only [nil] and [false] are falsy; [0] and the empty string are true. *)
Definition truthy (v : value) : bool :=
  match v with
  | LNil | LBool false => false
  | _ => true
  end.

(** [a or b] and [a and b].  Both operands here are pure, so evaluating
    the second one eagerly is unobservable. *)
Definition l_or (a b : value) : value := if truthy a then a else b.
Definition l_and (a b : value) : value := if truthy a then b else a.

(** Primitive equality [==]: values of different types are different. *)
Definition eqb (a b : value) : bool :=
  match a, b with
  | LNil, LNil => true
  | LBool x, LBool y => Bool.eqb x y
  | LNum x, LNum y => Z.eqb x y
  | LStr x, LStr y => String.eqb x y
  | _, _ => false
  end.

(** [tonumber]: a number is itself, a numeral string is its value, and
    anything else is [nil].  Modelled on decimal integers, the only
    numerals this program stores. *)
Definition tonumber (v : value) : value :=
  match v with
  | LNum n => LNum n
  | LStr s => match Z_of_string s with Some n => LNum n | None => LNil end
  | _ => LNil
  end.

Definition compare_error : exn :=
  Error None "attempt to compare two incomparable values".
Definition arith_error : exn :=
  Error None "attempt to perform arithmetic on a non-number value".

(** Order comparisons are defined on two numbers (or two strings, unused
    here) and raise an error otherwise. *)
Definition le {S} (a b : value) : M S bool :=
  match a, b with
  | LNum x, LNum y => ret (Z.leb x y)
  | _, _ => throw compare_error
  end.

Definition lt {S} (a b : value) : M S bool :=
  match a, b with
  | LNum x, LNum y => ret (Z.ltb x y)
  | _, _ => throw compare_error
  end.

Definition add {S} (a b : value) : M S value :=
  match tonumber a, tonumber b with
  | LNum x, LNum y => ret (LNum (x + y))
  | _, _ => throw arith_error
  end.

End Lua.

(** ** The Redis server

    An entry is a string (with the TTL it was last given, if any) or a set
    of strings.  [log] lists the commands executed so far, oldest first. *)

Module Redis.

Inductive entry :=
  | Str (v : string) (ttl : option Z)
  | SetV (members : gset string).

Inductive command :=
  | GET (k : string)
  | SET (k v : string)
  | SETEX (k : string) (seconds : Z) (v : string)
  | INCR (k : string)
  | DECR (k : string)
  | EXISTS (k : string)
  | SISMEMBER (k member : string)
  | SADD (k member : string).

Definition command_key (c : command) : string :=
  match c with
  | GET k | SET k _ | SETEX k _ _ | INCR k | DECR k | EXISTS k
  | SISMEMBER k _ | SADD k _ => k
  end.

#[warnings="-register-all"]
Inductive reply :=
  | Int (n : Z)
  | Bulk (s : string)
  | Null
  | Status (s : string)
  | Multi (items : list reply).

Record server := Server { data : gmap string entry; log : list command }.

Definition WRONGTYPE : exn :=
  Error None "WRONGTYPE Operation against a key holding the wrong kind of value".
Definition NOT_AN_INTEGER : exn :=
  Error None "ERR value is not an integer or out of range".
Definition OVERFLOW : exn :=
  Error None "ERR increment or decrement would overflow".
Definition INVALID_EXPIRE : exn :=
  Error None "ERR invalid expire time in 'setex' command".

Definition LLONG_MIN : Z := - 2 ^ 63.
Definition LLONG_MAX : Z := 2 ^ 63 - 1.

(** How Redis reads a string as a counter: the canonical numeral of a signed
    64-bit integer, nothing else (no sign "+", no leading zeros). *)
Definition integer_of (v : string) : option Z :=
  match Z_of_string v with
  | Some n =>
      if bool_decide (string_of_Z n = v)
         && Z.leb LLONG_MIN n && Z.leb n LLONG_MAX
      then Some n else None
  | None => None
  end.

(** INCR and DECR: a missing key counts as 0; the TTL of the key is kept. *)
Definition incr_by (d : Z) (k : string) (db : gmap string entry)
  : outcome reply * gmap string entry :=
  match db !! k with
  | Some (SetV _) => (Throw WRONGTYPE, db)
  | Some (Str v t) =>
      match integer_of v with
      | None => (Throw NOT_AN_INTEGER, db)
      | Some n =>
          if Z.leb LLONG_MIN (n + d) && Z.leb (n + d) LLONG_MAX
          then (Ok (Int (n + d)), <[k := Str (string_of_Z (n + d)) t]> db)
          else (Throw OVERFLOW, db)
      end
  | None => (Ok (Int d), <[k := Str (string_of_Z d) None]> db)
  end.

Definition exec (c : command) (db : gmap string entry)
  : outcome reply * gmap string entry :=
  match c with
  | GET k =>
      match db !! k with
      | None => (Ok Null, db)
      | Some (Str v _) => (Ok (Bulk v), db)
      | Some (SetV _) => (Throw WRONGTYPE, db)
      end
  | SET k v => (Ok (Status "OK"), <[k := Str v None]> db)
  | SETEX k seconds v =>
      if Z.ltb 0 seconds
      then (Ok (Status "OK"), <[k := Str v (Some seconds)]> db)
      else (Throw INVALID_EXPIRE, db)
  | INCR k => incr_by 1 k db
  | DECR k => incr_by (-1) k db
  | EXISTS k => (Ok (Int (match db !! k with Some _ => 1 | None => 0 end)), db)
  | SISMEMBER k m =>
      match db !! k with
      | None => (Ok (Int 0), db)
      | Some (SetV s) => (Ok (Int (if bool_decide (m ∈ s) then 1 else 0)), db)
      | Some (Str _ _) => (Throw WRONGTYPE, db)
      end
  | SADD k m =>
      match db !! k with
      | None => (Ok (Int 1), <[k := SetV {[m]}]> db)
      | Some (SetV s) =>
          (Ok (Int (if bool_decide (m ∈ s) then 0 else 1)),
           <[k := SetV ({[m]} ∪ s)]> db)
      | Some (Str _ _) => (Throw WRONGTYPE, db)
      end
  end.

(** A command sent to the server: it is logged, then executed. *)
Definition call (c : command) : M server reply :=
  λ s, let '(r, db) := exec c (data s) in
       (r, Server db (log s ++ [c])).

(** Replies as Lua sees them ([redis.call]): a null reply is [false], and
    an integer reply is a Lua number, the same integer below 2^53 in
    size. *)
Fixpoint reply_to_lua (r : reply) : Lua.value :=
  match r with
  | Int n => Lua.LNum n
  | Bulk s => Lua.LStr s
  | Null => Lua.LBool false
  | Status s => Lua.LStatus s
  | Multi l => Lua.LTab (map reply_to_lua l)
  end.

(** A script's return value as the client receives it: a number is an
    integer reply, [true] is 1, [false] and [nil] are null, and a table is
    the array of its items up to (not including) the first [nil]. *)
Fixpoint lua_to_reply (v : Lua.value) : reply :=
  match v with
  | Lua.LNil => Null
  | Lua.LBool true => Int 1
  | Lua.LBool false => Null
  | Lua.LNum n => Int n
  | Lua.LStr s => Bulk s
  | Lua.LStatus s => Status s
  | Lua.LTab l =>
      Multi ((fix items (l : list Lua.value) : list reply :=
                match l with
                | [] => []
                | Lua.LNil :: _ => []
                | x :: rest => lua_to_reply x :: items rest
                end) l)
  end.

(** [redis.call(...)] inside a script. *)
Definition redis_call (c : command) : M server Lua.value :=
  r <- call c ;; ret (reply_to_lua r).

(** EVAL / EVALSHA: run the script to its end, without interleaving, and
    convert what it returns.  Writes made before an error are kept. *)
Definition eval (script : M server Lua.value) : M server reply :=
  v <- script ;; ret (lua_to_reply v).

End Redis.

(** ** The Lua scripts ([lua-scripts.ts])

    [KEYS[i]] and [ARGV[i]] are bound positionally by the caller and appear
    here as named arguments. *)

Module Scripts.
Import Lua Redis.

(** Returns [{success, remainingStock, wasNewAttempt}]. *)
Definition ATTEMPT_PURCHASE_SCRIPT (stockKey attemptedSetKey userId : string)
  : M server value :=
  isMember <- redis_call (SISMEMBER attemptedSetKey userId) ;;
  if eqb isMember (LNum 1) then
    (* user already attempted *)
    r <- redis_call (GET stockKey) ;;
    let currentStock := l_or r (LStr "0") in
    ret (LTab [LNum 0; tonumber currentStock; LNum 0])
  else
    r <- redis_call (GET stockKey) ;;
    let stock := tonumber (l_or r (LStr "0")) in
    out_of_stock <- le stock (LNum 0) ;;
    if (out_of_stock : bool) then
      (* no stock available, but still add user to attempted set *)
      redis_call (SADD attemptedSetKey userId) ;;;
      ret (LTab [LNum 0; stock; LNum 1])
    else
      newStock <- redis_call (DECR stockKey) ;;
      went_negative <- lt newStock (LNum 0) ;;
      if (went_negative : bool) then
        (* safety net: restore the counter *)
        redis_call (INCR stockKey) ;;;
        redis_call (SADD attemptedSetKey userId) ;;;
        restored <- add newStock (LNum 1) ;;
        ret (LTab [LNum 0; restored; LNum 1])
      else
        redis_call (SADD attemptedSetKey userId) ;;;
        ret (LTab [LNum 1; newStock; LNum 1]).

(** Returns [{hasAttempted, hasResult, result}]. *)
Definition GET_USER_STATUS_SCRIPT (attemptedSetKey resultKey userId : string)
  : M server value :=
  hasAttempted <- redis_call (SISMEMBER attemptedSetKey userId) ;;
  result <- redis_call (GET resultKey) ;;
  (* result ~= nil and 1 or 0 *)
  let hasResult := l_or (l_and (LBool (negb (eqb result LNil))) (LNum 1)) (LNum 0) in
  (* result and tonumber(result) or nil *)
  let resultValue := l_or (l_and result (tonumber result)) LNil in
  ret (LTab [hasAttempted; hasResult; resultValue]).

Definition bad_argument : exn :=
  Error None "Lua redis() command arguments must be strings or integers".

(** A Lua value used as a command argument. *)
Definition as_argument (v : value) : M server string :=
  match v with
  | LStr s => ret s
  | LNum n => ret (string_of_Z n)
  | _ => throw bad_argument
  end.

Definition SET_USER_RESULT_SCRIPT (resultKey success ttl : string)
  : M server value :=
  match integer_of ttl with
  | Some seconds =>
      redis_call (SETEX resultKey seconds success) ;;;
      ret (LNum 1)
  | None => throw NOT_AN_INTEGER
  end.

Definition INITIALIZE_STOCK_SCRIPT (stockKey arg : string) : M server value :=
  let stock := tonumber (LStr arg) in
  v <- as_argument stock ;;
  redis_call (SET stockKey v) ;;;
  ret stock.

Definition RESTORE_STOCK_SCRIPT (stockKey : string) : M server value :=
  r <- redis_call (GET stockKey) ;;
  let oldStock := tonumber (l_or r (LStr "0")) in
  newStock <- redis_call (INCR stockKey) ;;
  ret newStock.

End Scripts.

(** ** JavaScript values, as far as the client inspects replies *)

Module JS.

#[warnings="-register-all"]
Inductive value :=
  | JUndefined
  | JNull
  | JNum (n : Z)
  | JStr (s : string)
  | JArr (items : list value).

(** How the Redis client hands a reply to its caller.  An integer reply
    becomes a JavaScript number: the same integer below 2^53 in size. *)
Fixpoint of_reply (r : Redis.reply) : value :=
  match r with
  | Redis.Int n => JNum n
  | Redis.Bulk s => JStr s
  | Redis.Null => JNull
  | Redis.Status s => JStr s
  | Redis.Multi l => JArr (map of_reply l)
  end.

Definition TypeError : exn :=
  Error None "Cannot read properties of null or undefined".

(** [v[i]]: an index past the end of an array is [undefined]; indexing
    [null] or [undefined] throws. *)
Definition index {S} (v : value) (i : nat) : M S value :=
  match v with
  | JArr l => ret (default JUndefined (l !! i))
  | JStr s =>
      ret (match String.get i s with
           | Some c => JStr (String c EmptyString)
           | None => JUndefined
           end)
  | JNum _ => ret JUndefined
  | JNull | JUndefined => throw TypeError
  end.

(** [v === n] for a number literal [n]. *)
Definition strict_eq_num (v : value) (n : Z) : bool :=
  match v with
  | JNum m => Z.eqb m n
  | _ => false
  end.

(** [v !== null] *)
Definition is_not_null (v : value) : bool :=
  match v with
  | JNull => false
  | _ => true
  end.

(** [parseInt(s, 10)]: leading white space is skipped, an optional sign is
    read, then the longest run of decimal digits; [None] stands for NaN.

    White space is what the language calls [WhiteSpace] and
    [LineTerminator].  A string is held here as its UTF-8 bytes: TAB, LF,
    VT, FF, CR and SP are single bytes, the others are the two- and
    three-byte sequences of U+00A0, U+1680, U+2000 to U+200A, U+2028,
    U+2029, U+202F, U+205F, U+3000 and U+FEFF. *)
Definition is_space (c : ascii) : bool :=
  match c with
  | " "%char | "009"%char | "010"%char | "011"%char | "012"%char | "013"%char => true
  | _ => false
  end.

Definition is_byte (n : N) (c : ascii) : bool := N.eqb (N_of_ascii c) n.

(** The third byte of a white-space character that starts with E2 80:
    U+2000 to U+200A, U+2028, U+2029 and U+202F. *)
Definition is_space_E2_80 (c : ascii) : bool :=
  let n := N_of_ascii c in
  (N.leb 128 n && N.leb n 138) || N.eqb n 168 || N.eqb n 169 || N.eqb n 175.

Definition is_digit (c : ascii) : bool :=
  match c with
  | "0"%char | "1"%char | "2"%char | "3"%char | "4"%char
  | "5"%char | "6"%char | "7"%char | "8"%char | "9"%char => true
  | _ => false
  end.

Fixpoint skip_spaces (s : string) : string :=
  match s with
  | String c r =>
      if is_space c then skip_spaces r
      else
        match r with
        | String c2 r2 =>
            if is_byte 194 c && is_byte 160 c2 then skip_spaces r2 (* U+00A0 *)
            else
              match r2 with
              | String c3 r3 =>
                  if (is_byte 225 c && is_byte 154 c2 && is_byte 128 c3) (* U+1680 *)
                     || (is_byte 226 c && is_byte 128 c2 && is_space_E2_80 c3)
                     || (is_byte 226 c && is_byte 129 c2 && is_byte 159 c3) (* U+205F *)
                     || (is_byte 227 c && is_byte 128 c2 && is_byte 128 c3) (* U+3000 *)
                     || (is_byte 239 c && is_byte 187 c2 && is_byte 191 c3) (* U+FEFF *)
                  then skip_spaces r3
                  else s
              | EmptyString => s
              end
        | EmptyString => s
        end
  | EmptyString => s
  end.

Fixpoint digits_prefix (s : string) : string :=
  match s with
  | String c r => if is_digit c then String c (digits_prefix r) else EmptyString
  | EmptyString => EmptyString
  end.

Definition digits_value (s : string) : option Z :=
  match digits_prefix s with
  | EmptyString => None
  | d => Z.of_uint <$> NilEmpty.uint_of_string d
  end.

Definition parseInt (s : string) : option Z :=
  match skip_spaces s with
  | String "-" r => Z.opp <$> digits_value r
  | String "+" r => digits_value r
  | r => digits_value r
  end.

End JS.

(** ** The Redis client ([RedisService.ts])

    [executeScript] runs a script by EVALSHA, reloading it or falling back
    to EVAL when the server does not know its hash; either way the script
    runs once.  The cached hashes are not part of the model. *)

Module RedisService.
Import Redis Scripts.

Record AttemptPurchaseResult := {
  success : bool;
  remainingStock : JS.value;
  wasNewAttempt : bool;
}.

Record UserStatusResult := {
  hasAttempted : bool;
  hasResult : bool;
  result : option bool;
}.

Definition executeScript (script : M server Lua.value) : M server JS.value :=
  r <- eval script ;; ret (JS.of_reply r).

(** A single command sent by the client outside any script. *)
Definition client (c : command) : M server JS.value :=
  r <- call c ;; ret (JS.of_reply r).

Definition attemptPurchase (userId productId : string)
  : M server AttemptPurchaseResult :=
  let stockKey := "flashsale:stock:" +:+ productId in
  let attemptedSetKey := "flashsale:attempted:" +:+ productId in
  result <- executeScript (ATTEMPT_PURCHASE_SCRIPT stockKey attemptedSetKey userId) ;;
  r0 <- JS.index result 0 ;;
  r1 <- JS.index result 1 ;;
  r2 <- JS.index result 2 ;;
  ret {| success := JS.strict_eq_num r0 1;
         remainingStock := r1;
         wasNewAttempt := JS.strict_eq_num r2 1 |}.

Definition decrementStock (productId : string) : M server JS.value :=
  let key := "flashsale:stock:" +:+ productId in
  client (DECR key).

Definition incrementStock (productId : string) : M server JS.value :=
  let key := "flashsale:stock:" +:+ productId in
  client (INCR key).

Definition restoreStock (productId : string) : M server JS.value :=
  let stockKey := "flashsale:stock:" +:+ productId in
  executeScript (RESTORE_STOCK_SCRIPT stockKey).

(** [stock ? parseInt(stock, 10) : 0]; [None] stands for NaN. *)
Definition getStock (productId : string) : M server (option Z) :=
  let key := "flashsale:stock:" +:+ productId in
  stock <- client (GET key) ;;
  ret (match stock with
       | JS.JStr EmptyString => Some 0
       | JS.JStr v => JS.parseInt v
       | _ => Some 0
       end).

Definition stockKeyExists (productId : string) : M server bool :=
  let key := "flashsale:stock:" +:+ productId in
  exists_ <- client (EXISTS key) ;;
  ret (JS.strict_eq_num exists_ 1).

(** The stock is sent as [String(stock)] and read back by the script with
    [tonumber]: for an integer below 2^53 in size this is its decimal
    numeral on both sides. *)
Definition initializeStock (productId : string) (stock : Z) : M server unit :=
  let stockKey := "flashsale:stock:" +:+ productId in
  executeScript (INITIALIZE_STOCK_SCRIPT stockKey (string_of_Z stock)) ;;;
  ret tt.

Definition addUserToAttemptedSet (userId productId : string) : M server bool :=
  let key := "flashsale:attempted:" +:+ productId in
  r <- client (SADD key userId) ;;
  ret (JS.strict_eq_num r 1).

Definition isUserInAttemptedSet (userId productId : string) : M server bool :=
  let key := "flashsale:attempted:" +:+ productId in
  r <- client (SISMEMBER key userId) ;;
  ret (JS.strict_eq_num r 1).

Definition getUserStatus (userId productId : string) : M server UserStatusResult :=
  let attemptedSetKey := "flashsale:attempted:" +:+ productId in
  let resultKey := "flashsale:result:" +:+ userId +:+ ":" +:+ productId in
  result <- executeScript (GET_USER_STATUS_SCRIPT attemptedSetKey resultKey userId) ;;
  r0 <- JS.index result 0 ;;
  r1 <- JS.index result 1 ;;
  r2 <- JS.index result 2 ;;
  ret {| hasAttempted := JS.strict_eq_num r0 1;
         hasResult := JS.strict_eq_num r1 1;
         result := if JS.is_not_null r2
                   then Some (JS.strict_eq_num r2 1) else None |}.

Definition setUserResult (userId productId : string) (success : bool)
  : M server unit :=
  let resultKey := "flashsale:result:" +:+ userId +:+ ":" +:+ productId in
  let ttl := 86400 in
  executeScript
    (SET_USER_RESULT_SCRIPT resultKey (if success then "1" else "0")
       (string_of_Z ttl)) ;;;
  ret tt.

Definition getUserResult (userId productId : string) : M server (option bool) :=
  let key := "flashsale:result:" +:+ userId +:+ ":" +:+ productId in
  r <- client (GET key) ;;
  ret (match r with
       | JS.JNull => None
       | JS.JStr v => Some (String.eqb v "1")
       | _ => Some false
       end).

End RedisService.

(** ** Asynchronous functions

    An [async] function is a sequence of awaited operations.  Each awaited
    operation (one Redis command or script, one SQL statement, one publish)
    is atomic; between two of them other requests and workers may run.
    [proc A] is such a function with its remaining work made explicit:
    either it has settled, or it awaits an operation and continues with
    that operation's outcome. *)

Inductive proc (W A : Type) :=
  | Done (r : outcome A)
  | Await {B : Type} (op : M W B) (k : outcome B → proc W A).
Arguments Done {W A} r.
Arguments Await {W A B} op k.

Definition await {W A} (op : M W A) : proc W A := Await op Done.

Fixpoint pbind {W A B} (p : proc W A) (k : A → proc W B) : proc W B :=
  match p with
  | Done (Ok a) => k a
  | Done (Throw e) => Done (Throw e)
  | Await op j => Await op (λ b, pbind (j b) k)
  end.

(** [try { p } catch (e) { h e }] *)
Fixpoint ptry {W A} (p : proc W A) (h : exn → proc W A) : proc W A :=
  match p with
  | Done (Ok a) => Done (Ok a)
  | Done (Throw e) => h e
  | Await op j => Await op (λ b, ptry (j b) h)
  end.

(** Running an asynchronous function with nothing interleaved. *)
Fixpoint run {W A} (p : proc W A) (w : W) : outcome A * W :=
  match p with
  | Done r => (r, w)
  | Await op k => let '(b, w') := op w in run (k b) w'
  end.

Declare Scope p_scope.
Delimit Scope p_scope with p.
Notation "x <- m ;; k" := (pbind m (λ x, k))
  (at level 100, m at next level, right associativity) : p_scope.
Notation "m ;;; k" := (pbind m (λ _, k))
  (at level 100, right associativity) : p_scope.

(** ** The world outside the process: Redis, Postgres, Kafka, the clock *)

Inductive OrderStatus := PENDING | SUCCESS | FAILED.

(** A row of [flash_sales]; instants are milliseconds since the epoch. *)
Record FlashSale := {
  sale_id : Z;
  sale_productId : Z;
  startAt : Z;
  endAt : Z;
  initialStock : Z;
  remainingStock : Z;
}.

(** The message of the attempt queue; [saleId] is optional. *)
Record FlashSaleAttempt := {
  userId : string;
  productId : string;
  saleId : option string;
  timestamp : Z;
}.

(** A row of [orders]. *)
Record OrderRow := {
  row_id : Z;
  row_sale_id : Z;
  row_product_id : Z;
  row_user_id : Z;
  row_status : OrderStatus;
  row_attempt_id : option string;
}.

(** A row of [purchase_attempts]. *)
Record AttemptRow := {
  attempt_sale_id : Z;
  attempt_user_id : Z;
  attempt_payload : FlashSaleAttempt;
}.

Record World := {
  redis : Redis.server;
  flash_sales : gmap Z FlashSale;
  products : gset Z;
  orders : list OrderRow;
  orders_id_seq : Z;
  purchase_attempts : list AttemptRow;
  (** the topic of attempts: key and message, oldest first *)
  topic : list (string * FlashSaleAttempt);
  kafka_available : bool;
  clock : Z;
}.

Definition set_redis (r : Redis.server) (w : World) : World :=
  {| redis := r; flash_sales := flash_sales w; products := products w;
     orders := orders w; orders_id_seq := orders_id_seq w;
     purchase_attempts := purchase_attempts w; topic := topic w;
     kafka_available := kafka_available w; clock := clock w |}.

Definition set_orders (o : list OrderRow) (seq : Z) (w : World) : World :=
  {| redis := redis w; flash_sales := flash_sales w; products := products w;
     orders := o; orders_id_seq := seq;
     purchase_attempts := purchase_attempts w; topic := topic w;
     kafka_available := kafka_available w; clock := clock w |}.

Definition set_purchase_attempts (a : list AttemptRow) (w : World) : World :=
  {| redis := redis w; flash_sales := flash_sales w; products := products w;
     orders := orders w; orders_id_seq := orders_id_seq w;
     purchase_attempts := a; topic := topic w;
     kafka_available := kafka_available w; clock := clock w |}.

Definition set_topic (t : list (string * FlashSaleAttempt)) (w : World) : World :=
  {| redis := redis w; flash_sales := flash_sales w; products := products w;
     orders := orders w; orders_id_seq := orders_id_seq w;
     purchase_attempts := purchase_attempts w; topic := t;
     kafka_available := kafka_available w; clock := clock w |}.

(** An operation of the Redis client, performed against the world's Redis. *)
Definition on_redis {A} (m : M Redis.server A) : M World A :=
  λ w, let '(r, s) := m (redis w) in (r, set_redis s w).

(** [new Date()] *)
Definition new_Date : M World Z := λ w, (Ok (clock w), w).

(** [s.includes(sub)] *)
Fixpoint includes (sub s : string) : bool :=
  String.prefix sub s
  || match s with
     | EmptyString => false
     | String _ r => includes sub r
     end.

(** ** Kafka producer ([KafkaProducer.ts]) *)

Module KafkaProducer.

Definition publish_failed : exn := Error None "Kafka connection failed".

(** The message is keyed by [userId]; a failed send rethrows. *)
Definition sendAttempt (attempt : FlashSaleAttempt) : M World unit :=
  λ w, if kafka_available w
       then (Ok tt, set_topic (topic w ++ [(userId attempt, attempt)]) w)
       else (Throw publish_failed, w).

End KafkaProducer.

(** ** Repositories over Postgres *)

Definition invalid_bigint : exn :=
  Error (Some "22P02") "invalid input syntax for type bigint: NaN".
Definition bigint_out_of_range : exn :=
  Error (Some "22003") "value is out of range for type bigint".
Definition bigint_syntax : exn :=
  Error (Some "22P02") "invalid input syntax for type bigint".

(** A number bound to a BIGINT parameter.  The driver sends its decimal
    text: from 10^21 on this is in exponent notation, which the server does
    not read as a bigint, and below that the server rejects what is outside
    the 64-bit range.  [None]: the parameter is accepted. *)
Definition bigint_parameter (n : Z) : option exn :=
  if Z.leb (10 ^ 21) (Z.abs n) then Some bigint_syntax
  else if Z.ltb n Redis.LLONG_MIN || Z.ltb Redis.LLONG_MAX n
       then Some bigint_out_of_range
       else None.

Module FlashSaleRepository.

(** [SELECT ... FROM flash_sales fs ... WHERE fs.id = $1].  The ids of the
    rows are BIGINTs, so a parameter that the server rejects is never the
    id of a row: the rejection is met where the table has no such id. *)
Definition findById (id : Z) : M World (option FlashSale) :=
  λ w,
    match flash_sales w !! id with
    | Some row => (Ok (Some row), w)
    | None =>
        match bigint_parameter id with
        | Some error => (Throw error, w)
        | None => (Ok None, w)
        end
    end.

End FlashSaleRepository.

Module PurchaseAttemptRepository.

Definition foreign_key_violation : exn :=
  Error (Some "23503")
    "insert or update on table purchase_attempts violates foreign key constraint".

(** [INSERT INTO purchase_attempts (sale_id, user_id, attempt_payload)
    VALUES ($1, $2, $3)]: both ids are BIGINT parameters and [sale_id]
    refers to [flash_sales]. *)
Definition insert (sale user : Z) (payload : FlashSaleAttempt) : M World unit :=
  λ w,
    match bigint_parameter user with
    | Some error => (Throw error, w)
    | None =>
        match flash_sales w !! sale with
        | Some _ =>
            (Ok tt,
             set_purchase_attempts
               (purchase_attempts w ++
                  [{| attempt_sale_id := sale;
                      attempt_user_id := user;
                      attempt_payload := payload |}]) w)
        | None => (Throw (default foreign_key_violation (bigint_parameter sale)), w)
        end
    end.

(** Audit insert.  An attempt without sale id or with an id that is not a
    number is skipped; an error of the insert is caught, logged and
    swallowed.  The client is taken from the pool before the [try]; the
    pool is taken to hand one out. *)
Definition create (attempt : FlashSaleAttempt) : M World unit :=
  match saleId attempt with
  | None | Some EmptyString => ret tt
  | Some sid =>
      match JS.parseInt (userId attempt) with
      | None => ret tt
      | Some userIdNum =>
          match JS.parseInt sid with
          | None => ret tt
          | Some saleIdNum =>
              try_catch (insert saleIdNum userIdNum attempt)
                (λ error, ret tt)
          end
      end
  end.

End PurchaseAttemptRepository.

Module OrderRepository.

(** The [Order] interface of the domain model. *)
Record Order := {
  id : option Z;
  order_userId : string;
  order_productId : string;
  order_saleId : option Z;
  status : OrderStatus;
  attemptId : option string;
}.

Definition unique_violation : exn :=
  Error (Some "23505")
    "duplicate key value violates unique constraint ux_orders_sale_user".
Definition foreign_key_violation : exn :=
  Error (Some "23503") "insert or update on table orders violates foreign key constraint".

Definition same_key (sale user : Z) (r : OrderRow) : bool :=
  Z.eqb (row_sale_id r) sale && Z.eqb (row_user_id r) user.

(** [INSERT INTO orders ... RETURNING ...] under the unique index on
    [(sale_id, user_id)] and the foreign keys to [flash_sales] and
    [products].  The id sequence advances whether or not the row is kept.
    The three ids are taken to be BIGINTs and the ids of the rows to have
    been issued by the sequence ([order_ids_fresh] below): the properties
    that depend on it say so. *)
Definition insert (sale product user : Z) (st : OrderStatus)
    (attempt : option string) : M World OrderRow :=
  λ w,
    let row := {| row_id := orders_id_seq w; row_sale_id := sale;
                  row_product_id := product; row_user_id := user;
                  row_status := st; row_attempt_id := attempt |} in
    let w' := set_orders (orders w) (orders_id_seq w + 1) w in
    if existsb (same_key sale user) (orders w) then (Throw unique_violation, w')
    else if bool_decide (is_Some (flash_sales w !! sale))
            && bool_decide (product ∈ products w)
    then (Ok row, set_orders (orders w ++ [row]) (orders_id_seq w + 1) w)
    else (Throw foreign_key_violation, w').

Definition of_row (row : OrderRow) : Order :=
  {| id := Some (row_id row);
     order_userId := string_of_Z (row_user_id row);
     order_productId := string_of_Z (row_product_id row);
     order_saleId := Some (row_sale_id row);
     status := row_status row;
     attemptId := row_attempt_id row |}.

Definition already_exists : exn := Error None "Order already exists for this user".

Definition create (order : Order) : M World Order :=
  try_catch
    (match JS.parseInt (order_userId order) with
     | None => throw (Error None "Invalid userId: must be a number or numeric string")
     | Some userIdNum =>
         match order_saleId order with
         | None | Some 0 => throw (Error None "saleId is required")
         | Some saleId =>
             match JS.parseInt (order_productId order) with
             | None =>
                 throw (Error None "Invalid productId: must be a number or numeric string")
             | Some productIdNum =>
                 row <- insert saleId productIdNum userIdNum (status order)
                          (attemptId order) ;;
                 ret (of_row row)
             end
         end
     end)
    (λ error,
       (* unique constraint violation: the user already has an order *)
       if bool_decide (code error = Some "23505")
       then throw already_exists
       else throw error).

(** [SELECT ... WHERE user_id = $1 AND sale_id = $2 LIMIT 1]; a NaN
    parameter is rejected by the server.  The two ids are taken to be
    BIGINTs, as for [insert]. *)
Definition findByUserId (userId : string) (saleId : option Z)
  : M World (option Order) :=
  λ w,
    match JS.parseInt userId, saleId with
    | Some userIdNum, Some saleId =>
        (Ok (of_row <$> find (same_key saleId userIdNum) (orders w)), w)
    | _, _ => (Throw invalid_bigint, w)
    end.

End OrderRepository.

(** ** The orchestrator ([FlashSaleService.ts]) *)

Module FlashSaleService.

Record Response := { success : bool; message : string }.

Section AttemptPurchase.

(** [Date.prototype.toISOString], left abstract. *)
Variable toISOString : Z → string.

Local Open Scope p_scope.

Definition attemptPurchase (userId : string) (saleId : Z) : proc World Response :=
  flashSale <- await (FlashSaleRepository.findById saleId) ;;
  match flashSale with
  | None =>
      Done (Ok {| success := false;
                  message := "Flash sale with ID " +:+ string_of_Z saleId
                             +:+ " not found." |})
  | Some flashSale =>
      now <- await new_Date ;;
      if Z.ltb now (startAt flashSale) then
        Done (Ok {| success := false;
                    message := "Flash sale is not yet active. Start time: "
                               +:+ toISOString (startAt flashSale) |})
      else if Z.ltb (endAt flashSale) now then
        Done (Ok {| success := false;
                    message := "Flash sale has ended. End time: "
                               +:+ toISOString (endAt flashSale) |})
      else
        let productId := string_of_Z (sale_productId flashSale) in
        (* make sure the stock counter exists *)
        stockKeyExists <- await (on_redis (RedisService.stockKeyExists productId)) ;;
        (if negb stockKeyExists
         then await (on_redis (RedisService.initializeStock productId
                                 (remainingStock flashSale)))
         else Done (Ok tt)) ;;;
        attemptResult <- await (on_redis (RedisService.attemptPurchase userId productId)) ;;
        if negb (RedisService.wasNewAttempt attemptResult) then
          (* user already attempted: look for their result *)
          userStatus <- await (on_redis (RedisService.getUserStatus userId productId)) ;;
          match RedisService.hasResult userStatus, RedisService.result userStatus with
          | true, Some result =>
              Done (Ok {| success := result;
                          message := if result
                                     then "You have successfully secured an item!"
                                     else "Your purchase attempt was unsuccessful." |})
          | _, _ =>
              Done (Ok {| success := false;
                          message := "Your purchase attempt is being processed. Please check back shortly." |})
          end
        else if negb (RedisService.success attemptResult) then
          await (on_redis (RedisService.setUserResult userId productId false)) ;;;
          Done (Ok {| success := false;
                      message := "Sorry, the item is out of stock." |})
        else
          timestamp <- await new_Date ;;
          let attempt := {| userId := userId;
                            productId := productId;
                            saleId := Some (string_of_Z saleId);
                            timestamp := timestamp |} in
          (* audit record; its outcome is never looked at *)
          await (PurchaseAttemptRepository.create attempt) ;;;
          failed <- ptry
                      (await (KafkaProducer.sendAttempt attempt) ;;;
                       Done (Ok None))
                      (λ error,
                         (* rollback: give the unit of stock back *)
                         await (on_redis (RedisService.restoreStock productId)) ;;;
                         Done (Ok (Some {| success := false;
                                           message := "Failed to process your request. Please try again." |}))) ;;
          match failed with
          | Some response => Done (Ok response)
          | None =>
              Done (Ok {| success := true;
                          message := "Your purchase attempt has been received and is being processed." |})
          end
  end.

End AttemptPurchase.

End FlashSaleService.

(** ** The order finalizer (the worker's message handler) *)

Module Worker.
Import OrderRepository.

Local Open Scope p_scope.

Definition is_success (st : OrderStatus) : bool :=
  match st with SUCCESS => true | _ => false end.

Definition processFlashSaleAttempt (attempt : FlashSaleAttempt) : proc World unit :=
  let userId := userId attempt in
  let productId := productId attempt in
  match saleId attempt with
  | None | Some EmptyString =>
      (* missing saleId *)
      await (on_redis (RedisService.setUserResult userId productId false))
  | Some saleId =>
      let saleIdNum := JS.parseInt saleId in
      ptry
        ((* idempotency: does the user already have an order? *)
         existingOrder <- await (findByUserId userId saleIdNum) ;;
         match existingOrder with
         | Some existingOrder =>
             let isSuccess := is_success (status existingOrder) in
             await (on_redis (RedisService.setUserResult userId productId isSuccess))
         | None =>
             (* double-check of the counter *)
             stock <- await (on_redis (RedisService.getStock productId)) ;;
             if (match stock with Some n => Z.ltb n 0 | None => false end) then
               await (on_redis (RedisService.setUserResult userId productId false))
             else
               order <- await (create {| id := None;
                                         order_userId := userId;
                                         order_productId := productId;
                                         order_saleId := saleIdNum;
                                         status := SUCCESS;
                                         attemptId := None |}) ;;
               await (on_redis (RedisService.setUserResult userId productId true))
         end)
        (λ error,
           if includes "already exists" (message error) then
             (* the user already has an order: report it *)
             ptry
               (existingOrder <- await (findByUserId userId saleIdNum) ;;
                match existingOrder with
                | Some existingOrder =>
                    let isSuccess := is_success (status existingOrder) in
                    await (on_redis (RedisService.setUserResult userId productId isSuccess))
                | None => Done (Ok tt)
                end)
               (λ checkError, Done (Ok tt))
           else
             await (on_redis (RedisService.setUserResult userId productId false)))
  end.

End Worker.

(** * Specification vocabulary

    The names the design document uses, defined over the model above. *)

(** Key-space layout (section 6 of the design). *)
Definition stock_key (productId : string) : string :=
  "flashsale:stock:" +:+ productId.
Definition attempted_key (productId : string) : string :=
  "flashsale:attempted:" +:+ productId.
Definition result_key (userId productId : string) : string :=
  "flashsale:result:" +:+ userId +:+ ":" +:+ productId.

(** The StockCounter of a product: the integer its key holds, if any. *)
Definition StockCounter (s : Redis.server) (productId : string) : option Z :=
  match Redis.data s !! stock_key productId with
  | Some (Redis.Str v _) => Redis.integer_of v
  | _ => None
  end.

(** The AttemptedSet of a product; a missing key is the empty set. *)
Definition AttemptedSet (s : Redis.server) (productId : string) : gset string :=
  match Redis.data s !! attempted_key productId with
  | Some (Redis.SetV m) => m
  | _ => ∅
  end.

(** The Result Cache entry of a user and product: value and TTL. *)
Definition ResultCache (s : Redis.server) (userId productId : string)
  : option (string * option Z) :=
  match Redis.data s !! result_key userId productId with
  | Some (Redis.Str v t) => Some (v, t)
  | _ => None
  end.

(** The keys of a product hold what the layout says: the stock key an
    integer string (or nothing yet), the attempted key a set (or nothing). *)
Definition stock_wf (s : Redis.server) (productId : string) : Prop :=
  match Redis.data s !! stock_key productId with
  | None => True
  | Some (Redis.Str v _) => is_Some (Redis.integer_of v)
  | Some (Redis.SetV _) => False
  end.

Definition attempted_wf (s : Redis.server) (productId : string) : Prop :=
  match Redis.data s !! attempted_key productId with
  | Some (Redis.Str _ _) => False
  | _ => True
  end.

(** The counter as the reservation script reads it: a missing key is 0. *)
Definition counter_or_zero (s : Redis.server) (productId : string) : Z :=
  default 0 (StockCounter s productId).

(** [tryReserve(productId, userId)] is the client's [attemptPurchase]. *)
Definition tryReserve (productId userId : string)
  : M Redis.server RedisService.AttemptPurchaseResult :=
  RedisService.attemptPurchase userId productId.

Record Reservation := { granted : bool; remaining : Z; firstAttempt : bool }.

Definition reservation_of (r : RedisService.AttemptPurchaseResult)
  : option Reservation :=
  match RedisService.remainingStock r with
  | JS.JNum n =>
      Some {| granted := RedisService.success r;
              remaining := n;
              firstAttempt := RedisService.wasNewAttempt r |}
  | _ => None
  end.

(** The four-step algorithm of section 4.1, word for word, over a counter
    and a set.  Step 3 only says "return granted=false"; the remaining
    count reported there is taken to be the restored counter and the
    attempt to be a first attempt. *)
Definition tryReserve_spec (userId : string) (st : Z * gset string)
  : Reservation * (Z * gset string) :=
  let '(counter, attempted) := st in
  if bool_decide (userId ∈ attempted) then
    ({| granted := false; remaining := counter; firstAttempt := false |}, st)
  else if Z.leb counter 0 then
    ({| granted := false; remaining := counter; firstAttempt := true |},
     (counter, {[userId]} ∪ attempted))
  else
    let newCounter := counter - 1 in
    if Z.ltb newCounter 0 then
      ({| granted := false; remaining := newCounter + 1; firstAttempt := true |},
       (newCounter + 1, {[userId]} ∪ attempted))
    else
      ({| granted := true; remaining := newCounter; firstAttempt := true |},
       (newCounter, {[userId]} ∪ attempted)).

(** A sequence of [tryReserve] calls on one product, in the order in which
    the server executes the scripts. *)
Fixpoint reserve_all (productId : string) (users : list string) (s : Redis.server)
  : list (outcome RedisService.AttemptPurchaseResult) * Redis.server :=
  match users with
  | [] => ([], s)
  | u :: rest =>
      let '(r, s1) := tryReserve productId u s in
      let '(rs, s2) := reserve_all productId rest s1 in
      (r :: rs, s2)
  end.

Definition is_granted (r : outcome RedisService.AttemptPurchaseResult) : bool :=
  match r with
  | Ok a => RedisService.success a
  | Throw _ => false
  end.

Fixpoint grants (rs : list (outcome RedisService.AttemptPurchaseResult)) : Z :=
  match rs with
  | [] => 0
  | r :: rest => (if is_granted r then 1 else 0) + grants rest
  end.

(** The world as [attemptPurchase] leaves it just before it calls
    [tryReserve]: the stock counter has been looked for and, when missing,
    initialized from the sale's [remainingStock]. *)
Definition ensure_stock (sale : FlashSale) (w : World) : World :=
  let productId := string_of_Z (sale_productId sale) in
  match on_redis (RedisService.stockKeyExists productId) w with
  | (Ok false, w1) =>
      (on_redis (RedisService.initializeStock productId (remainingStock sale)) w1).2
  | (_, w1) => w1
  end.

(** The commands a reservation may issue: on the product's stock and
    attempted keys only, never on a result key. *)
Definition reservation_key_only (productId : string) (c : Redis.command) : Prop :=
  (Redis.command_key c = stock_key productId
   ∨ Redis.command_key c = attempted_key productId)
  ∧ ∀ u' p', Redis.command_key c ≠ result_key u' p'.

(** An outcome that is a value, not an exception. *)
Definition returned {A} (r : outcome A) : Prop :=
  match r with Ok _ => True | Throw _ => False end.

(** The operations of the Redis client, one constructor per method. *)
Inductive operation :=
  | AttemptPurchase (userId productId : string)
  | DecrementStock (productId : string)
  | IncrementStock (productId : string)
  | RestoreStock (productId : string)
  | GetStock (productId : string)
  | StockKeyExists (productId : string)
  | InitializeStock (productId : string) (stock : Z)
  | AddUserToAttemptedSet (userId productId : string)
  | IsUserInAttemptedSet (userId productId : string)
  | GetUserStatus (userId productId : string)
  | SetUserResult (userId productId : string) (success : bool)
  | GetUserResult (userId productId : string).

Definition perform (op : operation) : M Redis.server unit :=
  match op with
  | AttemptPurchase u p => RedisService.attemptPurchase u p ;;; ret tt
  | DecrementStock p => RedisService.decrementStock p ;;; ret tt
  | IncrementStock p => RedisService.incrementStock p ;;; ret tt
  | RestoreStock p => RedisService.restoreStock p ;;; ret tt
  | GetStock p => RedisService.getStock p ;;; ret tt
  | StockKeyExists p => RedisService.stockKeyExists p ;;; ret tt
  | InitializeStock p n => RedisService.initializeStock p n
  | AddUserToAttemptedSet u p => RedisService.addUserToAttemptedSet u p ;;; ret tt
  | IsUserInAttemptedSet u p => RedisService.isUserInAttemptedSet u p ;;; ret tt
  | GetUserStatus u p => RedisService.getUserStatus u p ;;; ret tt
  | SetUserResult u p b => RedisService.setUserResult u p b
  | GetUserResult u p => RedisService.getUserResult u p ;;; ret tt
  end.

Definition operation_product (op : operation) : string :=
  match op with
  | AttemptPurchase _ p | DecrementStock p | IncrementStock p | RestoreStock p
  | GetStock p | StockKeyExists p | InitializeStock p _
  | AddUserToAttemptedSet _ p | IsUserInAttemptedSet _ p | GetUserStatus _ p
  | SetUserResult _ p _ | GetUserResult _ p => p
  end.

Definition operation_user (op : operation) : option string :=
  match op with
  | AttemptPurchase u _ | AddUserToAttemptedSet u _ | IsUserInAttemptedSet u _
  | GetUserStatus u _ | SetUserResult u _ _ | GetUserResult u _ => Some u
  | _ => None
  end.

(** Section 6 of the design, as a condition on one command issued on behalf
    of a product (and a user, where the operation has one): counter
    commands address the stock key and write integer strings, set commands
    address the attempted set and carry the user id, and the result cache
    is written by SETEX with "1" or "0" and a TTL of 86400 seconds. *)
Definition layout (user : option string) (productId : string) (c : Redis.command)
  : Prop :=
  match c with
  | Redis.GET k =>
      k = stock_key productId
      ∨ ∃ u, user = Some u ∧ k = result_key u productId
  | Redis.SET k v => k = stock_key productId ∧ ∃ n, v = string_of_Z n
  | Redis.INCR k | Redis.DECR k | Redis.EXISTS k => k = stock_key productId
  | Redis.SISMEMBER k m | Redis.SADD k m =>
      k = attempted_key productId ∧ user = Some m
  | Redis.SETEX k seconds v =>
      (∃ u, user = Some u ∧ k = result_key u productId)
      ∧ seconds = 86400 ∧ (v = "1" ∨ v = "0")
  end.

(** [m] only appends to the command log, and every command it appends
    satisfies [P]. *)
Definition issues {A} (P : Redis.command → Prop) (m : M Redis.server A) : Prop :=
  ∀ s, ∃ cmds, Redis.log (m s).2 = Redis.log s ++ cmds ∧ Forall P cmds.

(** Every awaited operation of an asynchronous function satisfies [P],
    whatever the earlier operations returned. *)
Fixpoint every_step {W A} (P : ∀ B, M W B → Prop) (p : proc W A) : Prop :=
  match p with
  | Done _ => True
  | Await op k => P _ op ∧ ∀ b, every_step P (k b)
  end.

(** An operation on the world that leaves the Redis data alone or only
    appends to the Redis command log. *)
Definition appends_to_log {B} (op : M World B) : Prop :=
  ∀ w, ∃ cmds, Redis.log (redis (op w).2) = Redis.log (redis w) ++ cmds.

Definition settled (result : bool) : FlashSaleService.Response :=
  {| FlashSaleService.success := result;
     FlashSaleService.message :=
       if result then "You have successfully secured an item!"
       else "Your purchase attempt was unsuccessful." |}.

(** ** Deliveries of one message to the finalizer *)

(** [n] deliveries of the same message, one after the other. *)
Fixpoint deliver (n : nat) (attempt : FlashSaleAttempt) (w : World) : World :=
  match n with
  | O => w
  | S n' => deliver n' attempt (run (Worker.processFlashSaleAttempt attempt) w).2
  end.

(** Finalizer instances running side by side: the scheduler picks an
    instance, which performs its next awaited operation. *)
Definition step_at (i : nat) (ps : list (proc World unit)) (w : World)
  : list (proc World unit) * World :=
  match ps !! i with
  | Some (Await op k) => let '(b, w') := op w in (<[i := k b]> ps, w')
  | _ => (ps, w)
  end.

Fixpoint interleave (schedule : list nat) (ps : list (proc World unit)) (w : World)
  : list (proc World unit) * World :=
  match schedule with
  | [] => (ps, w)
  | i :: rest => let '(ps', w') := step_at i ps w in interleave rest ps' w'
  end.

Definition finished {W A} (p : proc W A) : Prop :=
  match p with Done _ => True | Await _ _ => False end.

(** The order rows of a user in a sale, and the first of them. *)
Definition order_rows (sale user : Z) (w : World) : list OrderRow :=
  List.filter (OrderRepository.same_key sale user) (orders w).

Definition order_of (sale user : Z) (w : World) : option OrderRow :=
  find (OrderRepository.same_key sale user) (orders w).

Definition encode_result (success : bool) : string :=
  if success then "1" else "0".

(** The Result Cache entry of the message's user and product is the status
    of the user's order. *)
Definition cache_reflects_order (attempt : FlashSaleAttempt) (sale user : Z)
    (w : World) : Prop :=
  ∃ row,
    order_of sale user w = Some row
    ∧ ResultCache (redis w) (userId attempt) (productId attempt)
      = Some (encode_result (Worker.is_success (row_status row)), Some 86400).

(** What stays true of the world while finalizers of one message run: the
    user has at most one order in the sale, the sale and the product exist,
    and the stock counter, if present, is a non-negative integer. *)
Definition finalizer_inv (attempt : FlashSaleAttempt) (sale product user : Z)
    (w : World) : Prop :=
  (length (order_rows sale user w) ≤ 1)%nat
  ∧ is_Some (flash_sales w !! sale)
  ∧ product ∈ products w
  ∧ match Redis.data (redis w) !! stock_key (productId attempt) with
    | None => True
    | Some (Redis.Str v _) => ∃ n, Redis.integer_of v = Some n ∧ 0 ≤ n
    | Some (Redis.SetV _) => False
    end.

(** What one step of a finalizer may do to the world. *)
Definition finalizer_step (attempt : FlashSaleAttempt) (sale user : Z)
    (w w' : World) : Prop :=
  (orders w' = orders w
   ∨ order_of sale user w = None
     ∧ ∃ row, orders w' = orders w ++ [row]
              ∧ OrderRepository.same_key sale user row = true
              ∧ row_status row = SUCCESS)
  ∧ flash_sales w' = flash_sales w
  ∧ products w' = products w
  ∧ Redis.data (redis w') !! stock_key (productId attempt)
    = Redis.data (redis w) !! stock_key (productId attempt)
  ∧ (cache_reflects_order attempt sale user w →
     cache_reflects_order attempt sale user w').

(** What a finalizer instance has learnt so far; all of it stays true
    whatever the other instances do. *)
Inductive knowledge :=
  | Nothing
  | RowExists
  | WillWrite (success : bool)
  | Finished.

Definition knows (attempt : FlashSaleAttempt) (sale user : Z) (kn : knowledge)
    (w : World) : Prop :=
  match kn with
  | Nothing => True
  | RowExists => is_Some (order_of sale user w)
  | WillWrite b =>
      ∃ row, order_of sale user w = Some row
             ∧ Worker.is_success (row_status row) = b
  | Finished => cache_reflects_order attempt sale user w
  end.

(** A finalizer instance that, from any world satisfying the invariant and
    what it knows, takes only allowed steps and ends having reported the
    user's order. *)
Fixpoint reports_order (attempt : FlashSaleAttempt) (sale product user : Z)
    (kn : knowledge) (p : proc World unit) : Prop :=
  match p with
  | Done _ => kn = Finished
  | Await op k =>
      ∀ w, finalizer_inv attempt sale product user w →
           knows attempt sale user kn w →
           finalizer_step attempt sale user w (op w).2
           ∧ ∃ kn', knows attempt sale user kn' (op w).2
                    ∧ reports_order attempt sale product user kn' (k (op w).1)
  end.

(** The first command of what [m] executes is [c]. *)
Definition starts_with {A} (c : Redis.command) (m : M Redis.server A) : Prop :=
  ∀ s, ∃ rest, Redis.log (m s).2 = Redis.log s ++ c :: rest.

(** Since [w0] no order has been touched, or exactly one has been added:
    a SUCCESS order of this user in this sale, who had none in [w0]. *)
Definition at_most_one_new_order (sale user : Z) (w0 w : World) : Prop :=
  orders w = orders w0
  ∨ order_of sale user w0 = None
    ∧ ∃ row, orders w = orders w0 ++ [row]
             ∧ OrderRepository.same_key sale user row = true
             ∧ row_status row = SUCCESS.

(** The order the finalizer inserts for a message of sale [sale]. *)
Definition new_order (attempt : FlashSaleAttempt) (sale : Z) : OrderRepository.Order :=
  {| OrderRepository.id := None;
     OrderRepository.order_userId := userId attempt;
     OrderRepository.order_productId := productId attempt;
     OrderRepository.order_saleId := Some sale;
     OrderRepository.status := SUCCESS;
     OrderRepository.attemptId := None |}.

(** A finalizer instance together with what it knows in world [w]. *)
Definition reporting (attempt : FlashSaleAttempt) (sale product user : Z)
    (w : World) (p : proc World unit) : Prop :=
  ∃ kn, knows attempt sale user kn w
        ∧ reports_order attempt sale product user kn p.

(** [w'] is the world after [n] deliveries of [attempt] from [w]: handled
    one after the other, or by [n] instances interleaved in any way and all
    run to completion. *)
Definition delivered (n : nat) (attempt : FlashSaleAttempt) (w w' : World) : Prop :=
  w' = deliver n attempt w
  ∨ ∃ schedule,
      w' = (interleave schedule
              (replicate n (Worker.processFlashSaleAttempt attempt)) w).2
      ∧ Forall finished
          (interleave schedule
             (replicate n (Worker.processFlashSaleAttempt attempt)) w).1.

(** An operation that never gives a user a second order in a sale. *)
Definition keeps_orders_unique (sale user : Z) {B} (op : M World B) : Prop :=
  ∀ w, (length (order_rows sale user w) ≤ 1)%nat →
       (length (order_rows sale user (op w).2) ≤ 1)%nat.

(** The ids of the order rows were issued by the sequence of the table: all
    of them are below its next value, so that an insert never meets the
    primary key of a row that is there. *)
Definition order_ids_fresh (w : World) : Prop :=
  Forall (λ row, row_id row < orders_id_seq w) (orders w).

Definition keeps_order_ids_fresh {B} (op : M World B) : Prop :=
  ∀ w, order_ids_fresh w → order_ids_fresh (op w).2.

(** ** Sample states, used to exercise the statements below *)

Definition store_of_two : Redis.server :=
  Redis.Server {[ stock_key "1" := Redis.Str "2" None ]} [].

Definition sold_out_store : Redis.server :=
  Redis.Server {[ stock_key "1" := Redis.Str "0" None ]} [].

(** Sale 1 of product 1, open from instant 100 to instant 200. *)
Definition sample_sale : FlashSale :=
  {| sale_id := 1; sale_productId := 1; startAt := 100; endAt := 200;
     initialStock := 2; remainingStock := 2 |}.

Definition sample_world (r : Redis.server) (now : Z) (kafka : bool) : World :=
  {| redis := r;
     flash_sales := {[ 1 := sample_sale ]};
     products := {[ 1 ]};
     orders := [];
     orders_id_seq := 1;
     purchase_attempts := [];
     topic := [];
     kafka_available := kafka;
     clock := now |}.

(** Sale 1 of product 1 with its bounds in the wrong order: it starts at
    instant 200 and ends at instant 100.  Nothing in the schema of
    [flash_sales] rules such a row out. *)
Definition inverted_sale : FlashSale :=
  {| sale_id := 1; sale_productId := 1; startAt := 200; endAt := 100;
     initialStock := 2; remainingStock := 2 |}.

Definition inverted_world (now : Z) : World :=
  {| redis := store_of_two;
     flash_sales := {[ 1 := inverted_sale ]};
     products := {[ 1 ]};
     orders := [];
     orders_id_seq := 1;
     purchase_attempts := [];
     topic := [];
     kafka_available := true;
     clock := now |}.

Definition sample_attempt : FlashSaleAttempt :=
  {| userId := "7"; productId := "1"; saleId := Some "1"; timestamp := 150 |}.

(** A well-typed message that carries no sale id. *)
Definition attempt_without_sale : FlashSaleAttempt :=
  {| userId := "7"; productId := "1"; saleId := None; timestamp := 150 |}.

(** The world after user 7's first purchase attempt in [sample_sale], which
    is granted and enqueued but not yet finalized. *)
Definition after_first_attempt : World :=
  (run (FlashSaleService.attemptPurchase string_of_Z "7" 1)
     (sample_world store_of_two 150 true)).2.

(** Purchase attempts by several users in a sale, one request after the
    other. *)
Fixpoint purchase_all (toISOString : Z → string) (users : list string) (saleId : Z)
    (w : World) : list (outcome FlashSaleService.Response) * World :=
  match users with
  | [] => ([], w)
  | u :: rest =>
      let '(r, w1) := run (FlashSaleService.attemptPurchase toISOString u saleId) w in
      let '(rs, w2) := purchase_all toISOString rest saleId w1 in
      (r :: rs, w2)
  end.

Definition message_of (r : outcome FlashSaleService.Response) : string :=
  match r with
  | Ok a => FlashSaleService.message a
  | Throw e => message e
  end.

(** * Around the pipeline

    The other entry points of the files above and the code that calls the
    pipeline: the remaining queries of [FlashSaleRepository], the status
    query of the service ([FlashSaleService.getStatus]), the message
    callback of the consumer ([KafkaConsumer.ts]), the stock initialization
    at start-up ([index.ts]), the authentication middleware and the HTTP
    routes of the flash sale and of the order status. *)

(** ** [FlashSaleRepository.ts], continued

    The model of a [flash_sales] row keeps the columns the pipeline reads.
    The queries below also read [created_at] and, through the join with
    [products], the product's name and description; no code of the
    repository ever changes these columns, and they are given here as
    functions of the row's primary key. *)

Definition set_flash_sales (t : gmap Z FlashSale) (w : World) : World :=
  {| redis := redis w; flash_sales := t; products := products w;
     orders := orders w; orders_id_seq := orders_id_seq w;
     purchase_attempts := purchase_attempts w; topic := topic w;
     kafka_available := kafka_available w; clock := clock w |}.

(** The [FlashSale] object of the domain: the row with the joined
    columns. *)
Record FlashSaleDetails := {
  details_sale : FlashSale;
  createdAt : Z;
  productName : option string;
  productDescription : option string;
}.

(** [v || undefined] on a nullable text column. *)
Definition or_undefined (v : option string) : option string :=
  match v with
  | None | Some EmptyString => None
  | Some s => Some s
  end.

Definition check_violation : exn :=
  Error (Some "23514")
    "new row for relation flash_sales violates check constraint flash_sales_remaining_stock_check".

Section SaleQueries.

(** [flash_sales.created_at] by sale id; [products.name] and
    [products.description] by product id ([None] for NULL, or when the join
    finds no product). *)
Variable created_at : Z → Z.
Variable product_name : Z → option string.
Variable product_description : Z → option string.

Definition mapRowToFlashSale (row : Z * FlashSale) : FlashSaleDetails :=
  {| details_sale := row.2;
     createdAt := created_at row.1;
     productName := or_undefined (product_name (sale_productId row.2));
     productDescription := or_undefined (product_description (sale_productId row.2)) |}.

(** [WHERE fs.start_at <= $1 AND fs.end_at >= $1] *)
Definition in_time_window (now : Z) (row : Z * FlashSale) : bool :=
  Z.leb (startAt row.2) now && Z.leb now (endAt row.2).

(** [ORDER BY fs.created_at DESC LIMIT 1].  Among rows created at the same
    instant the server may return any; the model returns the first of them
    in the order of the list. *)
Fixpoint order_by_created_at_desc_limit_1 (rows : list (Z * FlashSale))
  : option (Z * FlashSale) :=
  match rows with
  | [] => None
  | row :: rest =>
      match order_by_created_at_desc_limit_1 rest with
      | Some best =>
          if Z.ltb (created_at row.1) (created_at best.1)
          then Some best else Some row
      | None => Some row
      end
  end.

Definition findActive : M World (option FlashSaleDetails) :=
  now <- new_Date ;;
  λ w,
    (Ok (mapRowToFlashSale
           <$> order_by_created_at_desc_limit_1
                 (filter (λ row, in_time_window now row = true)
                    (map_to_list (flash_sales w)))), w).

Definition findMostRecent : M World (option FlashSaleDetails) :=
  λ w,
    (Ok (mapRowToFlashSale
           <$> order_by_created_at_desc_limit_1 (map_to_list (flash_sales w))), w).

(** The same query as [findActive], with two more log lines. *)
Definition findByTimeWindow : M World (option FlashSaleDetails) :=
  now <- new_Date ;;
  λ w,
    (Ok (mapRowToFlashSale
           <$> order_by_created_at_desc_limit_1
                 (filter (λ row, in_time_window now row = true)
                    (map_to_list (flash_sales w)))), w).

(** [UPDATE flash_sales SET remaining_stock = $1, updated_at = NOW()
    WHERE id = $2]: both parameters are BIGINTs, bound in this order, and
    the column carries the constraint [CHECK (remaining_stock >= 0)]. *)
Definition updateRemainingStock (id remainingStock : Z) : M World unit :=
  λ w,
    match bigint_parameter remainingStock, bigint_parameter id with
    | Some error, _ => (Throw error, w)
    | None, Some error => (Throw error, w)
    | None, None =>
        match flash_sales w !! id with
        | None => (Ok tt, w)
        | Some row =>
            if Z.ltb remainingStock 0 then (Throw check_violation, w)
            else
              (Ok tt,
               set_flash_sales
                 (<[id := {| sale_id := sale_id row;
                             sale_productId := sale_productId row;
                             startAt := startAt row;
                             endAt := endAt row;
                             initialStock := initialStock row;
                             remainingStock := remainingStock |}]>
                    (flash_sales w)) w)
        end
    end.

End SaleQueries.

(** ** [FlashSaleService.getStatus] *)

Module FlashSaleStatus.

Inductive FlashSaleStatus := UPCOMING | ACTIVE | ENDED.

Record FlashSaleStatusResponse := {
  id : option Z;
  status : FlashSaleStatus;
  startTime : Z;
  endTime : Z;
  currentTime : Z;
  productName : option string;
  productDescription : option string;
  productId : option Z;
}.

End FlashSaleStatus.

Section StatusAndStartup.

Variable created_at : Z → Z.
Variable product_name : Z → option string.
Variable product_description : Z → option string.

Local Open Scope p_scope.

Definition getStatus : proc World FlashSaleStatus.FlashSaleStatusResponse :=
  now <- await new_Date ;;
  (* the active flash sale *)
  flashSale <- await (findActive created_at product_name product_description) ;;
  (* if there is none, the most recent one (upcoming or ended) *)
  flashSale <- match flashSale with
               | None =>
                   await (findMostRecent created_at product_name product_description)
               | Some _ => Done (Ok flashSale)
               end ;;
  match flashSale with
  | None =>
      (* no flash sale exists at all *)
      Done (Ok {| FlashSaleStatus.id := None;
                  FlashSaleStatus.status := FlashSaleStatus.ENDED;
                  FlashSaleStatus.startTime := now;
                  FlashSaleStatus.endTime := now;
                  FlashSaleStatus.currentTime := now;
                  FlashSaleStatus.productName := None;
                  FlashSaleStatus.productDescription := None;
                  FlashSaleStatus.productId := None |})
  | Some flashSale =>
      let sale := details_sale flashSale in
      let status :=
        if Z.ltb now (startAt sale) then FlashSaleStatus.UPCOMING
        else if Z.leb (startAt sale) now && Z.leb now (endAt sale)
             then FlashSaleStatus.ACTIVE
             else FlashSaleStatus.ENDED in
      Done (Ok {| FlashSaleStatus.id := Some (sale_id sale);
                  FlashSaleStatus.status := status;
                  FlashSaleStatus.startTime := startAt sale;
                  FlashSaleStatus.endTime := endAt sale;
                  FlashSaleStatus.currentTime := now;
                  FlashSaleStatus.productName := productName flashSale;
                  FlashSaleStatus.productDescription := productDescription flashSale;
                  FlashSaleStatus.productId := Some (sale_productId sale) |})
  end.

(** ** Start-up ([index.ts], [initializeServices])

    The part of [initializeServices] that acts on the stores: the stock
    counter of the sale that is in its time window is initialized unless
    its key exists.  The connection set-up around it (ping, producer
    connect, construction of the services) changes none of the state
    modelled here. *)
Definition initializeServices : proc World unit :=
  flashSaleInWindow <- await (findByTimeWindow created_at product_name
                                product_description) ;;
  match flashSaleInWindow with
  | Some flashSaleInWindow =>
      let productId := string_of_Z (sale_productId (details_sale flashSaleInWindow)) in
      (* never overwrite a counter that is already there *)
      stockKeyExists <- await (on_redis (RedisService.stockKeyExists productId)) ;;
      if negb stockKeyExists then
        await (on_redis (RedisService.initializeStock productId
                           (remainingStock (details_sale flashSaleInWindow))))
      else
        existingStock <- await (on_redis (RedisService.getStock productId)) ;;
        Done (Ok tt)
  | None => Done (Ok tt)
  end.

End StatusAndStartup.

(** ** Kafka consumer ([KafkaConsumer.ts])

    The producer writes an attempt as JSON text and the consumer reads it
    back field by field; on the fields of [FlashSaleAttempt] the two are
    inverse, and a message's value is modelled as the attempt itself.
    [None] is a message without a value. *)

Module KafkaConsumer.

Local Open Scope p_scope.

(** The [eachMessage] callback that [consumeAttempts] installs. *)
Definition eachMessage (onMessage : FlashSaleAttempt → proc World unit)
    (value : option FlashSaleAttempt) : proc World unit :=
  ptry
    (match value with
     | None => Done (Ok tt)
     | Some attempt => onMessage attempt
     end)
    (λ error,
       (* logged; the message is not retried *)
       Done (Ok tt)).

End KafkaConsumer.

(** ** HTTP: requests and responses *)

Module Http.

(** [req.user], attached by the authentication middleware. *)
Record User := { userId : string; username : string }.

(** The JSON bodies the routes send. *)
Inductive Body :=
  | Rejected (error message : string)
      (* { success: false, error, message } *)
  | AttemptResult (success : bool) (message : string)
      (* { success, message } *)
  | SaleStatus (data : FlashSaleStatus.FlashSaleStatusResponse)
      (* { success: true, data } *)
  | OrderStatusOf (productId : Z) (userId : string) (status : string).
      (* { success: true, data: { productId, userId, status } } *)

Record Response := { status : Z; body : Body }.

(** [error.message || fallback] *)
Definition or_default (message fallback : string) : string :=
  match message with
  | EmptyString => fallback
  | _ => message
  end.

Definition unauthorized (message : string) : Response :=
  {| status := 401; body := Rejected "Unauthorized" message |}.

Definition validation_error (message : string) : Response :=
  {| status := 400; body := Rejected "Validation error" message |}.

Definition internal_error (message : string) : Response :=
  {| status := 500; body := Rejected "Internal server error" message |}.

End Http.

(** ** Authentication middleware ([authMiddleware.ts])

    [verifyToken] is the method of [IAuthService]; it checks a signature
    and reads no state.  [next] is the rest of the route. *)

Section AuthMiddleware.

Variable verifyToken : string → outcome Http.User.

Definition createAuthMiddleware (authorization : option string)
    (next : Http.User → proc World Http.Response) : proc World Http.Response :=
  match authorization with
  | Some authHeader =>
      if String.prefix "Bearer " authHeader then
        (* remove the "Bearer " prefix *)
        let token := String.substring 7 (String.length authHeader - 7) authHeader in
        match verifyToken token with
        | Ok decoded => next decoded
        | Throw error =>
            Done (Ok (Http.unauthorized
                        (Http.or_default (message error) "Invalid or expired token")))
        end
      else
        Done (Ok (Http.unauthorized
                    "No token provided. Please include a Bearer token in the Authorization header."))
  | None =>
      Done (Ok (Http.unauthorized
                  "No token provided. Please include a Bearer token in the Authorization header."))
  end.

End AuthMiddleware.

(** ** Routes of the flash sale ([flashSaleRoutes.ts]) *)

Module FlashSaleRoutes.

Section Routes.

Variable toISOString : Z → string.
Variable created_at : Z → Z.
Variable product_name : Z → option string.
Variable product_description : Z → option string.

Local Open Scope p_scope.

(** [GET /status] *)
Definition get_status : proc World Http.Response :=
  ptry
    (status <- getStatus created_at product_name product_description ;;
     Done (Ok {| Http.status := 200; Http.body := Http.SaleStatus status |}))
    (λ error,
       Done (Ok (Http.internal_error
                   (Http.or_default (message error) "Failed to get flash sale status")))).

(** [POST /attempt/:saleId] *)
Definition post_attempt (user : option Http.User) (saleId : string)
  : proc World Http.Response :=
  ptry
    (match user with
     | None =>
         Done (Ok (Http.unauthorized
                     "User authentication required. Please provide a valid token."))
     | Some user =>
         if String.eqb (Http.userId user) "" then
           Done (Ok (Http.unauthorized
                       "User authentication required. Please provide a valid token."))
         else if String.eqb saleId "" then
           Done (Ok (Http.validation_error "saleId parameter is required"))
         else
           match JS.parseInt saleId with
           | None =>
               Done (Ok (Http.validation_error "saleId must be a positive integer"))
           | Some saleIdNum =>
               if Z.leb saleIdNum 0 then
                 Done (Ok (Http.validation_error "saleId must be a positive integer"))
               else
                 let userId := Http.userId user in
                 result <- FlashSaleService.attemptPurchase toISOString userId saleIdNum ;;
                 (* the status code follows the result *)
                 let statusCode :=
                   if FlashSaleService.success result then 200 else 400 in
                 Done (Ok {| Http.status := statusCode;
                             Http.body :=
                               Http.AttemptResult (FlashSaleService.success result)
                                 (FlashSaleService.message result) |})
           end
     end)
    (λ error,
       Done (Ok (Http.internal_error
                   (Http.or_default (message error)
                      "Failed to process purchase attempt")))).

End Routes.

End FlashSaleRoutes.

(** ** Route of the order status ([orderRoutes.ts]) *)

Module OrderRoutes.

Local Open Scope p_scope.

(** [GET /status/:productId] *)
Definition get_status (user : option Http.User) (productId : string)
  : proc World Http.Response :=
  ptry
    (match user with
     | None =>
         Done (Ok (Http.unauthorized
                     "User authentication required. Please provide a valid token."))
     | Some user =>
         if String.eqb (Http.userId user) "" then
           Done (Ok (Http.unauthorized
                       "User authentication required. Please provide a valid token."))
         else if String.eqb productId "" then
           Done (Ok (Http.validation_error "productId parameter is required"))
         else
           match JS.parseInt productId with
           | None =>
               Done (Ok (Http.validation_error "productId must be a positive integer"))
           | Some productIdNum =>
               if Z.leb productIdNum 0 then
                 Done (Ok (Http.validation_error "productId must be a positive integer"))
               else
                 let userId := Http.userId user in
                 let productIdStr := string_of_Z productIdNum in
                 (* flashsale:result:{userId}:{productId} *)
                 result <- await (on_redis (RedisService.getUserResult userId productIdStr)) ;;
                 match result with
                 | None =>
                     Done (Ok {| Http.status := 400;
                                 Http.body :=
                                   Http.Rejected "Bad Request"
                                     "Order status not found. The purchase attempt may not have been processed yet or the key does not exist in Redis." |})
                 | Some result =>
                     let status := if (result : bool) then "SUCCESS" else "FAILED" in
                     Done (Ok {| Http.status := 200;
                                 Http.body :=
                                   Http.OrderStatusOf productIdNum userId status |})
                 end
           end
     end)
    (λ error,
       Done (Ok (Http.internal_error
                   (Http.or_default (message error)
                      "Failed to retrieve order status")))).

End OrderRoutes.

(** ** Vocabulary for the properties of this part *)

(** An id without the separator of the key names. *)
Definition colon_free (s : string) : Prop :=
  ":"%char ∉ list_ascii_of_string s.

(** A store of a product whose keys hold what the layout says. *)
Definition product_wf (s : Redis.server) (productId : string) : Prop :=
  stock_wf s productId ∧ attempted_wf s productId.

(** The Result Cache key of a user and product does not hold a set. *)
Definition result_wf (s : Redis.server) (userId productId : string) : Prop :=
  match Redis.data s !! result_key userId productId with
  | Some (Redis.SetV _) => False
  | _ => True
  end.

(** The [flash_sales] table keyed by its primary key. *)
Definition sales_keyed (w : World) : Prop :=
  ∀ k row, flash_sales w !! k = Some row → sale_id row = k.

(** The pipeline at work: requests of users for one sale and deliveries of
    the topic's messages to the worker, one whole call at a time.  [offset]
    is the number of messages the consumer has been handed. *)
Inductive event :=
  | Request (userId : string)
  | Delivery.

Record Pipeline := { world : World; offset : nat }.

Definition the_worker (value : option FlashSaleAttempt) : proc World unit :=
  KafkaConsumer.eachMessage Worker.processFlashSaleAttempt value.

Definition happen (toISOString : Z → string) (saleId : Z) (e : event) (st : Pipeline)
  : Pipeline :=
  match e with
  | Request u =>
      {| world := (run (FlashSaleService.attemptPurchase toISOString u saleId) (world st)).2;
         offset := offset st |}
  | Delivery =>
      match topic (world st) !! offset st with
      | Some (_, attempt) =>
          {| world := (run (the_worker (Some attempt)) (world st)).2;
             offset := S (offset st) |}
      | None => st
      end
  end.

Fixpoint play (toISOString : Z → string) (saleId : Z) (events : list event)
    (st : Pipeline) : Pipeline :=
  match events with
  | [] => st
  | e :: rest => play toISOString saleId rest (happen toISOString saleId e st)
  end.

(** Commands that write; the others only read. *)
Definition writes (c : Redis.command) : bool :=
  match c with
  | Redis.GET _ | Redis.EXISTS _ | Redis.SISMEMBER _ _ => false
  | _ => true
  end.

(** [m] leaves every key outside [keys] as it found it. *)
Definition changes_only {A} (keys : list string) (m : M Redis.server A) : Prop :=
  ∀ s k, k ∉ keys → Redis.data (m s).2 !! k = Redis.data s !! k.

(** The keys an operation of the Redis client may write. *)
Definition written_keys (op : operation) : list string :=
  match op with
  | AttemptPurchase _ p => [stock_key p; attempted_key p]
  | DecrementStock p | IncrementStock p | RestoreStock p | InitializeStock p _ =>
      [stock_key p]
  | AddUserToAttemptedSet _ p => [attempted_key p]
  | SetUserResult u p _ => [result_key u p]
  | GetStock _ | StockKeyExists _ | IsUserInAttemptedSet _ _
  | GetUserStatus _ _ | GetUserResult _ _ => []
  end.

(** An operation on the world that relates every world to the one it
    leaves. *)
Definition respects (R : World → World → Prop) {B} (op : M World B) : Prop :=
  ∀ w, R w (op w).2.

(** * Properties

    Basic facts first (decimal numerals, key names, string containment),
    then the reservation script, the client's operations and their command
    log, the orchestrator, and the finalizer. *)

#[local] Set Warnings "-clear-no-such-hyp".

(** ** Decimal numerals *)
Arguments string_of_Z : simpl never.
Arguments Z_of_string : simpl never.

Lemma Z_of_string_of_Z z : Z_of_string (string_of_Z z) = Some z.
Proof.
  unfold Z_of_string, string_of_Z.
  rewrite NilZero.isi.
  - simpl. by rewrite DecimalZ.of_to.
  - destruct z; simpl; try discriminate.
    intros [= H]. by apply Unsigned.to_uint_nonnil in H.
  - destruct z; simpl; try discriminate.
    intros [= H]. by apply Unsigned.to_uint_nonnil in H.
Qed.

Lemma digits_prefix_string_of_uint d :
  JS.digits_prefix (NilEmpty.string_of_uint d) = NilEmpty.string_of_uint d.
Proof. induction d; simpl; congruence. Qed.

Lemma string_of_uint_nonempty d :
  d ≠ Decimal.Nil → ∃ c r, NilEmpty.string_of_uint d = String c r
                            ∧ JS.is_digit c = true ∧ JS.is_space c = false
                            ∧ c ≠ "-"%char ∧ c ≠ "+"%char.
Proof. destruct d; [done|..]; intros _; simpl; eexists _, _; split_and!; done. Qed.

Lemma digits_value_string_of_uint d :
  d ≠ Decimal.Nil →
  JS.digits_value (NilEmpty.string_of_uint d) = Some (Z.of_uint d).
Proof.
  intros Hd. unfold JS.digits_value. rewrite digits_prefix_string_of_uint.
  destruct (string_of_uint_nonempty d Hd) as (c & r & E & _).
  destruct (NilEmpty.string_of_uint d) eqn:E'; [done|].
  rewrite <- E'. by rewrite NilEmpty.usu.
Qed.

(** No white space starts with a byte of ASCII other than the six. *)
Lemma skip_spaces_ascii c r :
  JS.is_space c = false → (N_of_ascii c < 128)%N →
  JS.skip_spaces (String c r) = String c r.
Proof.
  intros Hsp Hc.
  assert (Hb : ∀ k, (128 ≤ k)%N → JS.is_byte k c = false).
  { intros k Hk. unfold JS.is_byte. apply N.eqb_neq. lia. }
  cbn [JS.skip_spaces]. rewrite Hsp.
  rewrite (Hb 194%N), (Hb 225%N), (Hb 226%N), (Hb 227%N), (Hb 239%N) by lia.
  cbn [andb orb]. by destruct r as [|c2 [|c3 r3]].
Qed.

Lemma digit_is_ascii c :
  JS.is_digit c = true → JS.is_space c = false ∧ (N_of_ascii c < 128)%N.
Proof.
  destruct c as [[] [] [] [] [] [] [] []]; try discriminate; intros _;
    (split; [reflexivity|vm_compute; reflexivity]).
Qed.

Lemma parseInt_unsigned d :
  d ≠ Decimal.Nil →
  JS.parseInt (NilEmpty.string_of_uint d) = Some (Z.of_uint d).
Proof.
  intros Hd. destruct (string_of_uint_nonempty d Hd) as (c & r & E & Hdig & Hsp & Hm & Hp).
  rewrite <- (digits_value_string_of_uint d Hd).
  unfold JS.parseInt. rewrite E.
  rewrite skip_spaces_ascii by (by apply digit_is_ascii).
  destruct c as [[] [] [] [] [] [] [] []]; try done.
Qed.

Lemma parseInt_string_of_Z n : JS.parseInt (string_of_Z n) = Some n.
Proof.
  unfold string_of_Z. destruct n as [|p|p]; simpl.
  - reflexivity.
  - pose proof (Unsigned.to_uint_nonnil p) as Hp.
    replace (NilZero.string_of_uint (Pos.to_uint p))
      with (NilEmpty.string_of_uint (Pos.to_uint p)) by (by destruct (Pos.to_uint p)).
    rewrite parseInt_unsigned by done.
    unfold Z.of_uint. by rewrite Unsigned.of_to.
  - pose proof (Unsigned.to_uint_nonnil p) as Hp.
    replace (NilZero.string_of_uint (Pos.to_uint p))
      with (NilEmpty.string_of_uint (Pos.to_uint p)) by (by destruct (Pos.to_uint p)).
    unfold JS.parseInt.
    rewrite skip_spaces_ascii by (split || (vm_compute; reflexivity)).
    rewrite digits_value_string_of_uint by done. simpl.
    unfold Z.of_uint. by rewrite Unsigned.of_to.
Qed.

(** Leading white space beyond ASCII: a no-break space (U+00A0), a line
    separator (U+2028) and a byte order mark (U+FEFF) are skipped; a
    zero-width space (U+200B), which is no white space, is not. *)
Example parseInt_skips_unicode_white_space :
  JS.parseInt (String "194" (String "160" "1")) = Some 1
  ∧ JS.parseInt (String "226" (String "128" (String "168" "42"))) = Some 42
  ∧ JS.parseInt (String "239" (String "187" (String "191" " -7"))) = Some (-7)
  ∧ JS.parseInt (String "226" (String "128" (String "139" "1"))) = None.
Proof. split_and!; vm_compute; reflexivity. Qed.

Import Redis.

Lemma integer_of_Some v n :
  integer_of v = Some n →
  v = string_of_Z n ∧ Z_of_string v = Some n ∧ LLONG_MIN ≤ n ≤ LLONG_MAX.
Proof.
  unfold integer_of. destruct (Z_of_string v) as [m|] eqn:E; [|done].
  destruct (bool_decide _ && _ && _) eqn:C; [|done].
  intros [= <-].
  apply andb_prop in C as [C C3]. apply andb_prop in C as [C1 C2].
  apply bool_decide_eq_true in C1. split_and!; [done|done|lia|lia].
Qed.

Lemma integer_of_string_of_Z n :
  LLONG_MIN ≤ n ≤ LLONG_MAX → integer_of (string_of_Z n) = Some n.
Proof.
  intros [H1 H2]. unfold integer_of. rewrite Z_of_string_of_Z.
  rewrite bool_decide_eq_true_2 by done.
  apply Z.leb_le in H1, H2. by rewrite H1, H2.
Qed.

Lemma ttl_is_integer : integer_of (string_of_Z 86400) = Some 86400.
Proof. apply integer_of_string_of_Z. unfold LLONG_MIN, LLONG_MAX. lia. Qed.

(** ** Key names: the three families of keys never collide *)
Lemma stock_attempted_ne p q : stock_key p ≠ attempted_key q.
Proof. unfold stock_key, attempted_key. simpl. intros [=]. Qed.
Lemma stock_result_ne p u q : stock_key p ≠ result_key u q.
Proof. unfold stock_key, result_key. simpl. intros [=]. Qed.
Lemma attempted_result_ne p u q : attempted_key p ≠ result_key u q.
Proof. unfold attempted_key, result_key. simpl. intros [=]. Qed.

(** ** String containment *)
Lemma prefix_app sub post : String.prefix sub (sub +:+ post) = true.
Proof.
  induction sub as [|c sub IH]; simpl; [by destruct post|].
  destruct (Ascii.ascii_dec c c); [done|congruence].
Qed.

Lemma includes_unfold sub s :
  includes sub s =
    String.prefix sub s
    || match s with EmptyString => false | String _ r => includes sub r end.
Proof. by destruct s. Qed.

Lemma includes_app pre sub post : includes sub (pre +:+ (sub +:+ post)) = true.
Proof.
  induction pre as [|c pre IH].
  - change ("" +:+ (sub +:+ post)) with (sub +:+ post).
    rewrite includes_unfold, prefix_app. done.
  - change (String c pre +:+ (sub +:+ post)) with (String c (pre +:+ (sub +:+ post))).
    rewrite includes_unfold, IH. apply orb_true_r.
Qed.

Lemma includes_app_end pre sub : includes sub (pre +:+ sub) = true.
Proof.
  pose proof (includes_app pre sub "") as H.
  replace (sub +:+ "") with sub in H; [done|].
  clear. induction sub as [|c sub IH]; [done|].
  change (String c sub +:+ "") with (String c (sub +:+ "")). congruence.
Qed.

Lemma append_assoc (a b c : string) : (a +:+ b) +:+ c = a +:+ (b +:+ c).
Proof.
  induction a as [|x a IH]; [done|].
  change (String x ((a +:+ b) +:+ c) = String x (a +:+ (b +:+ c))). congruence.
Qed.

(** ** The reservation script

    What [tryReserve] does on a product whose keys hold what the layout
    says, case by case. *)
Import Scripts.

Lemma attemptPurchase_unfold u p :
  RedisService.attemptPurchase u p =
  (result <- RedisService.executeScript (ATTEMPT_PURCHASE_SCRIPT (stock_key p) (attempted_key p) u) ;;
   r0 <- JS.index result 0 ;;
   r1 <- JS.index result 1 ;;
   r2 <- JS.index result 2 ;;
   ret {| RedisService.success := JS.strict_eq_num r0 1;
          RedisService.remainingStock := r1;
          RedisService.wasNewAttempt := JS.strict_eq_num r2 1 |}).
Proof. reflexivity. Qed.

Opaque stock_key attempted_key result_key.

Ltac run_script :=
  unfold RedisService.executeScript, eval, ATTEMPT_PURCHASE_SCRIPT, redis_call, call, bind, ret, throw,
    Lua.le, Lua.lt, Lua.add; simpl.

Lemma AttemptedSet_lookup s p :
  attempted_wf s p →
  data s !! attempted_key p = None ∧ AttemptedSet s p = ∅
  ∨ data s !! attempted_key p = Some (SetV (AttemptedSet s p)).
Proof.
  unfold attempted_wf, AttemptedSet.
  destruct (data s !! attempted_key p) as [[]|]; naive_solver.
Qed.

Lemma tryReserve_attempted u p s A :
  data s !! attempted_key p = Some (SetV A) → u ∈ A → stock_wf s p →
  tryReserve p u s =
    (Ok {| RedisService.success := false; RedisService.remainingStock := JS.JNum (counter_or_zero s p);
           RedisService.wasNewAttempt := false |},
     Server (data s) (log s ++ [SISMEMBER (attempted_key p) u; GET (stock_key p)])).
Proof.
  intros HA Hu Hwf. unfold tryReserve. rewrite attemptPurchase_unfold.
  unfold stock_wf in Hwf. unfold counter_or_zero, StockCounter.
  run_script. rewrite HA. simpl. rewrite bool_decide_eq_true_2 by done. simpl.
  destruct (data s !! stock_key p) as [[v t|]|] eqn:E; simpl; try done.
  - destruct Hwf as [n Hn]. rewrite Hn. apply integer_of_Some in Hn as (-> & Hz & _).
    simpl. rewrite Hz. simpl. by rewrite <- app_assoc.
  - by rewrite <- app_assoc.
Qed.

Lemma tryReserve_out_of_stock u p s :
  attempted_wf s p → u ∉ AttemptedSet s p → stock_wf s p →
  counter_or_zero s p ≤ 0 →
  tryReserve p u s =
    (Ok {| RedisService.success := false; RedisService.remainingStock := JS.JNum (counter_or_zero s p);
           RedisService.wasNewAttempt := true |},
     Server (<[attempted_key p := SetV ({[u]} ∪ AttemptedSet s p)]> (data s))
            (log s ++ [SISMEMBER (attempted_key p) u; GET (stock_key p);
                       SADD (attempted_key p) u])).
Proof.
  intros HA Hu Hwf Hle. unfold tryReserve. rewrite attemptPurchase_unfold.
  unfold stock_wf in Hwf. unfold counter_or_zero, StockCounter in *.
  run_script.
  destruct (AttemptedSet_lookup s p HA) as [[E EA]|E]; rewrite E; simpl.
  - rewrite EA.
    destruct (data s !! stock_key p) as [[v t|]|] eqn:Es; simpl; try done.
    + destruct Hwf as [n Hn]. rewrite Hn in *. apply integer_of_Some in Hn as (-> & Hz & _).
      simpl in *. rewrite Hz. simpl. apply Z.leb_le in Hle. rewrite Hle. simpl.
      rewrite E. simpl. rewrite <- !app_assoc. simpl.
      by rewrite union_empty_r_L.
    + rewrite E. simpl. rewrite <- !app_assoc. simpl.
      by rewrite union_empty_r_L.
  - rewrite bool_decide_eq_false_2 by done. simpl.
    destruct (data s !! stock_key p) as [[v t|]|] eqn:Es; simpl; try done.
    + destruct Hwf as [n Hn]. rewrite Hn in *. apply integer_of_Some in Hn as (-> & Hz & _).
      simpl in *. rewrite Hz. simpl. apply Z.leb_le in Hle. rewrite Hle. simpl.
      rewrite E. simpl.
      by rewrite <- !app_assoc.
    + rewrite E. simpl. by rewrite <- !app_assoc.
Qed.

Lemma tryReserve_granted u p s v t n :
  attempted_wf s p → u ∉ AttemptedSet s p →
  data s !! stock_key p = Some (Str v t) → integer_of v = Some n → 0 < n →
  tryReserve p u s =
    (Ok {| RedisService.success := true; RedisService.remainingStock := JS.JNum (n - 1);
           RedisService.wasNewAttempt := true |},
     Server (<[attempted_key p := SetV ({[u]} ∪ AttemptedSet s p)]>
               (<[stock_key p := Str (string_of_Z (n - 1)) t]> (data s)))
            (log s ++ [SISMEMBER (attempted_key p) u; GET (stock_key p);
                       DECR (stock_key p); SADD (attempted_key p) u])).
Proof.
  intros HA Hu Es Hn Hpos. unfold tryReserve. rewrite attemptPurchase_unfold.
  pose proof (integer_of_Some _ _ Hn) as (-> & Hz & Hmin & Hmax).
  assert (Hne : stock_key p ≠ attempted_key p) by apply stock_attempted_ne.
  assert (Hgt : (n <=? 0) = false) by lia.
  assert (Hr : (LLONG_MIN <=? n + -1) && (n + -1 <=? LLONG_MAX) = true).
  { unfold LLONG_MIN, LLONG_MAX in *. apply andb_true_intro. split; lia. }
  assert (Hlt : (n + -1 <? 0) = false) by lia.
  run_script. unfold incr_by.
  destruct (AttemptedSet_lookup s p HA) as [[E EA]|E]; rewrite E; simpl.
  - rewrite EA, Es. simpl. rewrite Hz. simpl. rewrite Hgt. simpl.
    rewrite Es, Hn, Hr. simpl. rewrite Hlt. simpl.
    rewrite lookup_insert_ne by done. rewrite E. simpl.
    rewrite <- !app_assoc. simpl.
    rewrite union_empty_r_L.
    by replace (n + -1) with (n - 1) by lia.
  - rewrite bool_decide_eq_false_2 by done. simpl.
    rewrite Es. simpl. rewrite Hz. simpl. rewrite Hgt. simpl.
    rewrite Es, Hn, Hr. simpl. rewrite Hlt. simpl.
    rewrite lookup_insert_ne by done. rewrite E. simpl.
    rewrite <- !app_assoc. simpl.
    by replace (n + -1) with (n - 1) by lia.
Qed.

Lemma tryReserve_step u p s :
  attempted_wf s p → stock_wf s p →
  ∃ r s',
    tryReserve p u s = (Ok r, s')
    ∧ attempted_wf s' p ∧ stock_wf s' p
    ∧ AttemptedSet s' p = {[u]} ∪ AttemptedSet s p
    ∧ reservation_of r
      = Some (tryReserve_spec u (counter_or_zero s p, AttemptedSet s p)).1
    ∧ (counter_or_zero s' p, AttemptedSet s' p)
      = (tryReserve_spec u (counter_or_zero s p, AttemptedSet s p)).2
    ∧ (u ∈ AttemptedSet s p →
       RedisService.success r = false ∧ RedisService.wasNewAttempt r = false ∧ data s' = data s)
    ∧ (∀ n, StockCounter s p = Some n →
            StockCounter s' p = Some (n - (if RedisService.success r then 1 else 0))
            ∧ (RedisService.success r = true → 0 < n))
    ∧ (∀ k, k ≠ stock_key p → k ≠ attempted_key p → data s' !! k = data s !! k).
Proof.
  intros HA HS.
  assert (Hne : stock_key p ≠ attempted_key p) by apply stock_attempted_ne.
  destruct (decide (u ∈ AttemptedSet s p)) as [Hin|Hnin].
  - (* step 1: repeat caller *)
    assert (E : data s !! attempted_key p = Some (SetV (AttemptedSet s p))).
    { destruct (AttemptedSet_lookup s p HA) as [[_ EA]|E]; [|done].
      rewrite EA in Hin. set_solver. }
    eexists _, _. split; [by eapply tryReserve_attempted|].
    unfold tryReserve_spec. rewrite bool_decide_eq_true_2 by done.
    split_and!; simpl; try done.
    + set_solver.
    + intros n Hn. rewrite Z.sub_0_r. done.
  - destruct (decide (counter_or_zero s p ≤ 0)) as [Hle|Hgt].
    + (* step 2: out of stock *)
      eexists _, _. split; [by eapply tryReserve_out_of_stock|].
      unfold tryReserve_spec. rewrite bool_decide_eq_false_2 by done.
      assert ((counter_or_zero s p <=? 0) = true) as -> by lia.
      assert (HA' : ∀ (d : gmap string entry) A,
                 match <[attempted_key p:=SetV A]> d !! attempted_key p with
                 | Some (SetV m) => m | _ => ∅ end = A).
      { intros. by rewrite lookup_insert_eq. }
      unfold attempted_wf, stock_wf, AttemptedSet, counter_or_zero, StockCounter in *.
      simpl. rewrite lookup_insert_eq, lookup_insert_ne by done.
      split_and!; try done.
      * intros n Hn. rewrite Z.sub_0_r. done.
      * intros k _ Hk. by rewrite lookup_insert_ne.
    + (* step 4: granted *)
      assert (∃ v t n, data s !! stock_key p = Some (Str v t)
                       ∧ integer_of v = Some n ∧ 0 < n
                       ∧ counter_or_zero s p = n) as (v & t & n & Es & Hn & Hpos & Hc).
      { unfold counter_or_zero, StockCounter, stock_wf in *.
        destruct (data s !! stock_key p) as [[v t|]|]; simpl in *; try lia.
        destruct HS as [n Hn]. rewrite Hn in *. simpl in *.
        exists v, t, n. split_and!; try done. lia. }
      pose proof (integer_of_Some _ _ Hn) as (-> & Hz & Hmin & Hmax).
      assert (Hn1 : integer_of (string_of_Z (n - 1)) = Some (n - 1)).
      { apply integer_of_string_of_Z. unfold LLONG_MIN, LLONG_MAX in *. lia. }
      eexists _, _. split; [by eapply tryReserve_granted|].
      unfold tryReserve_spec. rewrite bool_decide_eq_false_2 by done.
      rewrite Hc.
      assert ((n <=? 0) = false) as -> by lia.
      assert ((n - 1 <? 0) = false) as -> by lia.
      unfold attempted_wf, stock_wf, AttemptedSet, counter_or_zero, StockCounter in *.
      simpl. rewrite lookup_insert_eq, lookup_insert_ne, lookup_insert_eq by done.
      rewrite Hn1. simpl.
      split_and!; try done.
      * intros m Hm. rewrite Es, Hn in Hm. injection Hm as <-. done.
      * intros k Hk1 Hk2. by rewrite !lookup_insert_ne.
Qed.

Lemma tryReserve_granted_inv u p s r s' :
  tryReserve p u s = (Ok r, s') → RedisService.success r = true →
  ∃ v t n,
    data s !! stock_key p = Some (Str v t)
    ∧ integer_of v = Some n ∧ 0 < n
    ∧ (u ∉ AttemptedSet s p)
    ∧ RedisService.wasNewAttempt r = true
    ∧ RedisService.remainingStock r = JS.JNum (n - 1)
    ∧ data s' = <[attempted_key p := SetV ({[u]} ∪ AttemptedSet s p)]>
                  (<[stock_key p := Str (string_of_Z (n - 1)) t]> (data s))
    ∧ log s' = log s ++ [SISMEMBER (attempted_key p) u; GET (stock_key p);
                         DECR (stock_key p); SADD (attempted_key p) u].
Proof.
  assert (Hne : stock_key p ≠ attempted_key p) by apply stock_attempted_ne.
  unfold tryReserve. rewrite attemptPurchase_unfold. run_script.
  unfold AttemptedSet.
  destruct (data s !! attempted_key p) as [[?|A]|] eqn:EA; simpl; [done| |].
  - destruct (bool_decide (u ∈ A)) eqn:Hu; simpl.
    + destruct (data s !! stock_key p) as [[v t|]|] eqn:ES; simpl;
        [by (intros [= <- <-])|done|by (intros [= <- <-])].
    + apply bool_decide_eq_false in Hu.
      destruct (data s !! stock_key p) as [[v t|]|] eqn:ES; simpl; [|done|].
      * destruct (Z_of_string v) as [n|] eqn:Hz; simpl; [|done].
        destruct (n <=? 0) eqn:Hle; simpl.
        -- rewrite EA. simpl. by intros [= <- <-].
        -- unfold incr_by. rewrite ES.
           destruct (integer_of v) as [m|] eqn:Hm; simpl; [|done].
           pose proof (integer_of_Some _ _ Hm) as (_ & Hz' & _).
           assert (m = n) as -> by congruence.
           destruct ((LLONG_MIN <=? n + -1) && (n + -1 <=? LLONG_MAX)); simpl; [|done].
           assert ((n + -1 <? 0) = false) as -> by lia. simpl.
           rewrite lookup_insert_ne by done. rewrite EA. simpl.
           intros [= <- <-] _. simpl.
           exists v, t, n. replace (n + -1) with (n - 1) by lia.
           rewrite <- !app_assoc. split_and!; try done. lia.
      * rewrite EA. simpl. by intros [= <- <-].
  - destruct (data s !! stock_key p) as [[v t|]|] eqn:ES; simpl; [|done|].
    + destruct (Z_of_string v) as [n|] eqn:Hz; simpl; [|done].
      destruct (n <=? 0) eqn:Hle; simpl.
      * rewrite EA. simpl. by intros [= <- <-].
      * unfold incr_by. rewrite ES.
        destruct (integer_of v) as [m|] eqn:Hm; simpl; [|done].
        pose proof (integer_of_Some _ _ Hm) as (_ & Hz' & _).
        assert (m = n) as -> by congruence.
        destruct ((LLONG_MIN <=? n + -1) && (n + -1 <=? LLONG_MAX)); simpl; [|done].
        assert ((n + -1 <? 0) = false) as -> by lia. simpl.
        rewrite lookup_insert_ne by done. rewrite EA. simpl.
        intros [= <- <-] _. simpl.
        exists v, t, n. replace (n + -1) with (n - 1) by lia.
        rewrite <- !app_assoc, union_empty_r_L. split_and!; try done; try lia.
    + rewrite EA. simpl. by intros [= <- <-].
Qed.

(** C3. [tryReserve] implements the four steps of section 4.1.  On a
    product whose keys hold what the layout says and whose counter is
    below 2^53 in size (the counts that the numbers of Lua and of
    JavaScript, through which the count is returned, hold exactly), the
    call returns; what it returns and the counter and set it leaves are
    those of [tryReserve_spec] applied to the counter and set it found; a
    repeat caller changes nothing; and no other key is touched. *)
Theorem tryReserve_implements_spec (productId userId : string) (s : Redis.server) :
  attempted_wf s productId → stock_wf s productId →
  - 2 ^ 53 < counter_or_zero s productId < 2 ^ 53 →
  ∃ r s',
    tryReserve productId userId s = (Ok r, s')
    ∧ reservation_of r
      = Some (tryReserve_spec userId
                (counter_or_zero s productId, AttemptedSet s productId)).1
    ∧ (counter_or_zero s' productId, AttemptedSet s' productId)
      = (tryReserve_spec userId
           (counter_or_zero s productId, AttemptedSet s productId)).2
    ∧ (userId ∈ AttemptedSet s productId → Redis.data s' = Redis.data s)
    ∧ (∀ k, k ≠ stock_key productId → k ≠ attempted_key productId →
            Redis.data s' !! k = Redis.data s !! k).
Proof.
  intros HA HS _.
  destruct (tryReserve_step userId productId s HA HS)
    as (r & s' & E & _ & _ & _ & Hres & Habs & Hrep & _ & Hframe).
  exists r, s'. split_and!; try done. intros Hin. by apply Hrep.
Qed.

Lemma tryReserve_implements_spec_witness :
  attempted_wf store_of_two "1" ∧ stock_wf store_of_two "1"
  ∧ ∃ r s', tryReserve "1" "a" store_of_two = (Ok r, s')
            ∧ reservation_of r
              = Some {| granted := true; remaining := 1; firstAttempt := true |}.
Proof.
  assert (H1 : attempted_wf store_of_two "1") by (vm_compute; exact I).
  assert (H2 : stock_wf store_of_two "1") by (vm_compute; eexists; reflexivity).
  assert (H3 : - 2 ^ 53 < counter_or_zero store_of_two "1" < 2 ^ 53)
    by (vm_compute; split; reflexivity).
  split_and!; [exact H1|exact H2|].
  destruct (tryReserve_implements_spec "1" "a" store_of_two H1 H2 H3)
    as (r & s' & E & Hr & _).
  exists r, s'. split; [exact E|]. rewrite Hr. vm_compute. reflexivity.
Defined.

Lemma reservation_key_stock p c :
  command_key c = stock_key p → reservation_key_only p c.
Proof.
  intros E. split; [by left|]. intros u' p'. rewrite E. apply stock_result_ne.
Qed.

Lemma reservation_key_attempted p c :
  command_key c = attempted_key p → reservation_key_only p c.
Proof.
  intros E. split; [by right|]. intros u' p'. rewrite E. apply attempted_result_ne.
Qed.

Ltac keys_ok :=
  simpl;
  repeat (apply Forall_cons_2;
          [first [by apply reservation_key_stock | by apply reservation_key_attempted]|]);
  apply Forall_nil_2.

(** C10. Frame of a denied reservation.  Whenever the reservation script
    returns [granted = false], the stock key holds exactly what it held
    before (its net change is zero), every key other than the product's
    attempted set is unchanged, the attempted set is unchanged or has
    gained the caller, and every command the script issued addressed the
    product's stock key or attempted set, never a result-cache key. *)
Theorem tryReserve_denied_frame u p s r s' :
  tryReserve p u s = (Ok r, s') → RedisService.success r = false →
  data s' !! stock_key p = data s !! stock_key p
  ∧ (∀ k, k ≠ attempted_key p → data s' !! k = data s !! k)
  ∧ (data s' !! attempted_key p = data s !! attempted_key p
     ∨ data s' !! attempted_key p = Some (SetV ({[u]} ∪ AttemptedSet s p)))
  ∧ ∃ cmds, log s' = log s ++ cmds ∧ Forall (reservation_key_only p) cmds.
Proof.
  assert (Hne : stock_key p ≠ attempted_key p) by apply stock_attempted_ne.
  unfold tryReserve. rewrite attemptPurchase_unfold. run_script.
  unfold AttemptedSet.
  destruct (data s !! attempted_key p) as [[?|A]|] eqn:EA; simpl; [done| |].
  - destruct (bool_decide (u ∈ A)) eqn:Hu; simpl.
    + destruct (data s !! stock_key p) as [[v t|]|] eqn:ES; simpl; [|done|].
      * intros [= <- <-] _. simpl. rewrite EA. split_and!; try done; [by left|].
        eexists. rewrite <- app_assoc. split; [reflexivity|].
        keys_ok.
      * intros [= <- <-] _. simpl. rewrite EA. split_and!; try done; [by left|].
        eexists. rewrite <- app_assoc. split; [reflexivity|].
        keys_ok.
    + destruct (data s !! stock_key p) as [[v t|]|] eqn:ES; simpl; [|done|].
      * destruct (Z_of_string v) as [n|] eqn:Hz; simpl; [|done].
        destruct (n <=? 0) eqn:Hle; simpl.
        -- rewrite EA. simpl. intros [= <- <-] _. simpl.
           rewrite lookup_insert_eq, lookup_insert_ne by done.
           split_and!; try done; [by intros; rewrite lookup_insert_ne|by right|].
           eexists. rewrite <- !app_assoc. split; [reflexivity|].
           keys_ok.
        -- unfold incr_by. rewrite ES.
           destruct (integer_of v) as [m|] eqn:Hm; simpl; [|done].
           apply integer_of_Some in Hm as (_ & Hz' & _).
           assert (m = n) as -> by congruence.
           destruct ((LLONG_MIN <=? n + -1) && (n + -1 <=? LLONG_MAX)); simpl; [|done].
           assert ((n + -1 <? 0) = false) as -> by lia. simpl.
           rewrite lookup_insert_ne by done. rewrite EA. simpl.
           intros [= <- <-]. done.
      * rewrite EA. simpl. intros [= <- <-] _. simpl.
        rewrite lookup_insert_eq, lookup_insert_ne by done.
        split_and!; try done; [by intros; rewrite lookup_insert_ne|by right|].
        eexists. rewrite <- !app_assoc. split; [reflexivity|].
        keys_ok.
  - destruct (data s !! stock_key p) as [[v t|]|] eqn:ES; simpl; [|done|].
    + destruct (Z_of_string v) as [n|] eqn:Hz; simpl; [|done].
      destruct (n <=? 0) eqn:Hle; simpl.
      * rewrite EA. simpl. intros [= <- <-] _. simpl.
        rewrite lookup_insert_eq, lookup_insert_ne by done.
        rewrite union_empty_r_L.
        split_and!; try done; [by intros; rewrite lookup_insert_ne|by right|].
        eexists. rewrite <- !app_assoc. split; [reflexivity|].
        keys_ok.
      * unfold incr_by. rewrite ES.
        destruct (integer_of v) as [m|] eqn:Hm; simpl; [|done].
        apply integer_of_Some in Hm as (_ & Hz' & _).
        assert (m = n) as -> by congruence.
        destruct ((LLONG_MIN <=? n + -1) && (n + -1 <=? LLONG_MAX)); simpl; [|done].
        assert ((n + -1 <? 0) = false) as -> by lia. simpl.
        rewrite lookup_insert_ne by done. rewrite EA. simpl.
        intros [= <- <-]. done.
    + rewrite EA. simpl. intros [= <- <-] _. simpl.
      rewrite lookup_insert_eq, lookup_insert_ne by done.
      rewrite union_empty_r_L.
      split_and!; try done; [by intros; rewrite lookup_insert_ne|by right|].
      eexists. rewrite <- !app_assoc. split; [reflexivity|].
      keys_ok.
Qed.

Lemma tryReserve_denied_frame_witness :
  ∃ r s',
    tryReserve "1" "a" sold_out_store = (Ok r, s')
    ∧ RedisService.success r = false
    ∧ Redis.data s' !! stock_key "1" = Redis.data sold_out_store !! stock_key "1".
Proof.
  eexists _, _.
  assert (H1 : tryReserve "1" "a" sold_out_store
               = (Ok {| RedisService.success := false;
                        RedisService.remainingStock := JS.JNum 0;
                        RedisService.wasNewAttempt := true |},
                  (tryReserve "1" "a" sold_out_store).2))
    by (vm_compute; reflexivity).
  split_and!; [exact H1|reflexivity|].
  exact (proj1 (tryReserve_denied_frame "a" "1" sold_out_store _ _ H1 eq_refl)).
Defined.

(** ** Sequences of reservations *)
Lemma reserve_all_cons p u users s :
  reserve_all p (u :: users) s =
    let '(r, s1) := tryReserve p u s in
    let '(rs, s2) := reserve_all p users s1 in (r :: rs, s2).
Proof. reflexivity. Qed.

Lemma reserve_all_app p l1 : ∀ l2 s,
  reserve_all p (l1 ++ l2) s =
    let '(rs1, s1) := reserve_all p l1 s in
    let '(rs2, s2) := reserve_all p l2 s1 in (rs1 ++ rs2, s2).
Proof.
  induction l1 as [|u l1 IH]; intros l2 s; simpl.
  - by destruct (reserve_all p l2 s).
  - destruct (tryReserve p u s) as [r s1]. rewrite IH.
    destruct (reserve_all p l1 s1) as [rs1 s2].
    by destruct (reserve_all p l2 s2).
Qed.

Lemma reserve_all_inv p users : ∀ s N,
  StockCounter s p = Some N → 0 ≤ N → attempted_wf s p →
  ∃ rs s',
    reserve_all p users s = (rs, s')
    ∧ Forall returned rs
    ∧ length rs = length users
    ∧ 0 ≤ grants rs ≤ N
    ∧ StockCounter s' p = Some (N - grants rs)
    ∧ attempted_wf s' p
    ∧ AttemptedSet s' p = list_to_set users ∪ AttemptedSet s p.
Proof.
  induction users as [|u users IH]; intros s N HN H0 HA.
  - exists [], s. simpl. rewrite Z.sub_0_r. split_and!; try done; try lia. set_solver.
  - assert (HS : stock_wf s p).
    { unfold stock_wf, StockCounter in *.
      destruct (data s !! stock_key p) as [[]|]; try done. }
    destruct (tryReserve_step u p s HA HS)
      as (r & s1 & E & HA1 & HS1 & HSet & _ & _ & _ & HC & _).
    destruct (HC N HN) as [HN1 Hpos].
    destruct (IH s1 (N - (if RedisService.success r then 1 else 0)) HN1) as
      (rs & s2 & E2 & Hret & Hlen & Hg & HN2 & HA2 & HSet2); [|done|].
    { destruct (RedisService.success r); [specialize (Hpos eq_refl)|]; lia. }
    exists (Ok r :: rs), s2. rewrite reserve_all_cons, E, E2. simpl.
    split_and!; try done.
    + by constructor.
    + by rewrite Hlen.
    + destruct (RedisService.success r); lia.
    + destruct (RedisService.success r); lia.
    + rewrite HN2. f_equal. lia.
    + rewrite HSet2, HSet. set_solver.
Qed.

Lemma grants_fresh p users : ∀ s N,
  StockCounter s p = Some N → 0 ≤ N → attempted_wf s p →
  NoDup users → (∀ u, u ∈ users → u ∉ AttemptedSet s p) →
  grants (reserve_all p users s).1 = Z.min N (Z.of_nat (length users)).
Proof.
  induction users as [|u users IH]; intros s N HN H0 HA Hnd Hfresh.
  - simpl. lia.
  - assert (HS : stock_wf s p).
    { unfold stock_wf, StockCounter in *.
      destruct (data s !! stock_key p) as [[]|]; try done. }
    destruct (tryReserve_step u p s HA HS)
      as (r & s1 & E & HA1 & HS1 & HSet & Hres & _ & _ & HC & _).
    destruct (HC N HN) as [HN1 Hpos].
    apply NoDup_cons in Hnd as [Hu Hnd].
    assert (Hnin : u ∉ AttemptedSet s p) by (apply Hfresh; set_solver).
    assert (Hsucc : RedisService.success r = bool_decide (0 < N)).
    { unfold tryReserve_spec, reservation_of, counter_or_zero in Hres.
      rewrite HN in Hres. simpl in Hres.
      rewrite bool_decide_eq_false_2 in Hres by done.
      destruct (RedisService.remainingStock r); try done.
      destruct (decide (0 < N)).
      - rewrite bool_decide_eq_true_2 by done.
        assert ((N <=? 0) = false) as Hx by lia. rewrite Hx in Hres.
        assert ((N - 1 <? 0) = false) as Hy by lia. rewrite Hy in Hres.
        simpl in Hres. by injection Hres as -> _ _.
      - rewrite bool_decide_eq_false_2 by done.
        assert ((N <=? 0) = true) as Hx by lia. rewrite Hx in Hres.
        simpl in Hres. by injection Hres as -> _ _. }
    rewrite reserve_all_cons, E.
    specialize (IH s1 _ HN1).
    destruct (reserve_all p users s1) as [rs s2] eqn:E2. simpl in *.
    rewrite Hsucc in *.
    rewrite IH; try done.
    + case_bool_decide; lia.
    + case_bool_decide; lia.
    + intros u' Hu'. rewrite HSet. 
      assert (u' ≠ u) by (intros ->; done).
      specialize (Hfresh u'). set_solver.
Qed.

Lemma reserve_all_wf p users : ∀ s,
  attempted_wf s p → stock_wf s p →
  ∃ rs s',
    reserve_all p users s = (rs, s')
    ∧ Forall returned rs
    ∧ length rs = length users
    ∧ attempted_wf s' p ∧ stock_wf s' p
    ∧ AttemptedSet s' p = list_to_set users ∪ AttemptedSet s p.
Proof.
  induction users as [|u users IH]; intros s HA HS.
  - exists [], s. simpl. split_and!; try done. set_solver.
  - destruct (tryReserve_step u p s HA HS)
      as (r & s1 & E & HA1 & HS1 & HSet & _).
    destruct (IH s1 HA1 HS1) as (rs & s2 & E2 & Hret & Hlen & HA2 & HS2 & HSet2).
    exists (Ok r :: rs), s2. rewrite reserve_all_cons, E, E2. simpl.
    split_and!; try done.
    + by constructor.
    + by rewrite Hlen.
    + rewrite HSet2, HSet. set_solver.
Qed.

Lemma repeat_caller p u users : ∀ s j,
  attempted_wf s p → stock_wf s p → u ∈ AttemptedSet s p →
  users !! j = Some u →
  ∃ r, (reserve_all p users s).1 !! j = Some (Ok r)
       ∧ RedisService.wasNewAttempt r = false ∧ RedisService.success r = false.
Proof.
  induction users as [|u' users IH]; intros s j HA HS Hin Hj; [done|].
  destruct (tryReserve_step u' p s HA HS)
    as (r & s1 & E & HA1 & HS1 & HSet & _ & _ & Hrep & _).
  rewrite reserve_all_cons, E.
  destruct (reserve_all p users s1) as [rs s2] eqn:E2. simpl.
  destruct j as [|j]; simpl in *.
  - injection Hj as ->. exists r. destruct (Hrep Hin) as (? & ? & _). done.
  - specialize (IH s1 j HA1 HS1). rewrite E2 in IH. simpl in IH.
    apply IH; [|done]. rewrite HSet. set_solver.
Qed.

(** C1. No overselling.  From a StockCounter holding [N >= 0], along any
    sequence of [tryReserve] calls on the product (the server runs the
    scripts one at a time): every call returns, at most [N] of them are
    granted, and after every prefix of the sequence the counter is at
    least 0.  When the callers are distinct and have not attempted before,
    exactly [min N (number of calls)] are granted. *)
Theorem no_overselling (productId : string) (N : Z) (users : list string)
    (s : Redis.server) :
  0 ≤ N →
  StockCounter s productId = Some N →
  attempted_wf s productId →
  Forall returned (reserve_all productId users s).1
  ∧ grants (reserve_all productId users s).1 ≤ N
  ∧ (∀ k, ∃ n, StockCounter (reserve_all productId (take k users) s).2 productId
               = Some n ∧ 0 ≤ n)
  ∧ (NoDup users →
     (∀ u, u ∈ users → u ∉ AttemptedSet s productId) →
     grants (reserve_all productId users s).1 = Z.min N (Z.of_nat (length users))).
Proof.
  intros H0 HN HA.
  destruct (reserve_all_inv productId users s N HN H0 HA)
    as (rs & s' & E & Hret & _ & Hg & _).
  rewrite E. simpl. split_and!; [done|lia| |].
  - intros k.
    destruct (reserve_all_inv productId (take k users) s N HN H0 HA)
      as (rs1 & s1 & E1 & _ & _ & Hg1 & HN1 & _).
    rewrite E1. simpl. exists (N - grants rs1). split; [done|lia].
  - intros Hnd Hfresh.
    pose proof (grants_fresh productId users s N HN H0 HA Hnd Hfresh) as Hx.
    by rewrite E in Hx.
Qed.

Lemma no_overselling_witness :
  0 ≤ 2
  ∧ StockCounter store_of_two "1" = Some 2
  ∧ attempted_wf store_of_two "1"
  ∧ grants (reserve_all "1" ["a"; "b"; "c"] store_of_two).1 ≤ 2.
Proof.
  assert (H0 : 0 ≤ 2) by lia.
  assert (H1 : StockCounter store_of_two "1" = Some 2) by (vm_compute; reflexivity).
  assert (H2 : attempted_wf store_of_two "1") by (vm_compute; exact I).
  split_and!; [exact H0|exact H1|exact H2|].
  exact (proj1 (proj2 (no_overselling "1" 2 ["a"; "b"; "c"] store_of_two H0 H1 H2))).
Defined.

(** C2. At most one grant per user.  Along any sequence of [tryReserve]
    calls on a product whose keys hold what the layout says: a call by a
    user who has called before returns [firstAttempt = false] and
    [granted = false]; hence no user is granted twice; and once a user's
    call has completed the user is in the AttemptedSet, whatever the
    outcome. *)
Theorem at_most_one_grant_per_user (productId u : string) (users : list string)
    (s : Redis.server) :
  attempted_wf s productId → stock_wf s productId →
  (∀ i j, (i < j)%nat → users !! i = Some u → users !! j = Some u →
     ∃ r, (reserve_all productId users s).1 !! j = Some (Ok r)
          ∧ RedisService.wasNewAttempt r = false
          ∧ RedisService.success r = false)
  ∧ (∀ i j ri rj,
       users !! i = Some u → users !! j = Some u →
       (reserve_all productId users s).1 !! i = Some ri →
       (reserve_all productId users s).1 !! j = Some rj →
       is_granted ri = true → is_granted rj = true → i = j)
  ∧ (∀ i, users !! i = Some u →
       u ∈ AttemptedSet (reserve_all productId (take (S i) users) s).2 productId).
Proof.
  intros HA HS.
  assert (Hafter : ∀ i, users !! i = Some u →
            u ∈ AttemptedSet (reserve_all productId (take (S i) users) s).2 productId
            ∧ attempted_wf (reserve_all productId (take (S i) users) s).2 productId
            ∧ stock_wf (reserve_all productId (take (S i) users) s).2 productId).
  { intros i Hi.
    destruct (reserve_all_wf productId (take (S i) users) s HA HS)
      as (rs & s1 & E & _ & _ & HA1 & HS1 & HSet).
    rewrite E. simpl. split_and!; try done. rewrite HSet.
    apply elem_of_union_l, elem_of_list_to_set.
    rewrite (take_S_r _ _ _ Hi). set_solver. }
  assert (Hrep : ∀ i j, (i < j)%nat → users !! i = Some u → users !! j = Some u →
     ∃ r, (reserve_all productId users s).1 !! j = Some (Ok r)
          ∧ RedisService.wasNewAttempt r = false
          ∧ RedisService.success r = false).
  { intros i j Hij Hi Hj.
    destruct (Hafter i Hi) as (Hin & HA1 & HS1).
    assert (Hsplit : reserve_all productId users s
                     = reserve_all productId (take (S i) users ++ drop (S i) users) s)
      by (by rewrite take_drop).
    rewrite Hsplit, reserve_all_app. clear Hsplit.
    destruct (reserve_all_wf productId (take (S i) users) s HA HS)
      as (rs1 & s1 & E1 & _ & Hlen1 & _).
    rewrite E1 in *. simpl in *.
    assert (Hj' : drop (S i) users !! (j - S i)%nat = Some u).
    { rewrite lookup_drop. rewrite <- Hj. f_equal. lia. }
    destruct (repeat_caller productId u (drop (S i) users) s1 _ HA1 HS1 Hin Hj')
      as (r & Hr & Hr1 & Hr2).
    destruct (reserve_all productId (drop (S i) users) s1) as [rs2 s2]. simpl in *.
    exists r. split; [|done].
    assert (Hl : length rs1 = S i).
    { rewrite Hlen1, length_take. apply lookup_lt_Some in Hi. lia. }
    rewrite lookup_app_r by lia. rewrite Hl. done. }
  split_and!; [done| |by intros i Hi; apply Hafter].
  intros i j ri rj Hi Hj Hri Hrj Gi Gj.
  destruct (Nat.lt_trichotomy i j) as [Hlt|[->|Hlt]]; [|done|].
  - destruct (Hrep i j Hlt Hi Hj) as (r & Hr & _ & Hs).
    rewrite Hr in Hrj. injection Hrj as <-. simpl in Gj. congruence.
  - destruct (Hrep j i Hlt Hj Hi) as (r & Hr & _ & Hs).
    rewrite Hr in Hri. injection Hri as <-. simpl in Gi. congruence.
Qed.

Lemma at_most_one_grant_per_user_witness :
  attempted_wf store_of_two "1" ∧ stock_wf store_of_two "1"
  ∧ "a" ∈ AttemptedSet (reserve_all "1" (take 1 ["a"; "b"; "a"]) store_of_two).2 "1".
Proof.
  assert (H1 : attempted_wf store_of_two "1") by (vm_compute; exact I).
  assert (H2 : stock_wf store_of_two "1") by (vm_compute; eexists; reflexivity).
  split_and!; [exact H1|exact H2|].
  exact (proj2 (proj2 (at_most_one_grant_per_user "1" "a" ["a"; "b"; "a"]
                         store_of_two H1 H2)) 0%nat eq_refl).
Defined.

(** ** The client's operations, run *)
Arguments on_redis : simpl never.
Arguments RedisService.attemptPurchase : simpl never.
Arguments RedisService.stockKeyExists : simpl never.
Arguments RedisService.initializeStock : simpl never.
Arguments RedisService.getUserStatus : simpl never.
Arguments RedisService.setUserResult : simpl never.
Arguments RedisService.restoreStock : simpl never.
Arguments RedisService.getStock : simpl never.
Arguments PurchaseAttemptRepository.create : simpl never.
Arguments KafkaProducer.sendAttempt : simpl never.
Arguments OrderRepository.create : simpl never.
Arguments OrderRepository.findByUserId : simpl never.
Arguments JS.parseInt : simpl never.
Arguments String.append : simpl never.

Lemma stockKeyExists_run p s :
  RedisService.stockKeyExists p s =
    (Ok (bool_decide (is_Some (data s !! stock_key p))),
     Server (data s) (log s ++ [EXISTS (stock_key p)])).
Proof.
  unfold RedisService.stockKeyExists, RedisService.client, call, bind, ret. simpl.
  change ("flashsale:stock:" +:+ p) with (stock_key p).
  by destruct (data s !! stock_key p) eqn:E.
Qed.

Lemma initializeStock_run p n s :
  RedisService.initializeStock p n s =
    (Ok tt,
     Server (<[stock_key p := Str (string_of_Z n) None]> (data s))
            (log s ++ [SET (stock_key p) (string_of_Z n)])).
Proof.
  unfold RedisService.initializeStock, RedisService.executeScript, eval, INITIALIZE_STOCK_SCRIPT,
    as_argument, redis_call, call, bind, ret. simpl.
  by rewrite Z_of_string_of_Z.
Qed.

Lemma setUserResult_run u p b s :
  RedisService.setUserResult u p b s =
    (Ok tt,
     Server (<[result_key u p := Str (if b then "1" else "0") (Some 86400)]> (data s))
            (log s ++ [SETEX (result_key u p) 86400 (if b then "1" else "0")])).
Proof.
  unfold RedisService.setUserResult, RedisService.executeScript, eval, SET_USER_RESULT_SCRIPT.
  rewrite ttl_is_integer.
  unfold redis_call, call, bind, ret. simpl. done.
Qed.

Lemma restoreStock_run p s v t n :
  data s !! stock_key p = Some (Str v t) → integer_of v = Some n → n < LLONG_MAX →
  RedisService.restoreStock p s =
    (Ok (JS.JNum (n + 1)),
     Server (<[stock_key p := Str (string_of_Z (n + 1)) t]> (data s))
            (log s ++ [GET (stock_key p); INCR (stock_key p)])).
Proof.
  intros E Hn Hmax.
  pose proof (integer_of_Some _ _ Hn) as (_ & _ & Hmin & _).
  unfold RedisService.restoreStock, RedisService.executeScript, eval, RESTORE_STOCK_SCRIPT,
    redis_call, call, bind, ret. simpl.
  change ("flashsale:stock:" +:+ p) with (stock_key p).
  unfold incr_by. rewrite E. simpl. rewrite E, Hn.
  assert ((LLONG_MIN <=? n + 1) && (n + 1 <=? LLONG_MAX) = true) as ->.
  { apply andb_true_intro. split; lia. }
  simpl. by rewrite <- app_assoc.
Qed.

(** What [RedisService.getUserStatus] reports: [RedisService.hasResult] is true whether or not the
    result key exists. *)
Lemma getUserStatus_run u p s :
  attempted_wf s p →
  (match data s !! result_key u p with Some (SetV _) => False | _ => True end) →
  RedisService.getUserStatus u p s =
    (Ok {| RedisService.hasAttempted := bool_decide (u ∈ AttemptedSet s p);
           RedisService.hasResult := true;
           RedisService.result := Some (match ResultCache s u p with
                           | Some (v, _) =>
                               match Z_of_string v with
                               | Some n => n =? 1
                               | None => false
                               end
                           | None => false
                           end) |},
     Server (data s) (log s ++ [SISMEMBER (attempted_key p) u; GET (result_key u p)])).
Proof.
  intros HA HR.
  unfold RedisService.getUserStatus, RedisService.executeScript, eval, GET_USER_STATUS_SCRIPT,
    redis_call, call, bind, ret. simpl.
  change ("flashsale:attempted:" +:+ p) with (attempted_key p).
  change ("flashsale:result:" +:+ u +:+ ":" +:+ p) with (result_key u p).
  unfold ResultCache.
  destruct (AttemptedSet_lookup s p HA) as [[E EA]|E]; rewrite E; simpl.
  - rewrite EA. rewrite bool_decide_eq_false_2 by set_solver.
    destruct (data s !! result_key u p) as [[v t|]|] eqn:ER; simpl; try done.
    + destruct (Z_of_string v) as [n|]; simpl; by rewrite <- app_assoc.
    + by rewrite <- app_assoc.
  - destruct (data s !! result_key u p) as [[v t|]|] eqn:ER; simpl; try done.
    + destruct (Z_of_string v) as [n|]; simpl;
        destruct (bool_decide (u ∈ AttemptedSet s p)); simpl; by rewrite <- app_assoc.
    + destruct (bool_decide (u ∈ AttemptedSet s p)); simpl; by rewrite <- app_assoc.
Qed.

Lemma getStock_run p s :
  match data s !! stock_key p with
  | None => True
  | Some (Str v _) => is_Some (integer_of v)
  | Some (SetV _) => False
  end →
  RedisService.getStock p s =
    (Ok (Some (counter_or_zero s p)),
     Server (data s) (log s ++ [GET (stock_key p)])).
Proof.
  unfold RedisService.getStock, RedisService.client, call, bind, ret. simpl.
  change ("flashsale:stock:" +:+ p) with (stock_key p).
  unfold counter_or_zero, StockCounter.
  destruct (data s !! stock_key p) as [[v t|]|]; simpl; try done.
  intros [n Hn]. rewrite Hn. apply integer_of_Some in Hn as (-> & _).
  simpl. rewrite parseInt_string_of_Z.
  destruct (string_of_Z n) eqn:E; [|done].
  pose proof (Z_of_string_of_Z n) as H. by rewrite E in H.
Qed.

(** ** The command log

    [issues P m] is closed under the constructs of the monad, so that what
    an operation may send to the server is read off its definition. *)
Lemma issues_ret {A} P (a : A) : issues P (ret a).
Proof. intros s. exists []. by rewrite app_nil_r. Qed.

Lemma issues_throw {A} P e : issues P (@throw _ A e).
Proof. intros s. exists []. by rewrite app_nil_r. Qed.

Lemma issues_bind {A B} P (m : M server A) (k : A → M server B) :
  issues P m → (∀ a, issues P (k a)) → issues P (bind m k).
Proof.
  intros Hm Hk s. unfold bind. destruct (Hm s) as (c1 & E1 & F1).
  destruct (m s) as [[a|e] s1]; simpl in *.
  - destruct (Hk a s1) as (c2 & E2 & F2). exists (c1 ++ c2).
    rewrite E2, E1, app_assoc. split; [done|]. by apply Forall_app.
  - by exists c1.
Qed.

Lemma issues_bind_ret {A B} P (a : A) (k : A → M server B) :
  issues P (k a) → issues P (bind (ret a) k).
Proof. done. Qed.

Lemma issues_call P c : P c → issues P (call c).
Proof.
  intros Hc s. unfold call. destruct (exec c (data s)) as [r db]. simpl.
  exists [c]. split; [done|]. by constructor.
Qed.

Lemma issues_executeScript P script :
  issues P script → issues P (RedisService.executeScript script).
Proof.
  intros H. unfold RedisService.executeScript, eval.
  repeat (apply issues_bind; [|intros; try apply issues_ret]). done.
Qed.

Lemma issues_index P v i : issues P (@JS.index server v i).
Proof. destruct v; simpl; (apply issues_ret || apply issues_throw). Qed.

Lemma issues_le P a b : issues P (@Lua.le server a b).
Proof. destruct a, b; simpl; (apply issues_ret || apply issues_throw). Qed.

Lemma issues_lt P a b : issues P (@Lua.lt server a b).
Proof. destruct a, b; simpl; (apply issues_ret || apply issues_throw). Qed.

Lemma issues_add P a b : issues P (@Lua.add server a b).
Proof.
  unfold Lua.add. destruct (Lua.tonumber a), (Lua.tonumber b);
    (apply issues_ret || apply issues_throw).
Qed.

Lemma issues_weaken {A} (P Q : command → Prop) (m : M server A) :
  (∀ c, P c → Q c) → issues P m → issues Q m.
Proof.
  intros HPQ Hm s. destruct (Hm s) as (cmds & E & F). exists cmds.
  split; [done|]. eapply Forall_impl; eauto.
Qed.

Ltac issues_steps :=
  repeat first
    [ apply issues_ret | apply issues_throw | apply issues_index
    | apply issues_le | apply issues_lt | apply issues_add
    | apply issues_executeScript
    | apply issues_bind_ret
    | apply issues_call
    | apply issues_bind; [|intros ?]
    | match goal with
      | |- issues _ (if ?b then _ else _) => destruct b
      | |- issues _ (match ?x with _ => _ end) => destruct x
      | |- issues _ (let _ := _ in _) => cbv zeta
      end ].

Lemma layout_stock u p c :
  match c with
  | GET k | INCR k | DECR k | EXISTS k => k = stock_key p
  | _ => False
  end → layout u p c.
Proof. destruct c; simpl; try done. by left. Qed.

Lemma operations_follow_layout (op : operation) :
  issues (layout (operation_user op) (operation_product op)) (perform op).
Proof.
  destruct op; simpl;
    unfold RedisService.attemptPurchase, RedisService.decrementStock,
      RedisService.incrementStock, RedisService.restoreStock,
      RedisService.getStock, RedisService.stockKeyExists,
      RedisService.initializeStock, RedisService.addUserToAttemptedSet,
      RedisService.isUserInAttemptedSet, RedisService.getUserStatus,
      RedisService.setUserResult, RedisService.getUserResult,
      RedisService.client, redis_call,
      ATTEMPT_PURCHASE_SCRIPT, GET_USER_STATUS_SCRIPT, SET_USER_RESULT_SCRIPT,
      INITIALIZE_STOCK_SCRIPT, RESTORE_STOCK_SCRIPT, as_argument;
    try (unfold Lua.tonumber at 1; rewrite Z_of_string_of_Z);
    try rewrite ttl_is_integer;
    issues_steps.
  all: try (by apply layout_stock).
  all: try (by split).
  all: try (by right; eexists). 
  - split; [done|]. by eexists.
  - split_and!; [by eexists|done|]. destruct success; [by left|by right].
Qed.

Lemma issues_any (op : operation) : issues (λ _, True) (perform op).
Proof. eapply issues_weaken; [|apply operations_follow_layout]. done. Qed.

Lemma issues_perform_bind {A} (m : M server A) P :
  issues P (m ;;; ret tt) → issues P m.
Proof.
  intros H s. destruct (H s) as (cmds & E & F). exists cmds. split; [|done].
  unfold bind, ret in E. by destruct (m s) as [[a|e] s1].
Qed.

Lemma starts_with_bind {A B} c (m : M server A) (k : A → M server B) :
  starts_with c m → (∀ a, issues (λ _, True) (k a)) → starts_with c (bind m k).
Proof.
  intros Hm Hk s. unfold bind. destruct (Hm s) as (r1 & E1).
  destruct (m s) as [[a|e] s1]; simpl in *.
  - destruct (Hk a s1) as (c2 & E2 & _). exists (r1 ++ c2).
    by rewrite E2, E1, <- app_assoc.
  - by exists r1.
Qed.

Lemma starts_with_redis_call c : starts_with c (redis_call c).
Proof.
  intros s. unfold redis_call, call, bind, ret.
  destruct (exec c (data s)) as [[r|e] db]; by exists [].
Qed.

Lemma attemptPurchase_log_head u p :
  starts_with (SISMEMBER (attempted_key p) u) (RedisService.attemptPurchase u p).
Proof.
  rewrite attemptPurchase_unfold.
  apply starts_with_bind; [|intros; issues_steps].
  unfold RedisService.executeScript, eval.
  apply starts_with_bind; [|intros; issues_steps].
  apply starts_with_bind; [|intros; issues_steps].
  unfold ATTEMPT_PURCHASE_SCRIPT.
  apply starts_with_bind; [apply starts_with_redis_call|].
  intros. unfold redis_call. issues_steps; done.
Qed.

(** What an operation sends first, and next: a prefix of the commands it
    logs. *)
Lemma prefix_bind {A B} (m : M server A) (k : A → M server B) s l :
  (∃ rest, log (m s).2 = log s ++ l ++ rest) →
  (∀ a, issues (λ _, True) (k a)) →
  ∃ rest, log (bind m k s).2 = log s ++ l ++ rest.
Proof.
  intros [r1 E1] Hk. unfold bind.
  destruct (m s) as [[a|e] s1]; simpl in *.
  - destruct (Hk a s1) as (c2 & E2 & _). exists (r1 ++ c2).
    by rewrite E2, E1, <- !app_assoc.
  - by exists r1.
Qed.

Lemma log_bind_pure {A B} (m : M server A) (k : A → M server B) s :
  (∀ a s1, log (k a s1).2 = log s1) → log (bind m k s).2 = log (m s).2.
Proof. intros Hk. unfold bind. destruct (m s) as [[a|e] s1]; simpl; [apply Hk|done]. Qed.

Lemma log_client c s : log (RedisService.client c s).2 = log s ++ [c].
Proof.
  unfold RedisService.client, call, bind, ret.
  by destruct (exec c (data s)) as [[r|e] db].
Qed.

Lemma attemptPurchase_reads_stock u p s :
  attempted_wf s p →
  ∃ rest, log (RedisService.attemptPurchase u p s).2
          = log s ++ [SISMEMBER (attempted_key p) u; GET (stock_key p)] ++ rest.
Proof.
  intros HA. rewrite attemptPurchase_unfold.
  apply prefix_bind; [|intros; issues_steps].
  unfold RedisService.executeScript, eval.
  apply prefix_bind; [|intros; issues_steps].
  apply prefix_bind; [|intros; issues_steps].
  unfold ATTEMPT_PURCHASE_SCRIPT.
  assert (Hnext : ∀ (k : Lua.value → M server Lua.value) s1,
            (∀ a, issues (λ _, True) (k a)) →
            log s1 = log s ++ [SISMEMBER (attempted_key p) u] →
            ∃ rest, log (bind (redis_call (GET (stock_key p))) k s1).2
                    = log s ++ [SISMEMBER (attempted_key p) u; GET (stock_key p)] ++ rest).
  { intros k s1 Hk E1.
    destruct (starts_with_bind (GET (stock_key p)) (redis_call (GET (stock_key p))) k
                (starts_with_redis_call _) Hk s1) as [rest E].
    exists rest. rewrite E, E1. by rewrite <- app_assoc. }
  unfold attempted_wf in HA.
  unfold bind at 1. unfold redis_call at 1, call at 1, bind at 1, ret at 1. cbn [exec].
  destruct (data s !! attempted_key p) as [[v t|m]|]; [done|..]; cbn.
  1: destruct (bool_decide (u ∈ m)); cbn.
  all: apply Hnext; [|done].
  all: intros; unfold redis_call; issues_steps; done.
Qed.

(** C9. Key-space layout.  Every operation of the Redis client sends its
    commands to the keys of section 6, and every command it sends follows
    the layout: counter commands address "flashsale:stock:{productId}" and
    write integer strings, set commands address
    "flashsale:attempted:{productId}" with the user id as member, and the
    result cache is read by GET and written by SETEX at
    "flashsale:result:{userId}:{productId}" with "1" or "0" and a TTL of
    86400 seconds.  The commands are named operation by operation: the
    single command of the seven plain methods and of the two writing
    scripts, and for the three scripts that may stop at an error the
    command they start with and the one that follows on keys of the right
    kind.  What the two writers store:
    [setUserResult] leaves "1" for success and "0" for failure with TTL
    86400, and [initializeStock] leaves the decimal numeral of the stock
    (for a count below 2^53 in size, which JavaScript and Lua pass on as it
    is). *)
Theorem key_space_layout (op : operation) (s : Redis.server) :
  match op with
  | InitializeStock _ n => - 2 ^ 53 < n < 2 ^ 53
  | _ => True
  end →
  stock_key (operation_product op) = "flashsale:stock:" +:+ operation_product op
  ∧ attempted_key (operation_product op)
    = "flashsale:attempted:" +:+ operation_product op
  ∧ (∃ cmds, Redis.log (perform op s).2 = Redis.log s ++ cmds
             ∧ Forall (layout (operation_user op) (operation_product op)) cmds
             ∧ match op with
               | AttemptPurchase u p =>
                   ∃ rest, cmds = Redis.SISMEMBER (attempted_key p) u :: rest
                           ∧ (attempted_wf s p →
                              ∃ rest', rest = Redis.GET (stock_key p) :: rest')
               | DecrementStock p => cmds = [Redis.DECR (stock_key p)]
               | IncrementStock p => cmds = [Redis.INCR (stock_key p)]
               | RestoreStock p =>
                   ∃ rest, cmds = Redis.GET (stock_key p) :: rest
                           ∧ (stock_wf s p → rest = [Redis.INCR (stock_key p)])
               | GetStock p => cmds = [Redis.GET (stock_key p)]
               | StockKeyExists p => cmds = [Redis.EXISTS (stock_key p)]
               | InitializeStock p n =>
                   cmds = [Redis.SET (stock_key p) (string_of_Z n)]
               | AddUserToAttemptedSet u p => cmds = [Redis.SADD (attempted_key p) u]
               | IsUserInAttemptedSet u p =>
                   cmds = [Redis.SISMEMBER (attempted_key p) u]
               | GetUserStatus u p =>
                   ∃ rest, cmds = Redis.SISMEMBER (attempted_key p) u :: rest
                           ∧ (attempted_wf s p → rest = [Redis.GET (result_key u p)])
               | SetUserResult u p b =>
                   cmds = [Redis.SETEX (result_key u p) 86400 (if b then "1" else "0")]
               | GetUserResult u p => cmds = [Redis.GET (result_key u p)]
               end)
  ∧ match op with
    | SetUserResult u p b =>
        result_key u p = "flashsale:result:" +:+ u +:+ ":" +:+ p
        ∧ Redis.data (perform op s).2 !! result_key u p
          = Some (Redis.Str (if b then "1" else "0") (Some 86400))
    | InitializeStock p n =>
        Redis.data (perform op s).2 !! stock_key p
        = Some (Redis.Str (string_of_Z n) None)
    | _ => True
    end.
Proof.
  intros _.
  split_and!; [done|done| |].
  - destruct (operations_follow_layout op s) as (cmds & E & F).
    exists cmds. split_and!; [done|done|].
    assert (Hone : ∀ c, log (perform op s).2 = log s ++ [c] → cmds = [c]).
    { intros c Ec. rewrite Ec in E. by apply app_inv_head in E. }
    assert (Hpure : ∀ {A} (a : A) (s1 : server), log (ret a s1).2 = log s1) by done.
    destruct op as [u p|p|p|p|p|p|p n|u p|u p|u p|u p b|u p]; cbn [perform] in *.
    + (* attemptPurchase *)
      rewrite log_bind_pure in E by done.
      destruct (attemptPurchase_log_head u p s) as [rest Eh].
      rewrite Eh in E. apply app_inv_head in E. subst cmds.
      exists rest. split; [done|]. intros HA.
      destruct (attemptPurchase_reads_stock u p s HA) as [rest' E2].
      rewrite Eh in E2. apply app_inv_head in E2. cbn in E2.
      injection E2 as ->. by eexists.
    + apply Hone. rewrite log_bind_pure by done.
      unfold RedisService.decrementStock. apply log_client.
    + apply Hone. rewrite log_bind_pure by done.
      unfold RedisService.incrementStock. apply log_client.
    + (* restoreStock *)
      rewrite log_bind_pure in E by done.
      revert E. unfold RedisService.restoreStock, RedisService.executeScript, eval,
        RESTORE_STOCK_SCRIPT, redis_call, call, bind, ret, stock_wf. cbn.
      change ("flashsale:stock:" +:+ p) with (stock_key p).
      destruct (data s !! stock_key p) as [[v t|m]|] eqn:Ek; cbn.
      * unfold incr_by. rewrite Ek.
        destruct (integer_of v) as [n|]; cbn;
          [destruct ((LLONG_MIN <=? n + 1) && (n + 1 <=? LLONG_MAX)); cbn|];
          rewrite <- app_assoc; intros E; apply app_inv_head in E; subst cmds;
          by eexists.
      * intros E. apply app_inv_head in E. subst cmds. eexists. split; [done|].
        done.
      * unfold incr_by. rewrite Ek. cbn.
        rewrite <- app_assoc; intros E; apply app_inv_head in E; subst cmds;
          by eexists.
    + apply Hone. rewrite log_bind_pure by done.
      unfold RedisService.getStock. rewrite log_bind_pure by done. apply log_client.
    + apply Hone. rewrite log_bind_pure by done.
      by rewrite stockKeyExists_run.
    + apply Hone. by rewrite initializeStock_run.
    + apply Hone. rewrite log_bind_pure by done.
      unfold RedisService.addUserToAttemptedSet. rewrite log_bind_pure by done.
      apply log_client.
    + apply Hone. rewrite log_bind_pure by done.
      unfold RedisService.isUserInAttemptedSet. rewrite log_bind_pure by done.
      apply log_client.
    + (* getUserStatus *)
      rewrite log_bind_pure in E by done.
      revert E. unfold RedisService.getUserStatus, RedisService.executeScript, eval,
        GET_USER_STATUS_SCRIPT, redis_call, call, bind, ret, attempted_wf. cbn.
      change ("flashsale:attempted:" +:+ p) with (attempted_key p).
      change ("flashsale:result:" +:+ u +:+ ":" +:+ p)
        with (result_key u p).
      destruct (data s !! attempted_key p) as [[v t|m]|]; cbn.
      * intros E. apply app_inv_head in E. subst cmds. by eexists.
      * destruct (data s !! result_key u p) as [[v t|m']|]; cbn;
          repeat case_match; cbn;
          rewrite <- app_assoc; intros E; apply app_inv_head in E; subst cmds;
          by eexists.
      * destruct (data s !! result_key u p) as [[v t|m']|]; cbn;
          repeat case_match; cbn;
          rewrite <- app_assoc; intros E; apply app_inv_head in E; subst cmds;
          by eexists.
    + apply Hone. by rewrite setUserResult_run.
    + apply Hone. rewrite log_bind_pure by done.
      unfold RedisService.getUserResult. rewrite log_bind_pure by done.
      apply log_client.
  - destruct op; try done; cbn.
    + rewrite initializeStock_run. cbn. by rewrite lookup_insert_eq.
    + split; [done|]. rewrite setUserResult_run. cbn. by rewrite lookup_insert_eq.
Qed.

Lemma key_space_layout_witness :
  ∃ cmds,
    Redis.log (perform (InitializeStock "1" 2) sold_out_store).2
    = Redis.log sold_out_store ++ cmds
    ∧ cmds = [Redis.SET (stock_key "1") "2"].
Proof.
  assert (H : - 2 ^ 53 < 2 < 2 ^ 53) by (split; reflexivity).
  destruct (key_space_layout (InitializeStock "1" 2) sold_out_store H)
    as (_ & _ & (cmds & E & _ & Hc) & _).
  exists cmds. split; [exact E|exact Hc].
Defined.

(** ** The orchestrator *)
Lemma on_redis_eq {A} (m : M server A) w r s :
  m (redis w) = (r, s) → on_redis m w = (r, set_redis s w).
Proof. intros E. unfold on_redis. by rewrite E. Qed.

Lemma ensure_stock_eq sale w :
  ensure_stock sale w =
    set_redis
      (match data (redis w) !! stock_key (string_of_Z (sale_productId sale)) with
       | Some _ =>
           Server (data (redis w))
             (log (redis w) ++ [EXISTS (stock_key (string_of_Z (sale_productId sale)))])
       | None =>
           Server (<[stock_key (string_of_Z (sale_productId sale))
                     := Str (string_of_Z (remainingStock sale)) None]> (data (redis w)))
                  (log (redis w)
                     ++ [EXISTS (stock_key (string_of_Z (sale_productId sale)));
                         SET (stock_key (string_of_Z (sale_productId sale)))
                             (string_of_Z (remainingStock sale))])
       end) w.
Proof.
  unfold ensure_stock, on_redis. rewrite stockKeyExists_run.
  destruct (data (redis w) !! stock_key _) eqn:E; simpl; [done|].
  rewrite initializeStock_run. simpl. by rewrite <- app_assoc.
Qed.

Lemma audit_create_run attempt w :
  ∃ rows, PurchaseAttemptRepository.create attempt w
          = (Ok tt, set_purchase_attempts rows w).
Proof.
  unfold PurchaseAttemptRepository.create, PurchaseAttemptRepository.insert,
    try_catch, ret.
  assert (Hid : (Ok tt, w) = (Ok tt, set_purchase_attempts (purchase_attempts w) w)).
  { by destruct w. }
  destruct (saleId attempt) as [[|c sid]|]; try (by eexists).
  destruct (JS.parseInt (userId attempt)) as [user|]; try (by eexists).
  destruct (JS.parseInt (String c sid)) as [sale|]; try (by eexists).
  destruct (bigint_parameter user); try (by eexists).
  destruct (flash_sales w !! _); by eexists.
Qed.

Lemma appends_on_redis {A} (m : M server A) :
  issues (λ _, True) m → appends_to_log (on_redis m).
Proof.
  intros H w. destruct (H (redis w)) as (cmds & E & _).
  unfold on_redis. destruct (m (redis w)) as [r s]. by exists cmds.
Qed.

Lemma appends_keeps_redis {B} (op : M World B) :
  (∀ w, redis (op w).2 = redis w) → appends_to_log op.
Proof. intros H w. exists []. by rewrite H, app_nil_r. Qed.

Lemma run_appends {A} (p : proc World A) :
  every_step (@appends_to_log) p →
  ∀ w, ∃ cmds, log (redis (run p w).2) = log (redis w) ++ cmds.
Proof.
  induction p as [r|B op k IH]; intros Hp w; simpl.
  - exists []. by rewrite app_nil_r.
  - destruct Hp as [Hop Hk]. destruct (Hop w) as (c1 & E1).
    destruct (op w) as [b w1]. simpl in E1.
    destruct (IH b (Hk b) w1) as (c2 & E2). exists (c1 ++ c2).
    by rewrite E2, E1, app_assoc.
Qed.

Lemma appends_attemptPurchase u p : appends_to_log (on_redis (RedisService.attemptPurchase u p)).
Proof. apply appends_on_redis, issues_perform_bind, (issues_any (AttemptPurchase u p)). Qed.
Lemma appends_getUserStatus u p : appends_to_log (on_redis (RedisService.getUserStatus u p)).
Proof. apply appends_on_redis, issues_perform_bind, (issues_any (GetUserStatus u p)). Qed.
Lemma appends_setUserResult u p b : appends_to_log (on_redis (RedisService.setUserResult u p b)).
Proof. apply appends_on_redis, (issues_any (SetUserResult u p b)). Qed.
Lemma appends_restoreStock p : appends_to_log (on_redis (RedisService.restoreStock p)).
Proof. apply appends_on_redis, issues_perform_bind, (issues_any (RestoreStock p)). Qed.
Lemma appends_getStock p : appends_to_log (on_redis (RedisService.getStock p)).
Proof. apply appends_on_redis, issues_perform_bind, (issues_any (GetStock p)). Qed.
Lemma appends_new_Date : appends_to_log new_Date.
Proof. by apply appends_keeps_redis. Qed.
Lemma appends_audit a : appends_to_log (PurchaseAttemptRepository.create a).
Proof.
  apply appends_keeps_redis. intros w.
  destruct (audit_create_run a w) as [rows ->]. done.
Qed.
Lemma appends_sendAttempt a : appends_to_log (KafkaProducer.sendAttempt a).
Proof.
  apply appends_keeps_redis. intros w. unfold KafkaProducer.sendAttempt.
  by destruct (kafka_available w).
Qed.

Ltac appends_steps :=
  repeat first
    [ apply appends_attemptPurchase | apply appends_getUserStatus
    | apply appends_setUserResult | apply appends_restoreStock
    | apply appends_getStock | apply appends_new_Date
    | apply appends_audit | apply appends_sendAttempt
    | exact I
    | split
    | intros ?
    | progress cbn
    | match goal with
      | |- every_step _ (if ?b then _ else _) => destruct b
      | |- every_step _ (match ?x with _ => _ end) => destruct x
      | |- every_step _ (ptry (match ?x with _ => _ end) _) => destruct x
      | |- every_step _ (pbind (match ?x with _ => _ end) _) => destruct x
      | |- every_step _ (pbind (ptry (match ?x with _ => _ end) _) _) => destruct x
      end ].

Section Orchestrator.

Variable toISOString : Z → string.

Lemma in_bigint n : LLONG_MIN ≤ n ≤ LLONG_MAX → bigint_parameter n = None.
Proof.
  intros [H1 H2]. unfold bigint_parameter.
  assert (LLONG_MAX < 10 ^ 21) by (vm_compute; reflexivity).
  assert (- 10 ^ 21 < LLONG_MIN) by (vm_compute; reflexivity).
  assert ((10 ^ 21 <=? Z.abs n) = false) as -> by lia.
  assert ((n <? LLONG_MIN) = false) as -> by lia.
  assert ((LLONG_MAX <? n) = false) as -> by lia. done.
Qed.

Lemma out_of_bigint n :
  ¬ LLONG_MIN ≤ n ≤ LLONG_MAX → is_Some (bigint_parameter n).
Proof.
  intros Hn. unfold bigint_parameter.
  destruct (10 ^ 21 <=? Z.abs n); [by eexists|].
  assert ((n <? LLONG_MIN) || (LLONG_MAX <? n) = true) as ->; [|by eexists].
  apply orb_true_iff. lia.
Qed.

Lemma gate_rejected userId saleId w :
  flash_sales w !! saleId = None → ¬ LLONG_MIN ≤ saleId ≤ LLONG_MAX →
  ∃ error,
    run (FlashSaleService.attemptPurchase toISOString userId saleId) w
    = (Throw error, w).
Proof.
  intros E H. destruct (out_of_bigint _ H) as [e He]. exists e.
  unfold FlashSaleService.attemptPurchase, FlashSaleRepository.findById.
  simpl. by rewrite E, He.
Qed.

Lemma gate_not_found userId saleId w :
  flash_sales w !! saleId = None → LLONG_MIN ≤ saleId ≤ LLONG_MAX →
  run (FlashSaleService.attemptPurchase toISOString userId saleId) w =
    (Ok {| FlashSaleService.success := false;
           FlashSaleService.message := "Flash sale with ID " +:+ string_of_Z saleId +:+ " not found." |}, w).
Proof.
  intros E H. unfold FlashSaleService.attemptPurchase, FlashSaleRepository.findById.
  simpl. by rewrite E, (in_bigint _ H).
Qed.

Lemma gate_not_started userId saleId w sale :
  flash_sales w !! saleId = Some sale → clock w < startAt sale →
  run (FlashSaleService.attemptPurchase toISOString userId saleId) w =
    (Ok {| FlashSaleService.success := false;
           FlashSaleService.message := "Flash sale is not yet active. Start time: "
                      +:+ toISOString (startAt sale) |}, w).
Proof.
  intros E H. unfold FlashSaleService.attemptPurchase, FlashSaleRepository.findById. simpl. rewrite E. simpl.
  assert ((clock w <? startAt sale) = true) as -> by lia. done.
Qed.

Lemma gate_ended userId saleId w sale :
  flash_sales w !! saleId = Some sale →
  startAt sale ≤ clock w → endAt sale < clock w →
  run (FlashSaleService.attemptPurchase toISOString userId saleId) w =
    (Ok {| FlashSaleService.success := false;
           FlashSaleService.message := "Flash sale has ended. End time: "
                      +:+ toISOString (endAt sale) |}, w).
Proof.
  intros E H1 H2. unfold FlashSaleService.attemptPurchase, FlashSaleRepository.findById. simpl. rewrite E. simpl.
  assert ((clock w <? startAt sale) = false) as -> by lia.
  assert ((endAt sale <? clock w) = true) as -> by lia. done.
Qed.

Lemma in_window_reaches_reservation userId saleId w sale :
  flash_sales w !! saleId = Some sale →
  startAt sale ≤ clock w ≤ endAt sale →
  ∃ rest,
    log (redis (run (FlashSaleService.attemptPurchase toISOString userId saleId) w).2)
    = log (redis (ensure_stock sale w))
      ++ SISMEMBER (attempted_key (string_of_Z (sale_productId sale))) userId :: rest.
Proof.
  intros E [H1 H2].
  set (p := string_of_Z (sale_productId sale)) in *.
  destruct (attemptPurchase_log_head userId p (redis (ensure_stock sale w)))
    as (r1 & Hhead).
  unfold FlashSaleService.attemptPurchase, FlashSaleRepository.findById. cbn. rewrite E. cbn.
  assert ((clock w <? startAt sale) = false) as -> by lia.
  assert ((endAt sale <? clock w) = false) as -> by lia.
  cbn. rewrite (on_redis_eq _ _ _ _ (stockKeyExists_run _ _)).
  rewrite ensure_stock_eq in *. fold p in Hhead |- *.
  assert (Hgo : ∀ W (k : outcome RedisService.AttemptPurchaseResult
                         → proc World FlashSaleService.Response),
    (∀ b, every_step (@appends_to_log) (k b)) →
    (∃ r1, log (RedisService.attemptPurchase userId p (redis W)).2
           = log (redis W) ++ SISMEMBER (attempted_key p) userId :: r1) →
    ∃ rest,
      log (redis (let '(b, w') := on_redis (RedisService.attemptPurchase userId p) W
                  in run (k b) w').2)
      = log (redis W) ++ SISMEMBER (attempted_key p) userId :: rest).
  { intros W k Hk [r Hr]. unfold on_redis.
    destruct (RedisService.attemptPurchase userId p (redis W)) as [b s2].
    simpl in Hr. destruct (run_appends (k b) (Hk b) (set_redis s2 W)) as (c2 & E2).
    exists (r ++ c2). rewrite E2. simpl. rewrite Hr. by rewrite <- app_assoc. }
  destruct (data (redis w) !! stock_key p) eqn:Ek; cbn.
  - apply Hgo; [|by eexists]. intros b. appends_steps.
  - rewrite (on_redis_eq _ _ _ _ (initializeStock_run _ _ _)). cbn.
    rewrite <- app_assoc. cbn.
    apply Hgo; [|by eexists]. intros b. appends_steps.
Qed.




Lemma repeat_attempt userId saleId w sale :
  flash_sales w !! saleId = Some sale →
  startAt sale ≤ clock w ≤ endAt sale →
  attempted_wf (redis (ensure_stock sale w)) (string_of_Z (sale_productId sale)) →
  stock_wf (redis (ensure_stock sale w)) (string_of_Z (sale_productId sale)) →
  userId ∈ AttemptedSet (redis (ensure_stock sale w)) (string_of_Z (sale_productId sale)) →
  match data (redis (ensure_stock sale w))
          !! result_key userId (string_of_Z (sale_productId sale)) with
  | Some (SetV _) => False
  | _ => True
  end →
  ∃ w',
    run (FlashSaleService.attemptPurchase toISOString userId saleId) w =
      (Ok (settled
             match ResultCache (redis (ensure_stock sale w)) userId
                     (string_of_Z (sale_productId sale)) with
             | Some (v, _) =>
                 match Z_of_string v with Some n => n =? 1 | None => false end
             | None => false
             end), w')
    ∧ data (redis w') = data (redis (ensure_stock sale w))
    ∧ topic w' = topic w.
Proof.
  intros E [H1 H2] HA HS Hin HR.
  set (p := string_of_Z (sale_productId sale)) in *.
  set (w1 := ensure_stock sale w) in *.
  assert (EA : data (redis w1) !! attempted_key p
               = Some (SetV (AttemptedSet (redis w1) p))).
  { destruct (AttemptedSet_lookup _ _ HA) as [[_ EA]|EA]; [|done].
    rewrite EA in Hin. set_solver. }
  pose proof (tryReserve_attempted userId p (redis w1) _ EA Hin HS) as Hres.
  assert (Hstatus := getUserStatus_run userId p
            (Server (data (redis w1))
               (log (redis w1) ++ [SISMEMBER (attempted_key p) userId;
                                   GET (stock_key p)]))).
  specialize (Hstatus HA HR).
  unfold FlashSaleService.attemptPurchase, FlashSaleRepository.findById. cbn. rewrite E. cbn.
  assert ((clock w <? startAt sale) = false) as -> by lia.
  assert ((endAt sale <? clock w) = false) as -> by lia.
  cbn. rewrite (on_redis_eq _ _ _ _ (stockKeyExists_run _ _)).
  subst w1. rewrite ensure_stock_eq in *. unfold tryReserve in Hres.
  fold p in Hres, Hstatus |- *.
  destruct (data (redis w) !! stock_key p) eqn:Ek; cbn.
  - erewrite on_redis_eq by exact Hres. cbn.
    erewrite on_redis_eq by exact Hstatus. cbn.
    eexists. split; [reflexivity|]. done.
  - rewrite (on_redis_eq _ _ _ _ (initializeStock_run _ _ _)). cbn.
    rewrite <- app_assoc. cbn.
    erewrite on_redis_eq by exact Hres. cbn.
    erewrite on_redis_eq by exact Hstatus. cbn.
    eexists. split; [reflexivity|]. done.
Qed.

(** C4, what the code does.  For a call inside the sale window by a user
    who is already in the AttemptedSet and has no Result Cache entry, the
    orchestrator returns [success = false] with the settled message
    "Your purchase attempt was unsuccessful." (not the pending message),
    and leaves the store's data as it was before [tryReserve]. *)
Theorem repeat_attempt_without_result userId saleId w sale :
  flash_sales w !! saleId = Some sale →
  startAt sale ≤ clock w ≤ endAt sale →
  attempted_wf (redis (ensure_stock sale w)) (string_of_Z (sale_productId sale)) →
  stock_wf (redis (ensure_stock sale w)) (string_of_Z (sale_productId sale)) →
  userId ∈ AttemptedSet (redis (ensure_stock sale w)) (string_of_Z (sale_productId sale)) →
  data (redis (ensure_stock sale w))
    !! result_key userId (string_of_Z (sale_productId sale)) = None →
  ∃ w',
    run (FlashSaleService.attemptPurchase toISOString userId saleId) w =
      (Ok {| FlashSaleService.success := false;
             FlashSaleService.message := "Your purchase attempt was unsuccessful." |},
       w')
    ∧ data (redis w') = data (redis (ensure_stock sale w)).
Proof.
  intros E Hw HA HS Hin HR.
  destruct (repeat_attempt userId saleId w sale E Hw HA HS Hin) as (w' & Hrun & Hd & _).
  { by rewrite HR. }
  exists w'. split; [|done]. rewrite Hrun. unfold ResultCache. by rewrite HR.
Qed.

End Orchestrator.


(** A sale whose bounds are in the wrong order.  At instant 150 the sale
    [inverted_sale] is over ([endAt] is 100) and has not begun ([startAt] is
    200).  The first check of [attemptPurchase] answers: the message names
    the start time and does not contain the end time.  Instants are
    rendered as decimal numbers here. *)
Example ended_before_started :
  endAt inverted_sale < clock (inverted_world 150)
  ∧ run (FlashSaleService.attemptPurchase string_of_Z "7" 1) (inverted_world 150)
    = (Ok {| FlashSaleService.success := false;
             FlashSaleService.message :=
               "Flash sale is not yet active. Start time: 200" |},
       inverted_world 150)
  ∧ includes (string_of_Z (endAt inverted_sale))
      "Flash sale is not yet active. Start time: 200" = false.
Proof. split_and!; [reflexivity|vm_compute; reflexivity..]. Qed.




(** The scenario of section 8: a user calls [attemptPurchase] twice in a
    row before finalization.  The second call finds no result entry and
    answers with the settled failure message. *)
Lemma repeat_attempt_without_result_witness :
  ResultCache (redis after_first_attempt) "7" "1" = None
  ∧ "7" ∈ AttemptedSet (redis after_first_attempt) "1"
  ∧ ∃ w',
      run (FlashSaleService.attemptPurchase string_of_Z "7" 1) after_first_attempt
      = (Ok {| FlashSaleService.success := false;
               FlashSaleService.message := "Your purchase attempt was unsuccessful." |},
         w').
Proof.
  assert (H0 : ResultCache (redis after_first_attempt) "7" "1" = None)
    by (vm_compute; reflexivity).
  assert (H1 : flash_sales after_first_attempt !! 1 = Some sample_sale)
    by (vm_compute; reflexivity).
  assert (H2 : startAt sample_sale ≤ clock after_first_attempt ≤ endAt sample_sale)
    by (vm_compute; split; discriminate).
  assert (H3 : attempted_wf (redis (ensure_stock sample_sale after_first_attempt))
                 (string_of_Z (sale_productId sample_sale)))
    by (vm_compute; exact I).
  assert (H4 : stock_wf (redis (ensure_stock sample_sale after_first_attempt))
                 (string_of_Z (sale_productId sample_sale)))
    by (vm_compute; eexists; reflexivity).
  assert (H5 : "7" ∈ AttemptedSet (redis (ensure_stock sample_sale after_first_attempt))
                 (string_of_Z (sale_productId sample_sale)))
    by (vm_compute; reflexivity).
  assert (H6 : Redis.data (redis (ensure_stock sample_sale after_first_attempt))
                 !! result_key "7" (string_of_Z (sale_productId sample_sale)) = None)
    by (vm_compute; reflexivity).
  split_and!; [exact H0|vm_compute; reflexivity|].
  destruct (repeat_attempt_without_result string_of_Z "7" 1 _ _ H1 H2 H3 H4 H5 H6)
    as (w' & Hrun & _).
  exists w'. exact Hrun.
Defined.

(** ** The finalizer

    The argument is by invariant: every step of every instance keeps
    [finalizer_inv], takes a [finalizer_step], and preserves what the other
    instances know; an instance only finishes once the cache reflects the
    user's order. *)
Lemma find_app_Some {A} (f : A → bool) l1 l2 x :
  find f l1 = Some x → find f (l1 ++ l2) = Some x.
Proof.
  induction l1 as [|a l1 IH]; simpl; [done|]. destruct (f a); [done|apply IH].
Qed.

Lemma find_app_None {A} (f : A → bool) l1 l2 :
  find f l1 = None → find f (l1 ++ l2) = find f l2.
Proof.
  induction l1 as [|a l1 IH]; simpl; [done|]. destruct (f a); [done|apply IH].
Qed.

Lemma find_existsb {A} (f : A → bool) l :
  existsb f l = match find f l with Some _ => true | None => false end.
Proof.
  induction l as [|a l IH]; simpl; [done|]. destruct (f a); [done|apply IH].
Qed.

Lemma filter_find_None {A} (f : A → bool) l :
  find f l = None → List.filter f l = [].
Proof.
  induction l as [|a l IH]; simpl; [done|]. destruct (f a); [done|apply IH].
Qed.

Lemma filter_find_Some {A} (f : A → bool) l x :
  find f l = Some x → (1 ≤ length (List.filter f l))%nat.
Proof.
  induction l as [|a l IH]; simpl; [done|].
  destruct (f a); simpl; [lia|apply IH].
Qed.

Section Finalization.

Variables (attempt : FlashSaleAttempt) (sid : string) (sale product user : Z).
Hypothesis Hsid : saleId attempt = Some sid.
Hypothesis Hsale : JS.parseInt sid = Some sale.
Hypothesis Hsale0 : sale ≠ 0.
Hypothesis Huser : JS.parseInt (userId attempt) = Some user.
Hypothesis Hproduct : JS.parseInt (productId attempt) = Some product.

Lemma finalizer_step_refl w : finalizer_step attempt sale user w w.
Proof. unfold finalizer_step. split_and!; try done. by left. Qed.

Lemma finalizer_step_order w w' row :
  finalizer_step attempt sale user w w' →
  order_of sale user w = Some row → order_of sale user w' = Some row.
Proof.
  intros (Ho & _) H. unfold order_of in *.
  destruct Ho as [->|(Hnone & _)]; [done|congruence].
Qed.

Lemma knows_stable kn w w' :
  finalizer_step attempt sale user w w' →
  knows attempt sale user kn w → knows attempt sale user kn w'.
Proof.
  intros Hstep. destruct kn; simpl; try done.
  - intros [row H]. exists row. by eapply finalizer_step_order.
  - intros (row & H & Hb). exists row. split; [|done]. by eapply finalizer_step_order.
  - by apply Hstep.
Qed.

Lemma finalizer_step_inv w w' :
  finalizer_step attempt sale user w w' →
  finalizer_inv attempt sale product user w →
  finalizer_inv attempt sale product user w'.
Proof.
  intros (Ho & Hf & Hp & Hs & _) (Hu & Hfs & Hpr & Hst).
  unfold finalizer_inv. rewrite Hf, Hp, Hs. split_and!; try done.
  unfold order_rows in *. destruct Ho as [->|(Hnone & row & -> & Hk & _)]; [done|].
  unfold order_of in Hnone. rewrite List.filter_app, length_app.
  rewrite (filter_find_None _ _ Hnone). simpl. rewrite Hk. simpl. lia.
Qed.

Lemma at_most_one_new_order_step w0 w w' :
  at_most_one_new_order sale user w0 w →
  finalizer_step attempt sale user w w' →
  at_most_one_new_order sale user w0 w'.
Proof.
  intros H (Ho & _). unfold at_most_one_new_order, order_of in *.
  destruct Ho as [->|(Hnone & row & -> & Hk & Hst)]; [done|].
  destruct H as [E|(Hn0 & row0 & E & Hk0 & _)].
  - right. rewrite E in *. split; [done|]. by exists row.
  - exfalso. rewrite E in Hnone.
    rewrite (find_app_None _ _ _ Hn0) in Hnone. simpl in Hnone.
    by rewrite Hk0 in Hnone.
Qed.

Lemma find_step w :
  OrderRepository.findByUserId (userId attempt) (Some sale) w
  = (Ok (OrderRepository.of_row <$> order_of sale user w), w).
Proof. unfold OrderRepository.findByUserId. by rewrite Huser. Qed.

Lemma write_step b w :
  knows attempt sale user (WillWrite b) w →
  ∃ w', on_redis (RedisService.setUserResult (userId attempt) (productId attempt) b) w
        = (Ok tt, w')
        ∧ finalizer_step attempt sale user w w'
        ∧ cache_reflects_order attempt sale user w'.
Proof.
  intros (row & Hrow & Hb).
  rewrite (on_redis_eq _ _ _ _ (setUserResult_run _ _ _ _)).
  eexists. split; [done|].
  assert (Hc : cache_reflects_order attempt sale user
                 (set_redis
                    {| data := <[result_key (userId attempt) (productId attempt)
                                 := Str (if b then "1" else "0") (Some 86400)]>
                                 (data (redis w));
                       log := log (redis w)
                              ++ [SETEX (result_key (userId attempt) (productId attempt))
                                    86400 (if b then "1" else "0")] |} w)).
  { exists row. split; [done|]. unfold ResultCache. cbn.
    rewrite lookup_insert_eq, Hb. done. }
  split; [|done]. unfold finalizer_step. cbn. split_and!; try done.
  - by left.
  - rewrite lookup_insert_ne; [done|]. intros H. symmetry in H.
    by apply stock_result_ne in H.
Qed.

Lemma getStock_step w :
  finalizer_inv attempt sale product user w →
  ∃ n w', on_redis (RedisService.getStock (productId attempt)) w = (Ok (Some n), w')
          ∧ 0 ≤ n
          ∧ finalizer_step attempt sale user w w'.
Proof.
  intros (_ & _ & _ & Hst).
  assert (Hwf : match data (redis w) !! stock_key (productId attempt) with
                | None => True
                | Some (Str v _) => is_Some (integer_of v)
                | Some (SetV _) => False
                end).
  { destruct (data (redis w) !! _) as [[v t|]|]; try done.
    destruct Hst as (n & Hn & _). by exists n. }
  rewrite (on_redis_eq _ _ _ _ (getStock_run _ _ Hwf)).
  eexists _, _. split; [done|]. split.
  - unfold counter_or_zero, StockCounter.
    destruct (data (redis w) !! _) as [[v t|]|]; simpl; try done.
    destruct Hst as (n & -> & Hn). done.
  - unfold finalizer_step. cbn. split_and!; try done. by left.
Qed.

Lemma create_step w :
  finalizer_inv attempt sale product user w →
  match order_of sale user w with
  | None =>
      ∃ row w', OrderRepository.create (new_order attempt sale) w = (Ok (OrderRepository.of_row row), w')
                ∧ finalizer_step attempt sale user w w'
                ∧ order_of sale user w' = Some row
                ∧ row_status row = SUCCESS
  | Some _ =>
      ∃ w', OrderRepository.create (new_order attempt sale) w = (Throw OrderRepository.already_exists, w')
            ∧ finalizer_step attempt sale user w w'
  end.
Proof.
  intros (_ & Hfs & Hpr & _).
  unfold OrderRepository.create, new_order, try_catch, bind, ret, throw. cbn.
  rewrite Huser, Hproduct.
  destruct sale as [|ps|ps] eqn:Esale; [done|..];
    rewrite <- Esale in *; clear Esale.
  all: unfold OrderRepository.insert; rewrite find_existsb; fold (order_of sale user w).
  all: destruct (order_of sale user w) as [row0|] eqn:Ho.
  all: try (eexists; split; [cbn; reflexivity|];
            unfold finalizer_step; cbn; split_and!; try done; by left).
  all: rewrite bool_decide_eq_true_2 by done.
  all: rewrite bool_decide_eq_true_2 by done.
  all: cbn.
  all: eexists _, _; split; [reflexivity|].
  all: assert (Hk : OrderRepository.same_key sale user
                  {| row_id := orders_id_seq w; row_sale_id := sale;
                     row_product_id := product; row_user_id := user;
                     row_status := SUCCESS; row_attempt_id := None |} = true)
         by (unfold OrderRepository.same_key; cbn; by rewrite !Z.eqb_refl).
  all: split_and!; try done.
  all: try (unfold finalizer_step; cbn; split_and!; try done;
            [right; split; [done|]; by eexists
            | intros (r & Hr & _); unfold order_of in *; cbn in *; congruence]).
  all: unfold order_of in *; cbn; rewrite (find_app_None _ _ _ Ho); cbn; by rewrite Hk.
Qed.

Lemma handler_reports :
  reports_order attempt sale product user Nothing
    (Worker.processFlashSaleAttempt attempt).
Proof.
  assert (∃ c r, sid = String c r) as (c & r & E).
  { clear -Hsale. destruct sid; [done|by eexists _, _]. }
  unfold Worker.processFlashSaleAttempt. rewrite Hsid, E. cbn.
  rewrite <- E, Hsale. cbn. intros w Hinv _. rewrite find_step. cbn.
  split; [apply finalizer_step_refl|].
  destruct (order_of sale user w) as [row|] eqn:Ho; cbn.
  - (* the lookup finds the order *)
    exists (WillWrite (Worker.is_success (row_status row))). split; [by exists row|].
    intros w1 Hinv1 Hk1. destruct (write_step _ w1 Hk1) as (w2 & -> & Hstep & Hc).
    cbn. split; [done|]. by exists Finished.
  - exists Nothing. split; [done|].
    intros w1 Hinv1 _.
    destruct (getStock_step w1 Hinv1) as (n & w2 & -> & Hn & Hstep). cbn.
    split; [done|]. exists Nothing. split; [done|].
    assert ((n <? 0) = false) as -> by lia. cbn.
    intros w3 Hinv3 _.
    pose proof (create_step w3 Hinv3) as Hcreate.
    fold (new_order attempt sale).
    destruct (order_of sale user w3) as [row3|] eqn:Ho3.
    + (* the insert hits the unique constraint *)
      destruct Hcreate as (w4 & -> & Hstep4). cbn. split; [done|].
      exists RowExists. split.
      { exists row3. by eapply finalizer_step_order. }
      intros w5 Hinv5 [row5 Ho5]. rewrite find_step, Ho5. cbn.
      split; [apply finalizer_step_refl|].
      exists (WillWrite (Worker.is_success (row_status row5))). split; [by exists row5|].
      intros w6 Hinv6 Hk6. destruct (write_step _ w6 Hk6) as (w7 & -> & Hstep7 & Hc).
      cbn. split; [done|]. by exists Finished.
    + (* the insert succeeds *)
      destruct Hcreate as (row & w4 & -> & Hstep4 & Ho4 & Hst). cbn. split; [done|].
      exists (WillWrite true). split.
      { exists row. split; [done|]. by rewrite Hst. }
      intros w5 Hinv5 Hk5. destruct (write_step _ w5 Hk5) as (w6 & -> & Hstep6 & Hc).
      cbn. split; [done|]. by exists Finished.
Qed.

Lemma run_reports p : ∀ kn w0 w,
  reports_order attempt sale product user kn p →
  finalizer_inv attempt sale product user w →
  knows attempt sale user kn w →
  at_most_one_new_order sale user w0 w →
  finalizer_inv attempt sale product user (run p w).2
  ∧ cache_reflects_order attempt sale user (run p w).2
  ∧ at_most_one_new_order sale user w0 (run p w).2.
Proof.
  induction p as [r|B op k IH]; intros kn w0 w Hp Hinv Hk Hone; simpl in *.
  - subst kn. done.
  - destruct (Hp w Hinv Hk) as (Hstep & kn' & Hk' & Hp').
    destruct (op w) as [b w1]. simpl in *.
    eapply IH; eauto using finalizer_step_inv, at_most_one_new_order_step.
Qed.

Lemma deliver_reports n : ∀ w0 w,
  finalizer_inv attempt sale product user w →
  at_most_one_new_order sale user w0 w →
  (n = 0%nat ∧ deliver n attempt w = w) ∨
  (finalizer_inv attempt sale product user (deliver n attempt w)
   ∧ cache_reflects_order attempt sale user (deliver n attempt w)
   ∧ at_most_one_new_order sale user w0 (deliver n attempt w)).
Proof.
  induction n as [|n IH]; intros w0 w Hinv Hone; simpl; [by left|]. right.
  destruct (run_reports _ Nothing w0 w handler_reports Hinv I Hone) as (Hinv1 & Hc1 & Hone1).
  destruct (IH w0 _ Hinv1 Hone1) as [[-> ->]|H]; done.
Qed.

Lemma step_at_reports i ps w0 w :
  finalizer_inv attempt sale product user w →
  at_most_one_new_order sale user w0 w →
  Forall (reporting attempt sale product user w) ps →
  finalizer_inv attempt sale product user (step_at i ps w).2
  ∧ at_most_one_new_order sale user w0 (step_at i ps w).2
  ∧ Forall (reporting attempt sale product user (step_at i ps w).2) (step_at i ps w).1.
Proof.
  intros Hinv Hone Hps. unfold step_at.
  destruct (ps !! i) as [[r|B op k]|] eqn:Ei; simpl; try done.
  destruct (Forall_lookup_1 _ _ _ _ Hps Ei) as (kn & Hk & Hp). simpl in Hp.
  destruct (Hp w Hinv Hk) as (Hstep & kn' & Hk' & Hp').
  destruct (op w) as [b w1]. simpl in *.
  split_and!; eauto using finalizer_step_inv, at_most_one_new_order_step.
  apply Forall_insert; [|by exists kn'].
  eapply Forall_impl; [exact Hps|]. intros p (kn0 & Hk0 & Hp0).
  exists kn0. split; [|done]. by eapply knows_stable.
Qed.

Lemma interleave_reports schedule : ∀ ps w0 w,
  finalizer_inv attempt sale product user w →
  at_most_one_new_order sale user w0 w →
  Forall (reporting attempt sale product user w) ps →
  finalizer_inv attempt sale product user (interleave schedule ps w).2
  ∧ at_most_one_new_order sale user w0 (interleave schedule ps w).2
  ∧ Forall (reporting attempt sale product user (interleave schedule ps w).2) (interleave schedule ps w).1
  ∧ length (interleave schedule ps w).1 = length ps.
Proof.
  induction schedule as [|i rest IH]; intros ps w0 w Hinv Hone Hps; simpl; [done|].
  destruct (step_at_reports i ps w0 w Hinv Hone Hps) as (Hinv1 & Hone1 & Hps1).
  assert (Hlen : length (step_at i ps w).1 = length ps).
  { unfold step_at. destruct (ps !! i) as [[r|B op k]|]; simpl; try done.
    destruct (op w). simpl. by rewrite length_insert. }
  destruct (step_at i ps w) as [ps1 w1]. simpl in *.
  destruct (IH ps1 w0 w1 Hinv1 Hone1 Hps1) as (? & ? & ? & Hl).
  split_and!; try done. by rewrite Hl.
Qed.

Lemma finished_reporting w p :
  finished p → reporting attempt sale product user w p → cache_reflects_order attempt sale user w.
Proof.
  intros Hf (kn & Hk & Hp). destruct p; [|done]. simpl in Hp. by subst kn.
Qed.

Lemma exactly_one w :
  finalizer_inv attempt sale product user w →
  cache_reflects_order attempt sale user w →
  length (order_rows sale user w) = 1%nat.
Proof.
  intros (Hle & _) (row & Hrow & _).
  pose proof (filter_find_Some _ _ _ Hrow). unfold order_rows in *. lia.
Qed.

End Finalization.

Lemma unique_on_redis sale user {A} (m : M server A) :
  keeps_orders_unique sale user (on_redis m).
Proof. intros w H. unfold on_redis. by destruct (m (redis w)). Qed.

Lemma unique_find sale user u s : keeps_orders_unique sale user (OrderRepository.findByUserId u s).
Proof.
  intros w H. unfold OrderRepository.findByUserId.
  by destruct (JS.parseInt u), s.
Qed.

Lemma filter_snoc_unique sale user (l : list OrderRow) row :
  find (OrderRepository.same_key (row_sale_id row) (row_user_id row)) l = None →
  (length (List.filter (OrderRepository.same_key sale user) l) ≤ 1)%nat →
  (length (List.filter (OrderRepository.same_key sale user) (l ++ [row])) ≤ 1)%nat.
Proof.
  intros Ef H. rewrite List.filter_app, length_app. cbn.
  destruct (OrderRepository.same_key sale user row) eqn:Ek; cbn; [|lia].
  unfold OrderRepository.same_key in Ek.
  apply andb_prop in Ek as [E1 E2]. apply Z.eqb_eq in E1, E2. subst.
  rewrite (filter_find_None _ _ Ef). cbn. lia.
Qed.

Lemma unique_create sale user order :
  keeps_orders_unique sale user (OrderRepository.create order).
Proof.
  intros w H.
  unfold OrderRepository.create, try_catch, bind, ret, throw.
  destruct (JS.parseInt (OrderRepository.order_userId order)) as [u|]; [|done].
  destruct (OrderRepository.order_saleId order) as [[|s|s]|]; try done.
  all: destruct (JS.parseInt (OrderRepository.order_productId order)) as [p|];
    [|done].
  all: unfold OrderRepository.insert; rewrite find_existsb.
  all: match goal with |- context [find ?f ?l] => destruct (find f l) eqn:Ef end.
  all: cbn.
  all: try (by destruct (bool_decide _)).
  all: match goal with |- context [if ?b then _ else _] => destruct b end; cbn; try done.
  all: unfold order_rows in *; cbn; by apply filter_snoc_unique.
Qed.

Ltac unique_steps :=
  repeat first
    [ apply unique_on_redis | apply unique_find | apply unique_create
    | exact I
    | split
    | intros ?
    | progress cbn
    | match goal with
      | |- every_step _ (if ?b then _ else _) => destruct b
      | |- every_step _ (match ?x with _ => _ end) => destruct x
      | |- every_step _ (ptry (match ?x with _ => _ end) _) => destruct x
      | |- every_step _ (pbind (match ?x with _ => _ end) _) => destruct x
      | |- every_step _ (ptry (pbind (match ?x with _ => _ end) _) _) => destruct x
      end ].

Lemma fresh_on_redis {A} (m : M server A) : keeps_order_ids_fresh (on_redis m).
Proof. intros w H. unfold on_redis. by destruct (m (redis w)). Qed.

Lemma fresh_find u s : keeps_order_ids_fresh (OrderRepository.findByUserId u s).
Proof.
  intros w H. unfold OrderRepository.findByUserId.
  by destruct (JS.parseInt u), s.
Qed.

Lemma fresh_set_orders w rows :
  order_ids_fresh w →
  (rows = orders w
   ∨ ∃ row, rows = orders w ++ [row] ∧ row_id row = orders_id_seq w) →
  order_ids_fresh (set_orders rows (orders_id_seq w + 1) w).
Proof.
  unfold order_ids_fresh. cbn. intros H [->|(row & -> & Hid)].
  - eapply Forall_impl; [exact H|]. cbn. intros; lia.
  - apply Forall_app. split.
    + eapply Forall_impl; [exact H|]. cbn. intros; lia.
    + apply Forall_singleton. lia.
Qed.

Lemma fresh_create order : keeps_order_ids_fresh (OrderRepository.create order).
Proof.
  intros w H.
  unfold OrderRepository.create, try_catch, bind, ret, throw.
  destruct (JS.parseInt (OrderRepository.order_userId order)) as [u|]; [|done].
  destruct (OrderRepository.order_saleId order) as [[|s|s]|]; try done.
  all: destruct (JS.parseInt (OrderRepository.order_productId order)) as [p|];
    [|done].
  all: unfold OrderRepository.insert.
  all: destruct (existsb _ (orders w)); cbn;
    [apply fresh_set_orders; [done|by left]|].
  all: match goal with |- context [if ?b then _ else _] => destruct b end; cbn.
  all: try (apply fresh_set_orders; [done|by left]).
  all: apply fresh_set_orders; [done|]; right; by eexists.
Qed.

Ltac fresh_steps :=
  repeat first
    [ apply fresh_on_redis | apply fresh_find | apply fresh_create
    | exact I
    | split
    | intros ?
    | progress cbn
    | match goal with
      | |- every_step _ (if ?b then _ else _) => destruct b
      | |- every_step _ (match ?x with _ => _ end) => destruct x
      | |- every_step _ (ptry (match ?x with _ => _ end) _) => destruct x
      | |- every_step _ (pbind (match ?x with _ => _ end) _) => destruct x
      | |- every_step _ (ptry (pbind (match ?x with _ => _ end) _) _) => destruct x
      end ].

Lemma handler_keeps_fresh attempt :
  every_step (@keeps_order_ids_fresh) (Worker.processFlashSaleAttempt attempt).
Proof.
  unfold Worker.processFlashSaleAttempt.
  destruct (saleId attempt) as [[|c sid]|]; fresh_steps.
Qed.

Lemma run_keeps_fresh (p : proc World unit) :
  every_step (@keeps_order_ids_fresh) p →
  ∀ w, order_ids_fresh w → order_ids_fresh (run p w).2.
Proof.
  induction p as [r|B op k IH]; intros Hp w H; simpl; [done|].
  destruct Hp as [Hop Hk]. specialize (Hop w H).
  destruct (op w) as [b w1]. by apply IH.
Qed.

Lemma handler_keeps_unique sale user attempt :
  every_step (@keeps_orders_unique sale user) (Worker.processFlashSaleAttempt attempt).
Proof.
  unfold Worker.processFlashSaleAttempt.
  destruct (saleId attempt) as [[|c sid]|]; unique_steps.
Qed.

Lemma run_keeps_unique sale user (p : proc World unit) :
  every_step (@keeps_orders_unique sale user) p →
  ∀ w, (length (order_rows sale user w) ≤ 1)%nat →
       (length (order_rows sale user (run p w).2) ≤ 1)%nat.
Proof.
  induction p as [r|B op k IH]; intros Hp w H; simpl; [done|].
  destruct Hp as [Hop Hk]. specialize (Hop w H).
  destruct (op w) as [b w1]. by apply IH.
Qed.

Lemma deliver_keeps_unique sale user attempt n : ∀ w,
  (length (order_rows sale user w) ≤ 1)%nat →
  (length (order_rows sale user (deliver n attempt w)) ≤ 1)%nat.
Proof.
  induction n as [|n IH]; intros w H; simpl; [done|].
  apply IH, run_keeps_unique; [apply handler_keeps_unique|done].
Qed.

Lemma interleave_keeps_unique sale user schedule : ∀ ps w,
  Forall (every_step (@keeps_orders_unique sale user)) ps →
  (length (order_rows sale user w) ≤ 1)%nat →
  (length (order_rows sale user (interleave schedule ps w).2) ≤ 1)%nat.
Proof.
  induction schedule as [|i rest IH]; intros ps w Hps H; simpl; [done|].
  unfold step_at. destruct (ps !! i) as [[r|B op k]|] eqn:Ei; try by apply IH.
  destruct (Forall_lookup_1 _ _ _ _ Hps Ei) as [Hop Hk]. specialize (Hop w H).
  destruct (op w) as [b w1]. apply IH; [|done].
  apply Forall_insert; [done|apply Hk].
Qed.

(** C6. Idempotent finalization.  Delivering a message [n] times, one
    after the other or to [n] finalizer instances interleaved in any way,
    never gives a user a second Order row in a sale.  For a message of the
    Attempt Queue as the orchestrator writes it into the stores the
    pipeline keeps (the sale id, user id and product id are numerals of
    database ids, below 2^53 in size; the sale and the product exist; the
    StockCounter is not negative; the order ids were issued by the
    table's sequence) and [n >= 1], there is exactly one Order row for the
    user and sale afterwards, the Result Cache holds that order's status
    (TTL 86400), and at most one order was added: none if the user
    already had one, found by the first lookup or met as a violation of
    the unique constraint. *)
Theorem idempotent_finalization attempt sale user w n w' :
  delivered n attempt w w' →
  (length (order_rows sale user w) ≤ 1)%nat →
  (length (order_rows sale user w') ≤ 1)%nat
  ∧ ∀ sid product,
      saleId attempt = Some sid → JS.parseInt sid = Some sale → sale ≠ 0 →
      JS.parseInt (userId attempt) = Some user →
      JS.parseInt (productId attempt) = Some product →
      - 2 ^ 53 < sale < 2 ^ 53 → - 2 ^ 53 < user < 2 ^ 53 →
      - 2 ^ 53 < product < 2 ^ 53 →
      order_ids_fresh w →
      finalizer_inv attempt sale product user w →
      (1 ≤ n)%nat →
      length (order_rows sale user w') = 1%nat
      ∧ cache_reflects_order attempt sale user w'
      ∧ at_most_one_new_order sale user w w'.
Proof.
  intros Hd Hu. split.
  - destruct Hd as [->|(schedule & -> & _)].
    + by apply deliver_keeps_unique.
    + apply interleave_keeps_unique; [|done].
      apply Forall_replicate, handler_keeps_unique.
  - intros sid product Hsid Hsale Hsale0 Huser Hproduct _ _ _ _ Hinv Hn.
    assert (Hone : at_most_one_new_order sale user w w) by (by left).
    destruct Hd as [->|(schedule & -> & Hfin)].
    + destruct (deliver_reports attempt sid sale product user Hsid Hsale Hsale0
                  Huser Hproduct n w w Hinv Hone) as [[-> _]|(Hinv' & Hc & Hone')];
        [lia|].
      split_and!; try done. by eapply exactly_one.
    + destruct (interleave_reports attempt sale product user schedule
                  (replicate n (Worker.processFlashSaleAttempt attempt)) w w Hinv Hone)
        as (Hinv' & Hone' & Hps & Hlen).
      { apply Forall_replicate. exists Nothing. split; [done|].
        by eapply handler_reports. }
      rewrite length_replicate in Hlen.
      destruct (interleave schedule _ w) as [ps' w'] eqn:Ei. simpl in *.
      destruct ps' as [|p ps']; [simpl in Hlen; lia|].
      assert (Hc : cache_reflects_order attempt sale user w').
      { eapply finished_reporting; [by eapply Forall_inv|by eapply Forall_inv]. }
      split_and!; try done. by eapply exactly_one.
Qed.

(** The finalizer's first guard.  A message without a sale id, which the
    orchestrator never writes, is rejected: however many times it is
    delivered no Order row is created, and the Result Cache is set to
    FAILED. *)
Example no_order_without_sale_id :
  (1 ≤ 3)%nat
  ∧ orders (deliver 1 attempt_without_sale (sample_world store_of_two 150 true)) = []
  ∧ orders (deliver 3 attempt_without_sale (sample_world store_of_two 150 true)) = []
  ∧ ResultCache
      (redis (deliver 3 attempt_without_sale (sample_world store_of_two 150 true)))
      "7" "1" = Some ("0", Some 86400).
Proof. split_and!; [lia|vm_compute; reflexivity..]. Qed.

Lemma idempotent_finalization_witness :
  delivered 3 sample_attempt after_first_attempt (deliver 3 sample_attempt after_first_attempt)
  ∧ length (order_rows 1 7 (deliver 3 sample_attempt after_first_attempt)) = 1%nat
  ∧ cache_reflects_order sample_attempt 1 7 (deliver 3 sample_attempt after_first_attempt).
Proof.
  assert (H1 : delivered 3 sample_attempt after_first_attempt
                 (deliver 3 sample_attempt after_first_attempt)) by (left; reflexivity).
  assert (H2 : (length (order_rows 1 7 after_first_attempt) ≤ 1)%nat)
    by (vm_compute; repeat constructor).
  assert (H3 : finalizer_inv sample_attempt 1 1 7 after_first_attempt).
  { split_and!.
    - exact H2.
    - vm_compute. eexists. reflexivity.
    - vm_compute. reflexivity.
    - vm_compute. exists 1. split; [reflexivity|discriminate]. }
  assert (H4 : - 2 ^ 53 < 1 < 2 ^ 53) by (split; reflexivity).
  assert (H5 : - 2 ^ 53 < 7 < 2 ^ 53) by (split; reflexivity).
  assert (H6 : order_ids_fresh after_first_attempt) by (vm_compute; constructor).
  destruct (proj2 (idempotent_finalization sample_attempt 1 7 _ 3 _ H1 H2) "1" 1
              eq_refl ltac:(vm_compute; reflexivity) ltac:(discriminate)
              ltac:(vm_compute; reflexivity) ltac:(vm_compute; reflexivity)
              H4 H5 H4 H6 H3 ltac:(repeat constructor))
    as (Hone & Hcache & _).
  split_and!; [exact H1|exact Hone|exact Hcache].
Defined.

(** Two finalizer instances racing on the same message: both look the order
    up and find none, the first inserts, the second hits the unique
    constraint and reports the existing order.  One Order row results. *)
Example finalizers_racing :
  let '(ps, w) :=
    interleave [0; 1; 0; 1; 0; 1; 0; 1; 1]%nat
      (replicate 2 (Worker.processFlashSaleAttempt sample_attempt))
      after_first_attempt in
  Forall finished ps
  ∧ length (orders w) = 1%nat
  ∧ orders_id_seq w = orders_id_seq after_first_attempt + 2
  ∧ ResultCache (redis w) "7" "1" = Some ("1", Some 86400).
Proof.
  vm_compute. split_and!; [|reflexivity..]. repeat constructor.
Qed.

(** ** Scenarios of section 8, run on the model *)
(** Stock 2, five distinct users: two are accepted, three are told the item
    is out of stock, and two messages are enqueued. *)
Example two_of_five :
  let '(rs, w) :=
    purchase_all string_of_Z ["1"; "2"; "3"; "4"; "5"] 1
      (sample_world store_of_two 150 true) in
  map message_of rs
  = [ "Your purchase attempt has been received and is being processed.";
      "Your purchase attempt has been received and is being processed.";
      "Sorry, the item is out of stock.";
      "Sorry, the item is out of stock.";
      "Sorry, the item is out of stock." ]
  ∧ length (topic w) = 2%nat
  ∧ StockCounter (redis w) "1" = Some 0.
Proof. vm_compute. split_and!; reflexivity. Qed.

(** A denied user polls at once and finds FAILED; an accepted user finds
    SUCCESS once the finalizer has handled the message. *)
Example round_trip :
  let w1 := (purchase_all string_of_Z ["7"; "8"; "9"] 1
               (sample_world store_of_two 150 true)).2 in
  let w2 := deliver 1 sample_attempt w1 in
  (RedisService.getUserResult "9" "1" (redis w1)).1 = Ok (Some false)
  ∧ (RedisService.getUserResult "7" "1" (redis w1)).1 = Ok None
  ∧ (RedisService.getUserResult "7" "1" (redis w2)).1 = Ok (Some true).
Proof. vm_compute. split_and!; reflexivity. Qed.

(** The finalizer's double-check: with a negative counter no order is
    created and the result is FAILED. *)
Example negative_counter_is_refused :
  let w := sample_world
             (Redis.Server {[ stock_key "1" := Redis.Str "-1" None ]} []) 150 true in
  orders (deliver 1 sample_attempt w) = []
  ∧ ResultCache (redis (deliver 1 sample_attempt w)) "7" "1" = Some ("0", Some 86400).
Proof. vm_compute. split_and!; reflexivity. Qed.


(** * Properties of the rest of the service *)

(** ** Running asynchronous functions *)
Lemma run_pbind {W A B} (p : proc W A) (k : A → proc W B) w :
  run (pbind p k) w =
  match run p w with
  | (Ok a, w') => run (k a) w'
  | (Throw e, w') => (Throw e, w')
  end.
Proof.
  revert w. induction p as [[a|e]|C op j IH]; intros w; simpl; try done.
  destruct (op w) as [b w1]. apply IH.
Qed.

Lemma run_ptry {W A} (p : proc W A) (h : exn → proc W A) w :
  run (ptry p h) w =
  match run p w with
  | (Ok a, w') => (Ok a, w')
  | (Throw e, w') => run (h e) w'
  end.
Proof.
  revert w. induction p as [[a|e]|C op j IH]; intros w; simpl; try done.
  destruct (op w) as [b w1]. apply IH.
Qed.

Lemma run_respects {A} (R : World → World → Prop) (p : proc World A) :
  (∀ w, R w w) → (∀ w1 w2 w3, R w1 w2 → R w2 w3 → R w1 w3) →
  every_step (@respects R) p → ∀ w, R w (run p w).2.
Proof.
  intros Hrefl Htrans.
  induction p as [r|B op k IH]; intros Hp w; simpl; [apply Hrefl|].
  destruct Hp as [Hop Hk]. specialize (Hop w).
  destruct (op w) as [b w1]. simpl in Hop.
  eapply Htrans; [exact Hop|]. by apply IH.
Qed.

(** ** Which keys a command, a script, an operation may change *)
Lemma exec_other_key c db k :
  k ≠ command_key c → (exec c db).2 !! k = db !! k.
Proof.
  intros Hk. destruct c; simpl in *; unfold incr_by;
    repeat case_match; simpl; try done; by rewrite lookup_insert_ne.
Qed.

Lemma exec_read c db : writes c = false → (exec c db).2 = db.
Proof. destruct c; simpl; try done; intros _; by repeat case_match. Qed.

Lemma changes_only_ret {A} K (a : A) : changes_only K (ret a).
Proof. done. Qed.

Lemma changes_only_throw {A} K e : changes_only K (@throw _ A e).
Proof. done. Qed.

Lemma changes_only_bind {A B} K (m : M server A) (k : A → M server B) :
  changes_only K m → (∀ a, changes_only K (k a)) → changes_only K (bind m k).
Proof.
  intros Hm Hk s key Hkey. unfold bind. specialize (Hm s key Hkey).
  destruct (m s) as [[a|e] s1]; simpl in *; [|done].
  by rewrite (Hk a s1 key Hkey).
Qed.

Lemma changes_only_bind_ret {A B} K (a : A) (k : A → M server B) :
  changes_only K (k a) → changes_only K (bind (ret a) k).
Proof. done. Qed.

Lemma changes_only_call K c :
  (writes c = true → command_key c ∈ K) → changes_only K (call c).
Proof.
  intros Hc s k Hk. unfold call.
  destruct (exec c (data s)) as [r db] eqn:E. simpl.
  destruct (writes c) eqn:Hw.
  - replace db with (exec c (data s)).2 by by rewrite E.
    apply exec_other_key. intros ->. by apply Hk, Hc.
  - replace db with (exec c (data s)).2 by by rewrite E.
    by rewrite exec_read.
Qed.

Lemma changes_only_executeScript K script :
  changes_only K script → changes_only K (RedisService.executeScript script).
Proof.
  intros H. unfold RedisService.executeScript, eval.
  repeat (apply changes_only_bind; [|intros; try apply changes_only_ret]). done.
Qed.

Lemma changes_only_index K v i : changes_only K (@JS.index server v i).
Proof. destruct v; simpl; (apply changes_only_ret || apply changes_only_throw). Qed.

Lemma changes_only_le K a b : changes_only K (@Lua.le server a b).
Proof. destruct a, b; simpl; (apply changes_only_ret || apply changes_only_throw). Qed.

Lemma changes_only_lt K a b : changes_only K (@Lua.lt server a b).
Proof. destruct a, b; simpl; (apply changes_only_ret || apply changes_only_throw). Qed.

Lemma changes_only_add K a b : changes_only K (@Lua.add server a b).
Proof.
  unfold Lua.add. destruct (Lua.tonumber a), (Lua.tonumber b);
    (apply changes_only_ret || apply changes_only_throw).
Qed.

Ltac changes_steps :=
  repeat first
    [ apply changes_only_ret | apply changes_only_throw | apply changes_only_index
    | apply changes_only_le | apply changes_only_lt | apply changes_only_add
    | apply changes_only_executeScript
    | apply changes_only_bind_ret
    | apply changes_only_call
    | apply changes_only_bind; [|intros ?]
    | match goal with
      | |- changes_only _ (if ?b then _ else _) => destruct b
      | |- changes_only _ (match ?x with _ => _ end) => destruct x
      | |- changes_only _ (let _ := _ in _) => cbv zeta
      end ].

Lemma operations_change_only (op : operation) :
  changes_only (written_keys op) (perform op).
Proof.
  destruct op; simpl;
    unfold RedisService.attemptPurchase, RedisService.decrementStock,
      RedisService.incrementStock, RedisService.restoreStock,
      RedisService.getStock, RedisService.stockKeyExists,
      RedisService.initializeStock, RedisService.addUserToAttemptedSet,
      RedisService.isUserInAttemptedSet, RedisService.getUserStatus,
      RedisService.setUserResult, RedisService.getUserResult,
      RedisService.client, redis_call,
      ATTEMPT_PURCHASE_SCRIPT, GET_USER_STATUS_SCRIPT, SET_USER_RESULT_SCRIPT,
      INITIALIZE_STOCK_SCRIPT, RESTORE_STOCK_SCRIPT, as_argument;
    try (unfold Lua.tonumber at 1; rewrite Z_of_string_of_Z);
    try rewrite ttl_is_integer;
    changes_steps.
  all: cbn; try done; intros _.
  all: repeat match goal with
       | |- context ["flashsale:stock:" +:+ ?p] =>
           change ("flashsale:stock:" +:+ p) with (stock_key p)
       | |- context ["flashsale:attempted:" +:+ ?p] =>
           change ("flashsale:attempted:" +:+ p) with (attempted_key p)
       | |- context ["flashsale:result:" +:+ ?u +:+ ":" +:+ ?p] =>
           change ("flashsale:result:" +:+ u +:+ ":" +:+ p) with (result_key u p)
       end.
  all: set_solver.
Qed.

(** X1. What the operations of the Redis client leave alone.  A reservation
    changes at most the product's stock counter and attempted set; the
    counter operations ([decrementStock], [incrementStock], [restoreStock],
    [initializeStock]) at most the stock counter; [addUserToAttemptedSet]
    at most the attempted set; [setUserResult] at most the result entry of
    its user and product.  The five queries ([getStock], [stockKeyExists],
    [isUserInAttemptedSet], [getUserStatus], [getUserResult]) change no
    key at all, whether they return or throw. *)
Theorem operations_keep_other_keys (op : operation) (s : Redis.server) :
  (∀ k, k ∉ written_keys op →
        Redis.data (perform op s).2 !! k = Redis.data s !! k)
  ∧ match op with
    | GetStock _ | StockKeyExists _ | IsUserInAttemptedSet _ _
    | GetUserStatus _ _ | GetUserResult _ _ =>
        Redis.data (perform op s).2 = Redis.data s
    | _ => True
    end.
Proof.
  pose proof (operations_change_only op s) as H.
  split; [exact H|].
  destruct op; try done; apply map_eq; intros k; apply H; simpl; set_solver.
Qed.

(** ** The Redis client: result cache, counter, attempted set *)

Lemma result_key_unfold u p :
  result_key u p = "flashsale:result:" +:+ (u +:+ (":" +:+ p)).
Proof. with_strategy transparent [result_key] reflexivity. Qed.

Lemma append_cons c a b : String c a +:+ b = String c (a +:+ b).
Proof. reflexivity. Qed.

Lemma append_nil b : "" +:+ b = b.
Proof. reflexivity. Qed.

Lemma colon_free_cons c u : colon_free (String c u) → c ≠ ":"%char ∧ colon_free u.
Proof.
  unfold colon_free. simpl. intros H. split.
  - intros ->. apply H. by left.
  - intros Hin. apply H. by right.
Qed.

Lemma separated_inj u u' p p' :
  colon_free u → colon_free u' →
  u +:+ (":" +:+ p) = u' +:+ (":" +:+ p') → u = u' ∧ p = p'.
Proof.
  revert u'. induction u as [|c u IH]; intros [|c' u'] Hu Hu'.
  - rewrite !append_nil, !append_cons, !append_nil. by intros [= ->].
  - rewrite append_nil, !append_cons. intros [= <- _].
    by apply colon_free_cons in Hu' as [? _].
  - rewrite append_nil, !append_cons. intros [= -> _].
    by apply colon_free_cons in Hu as [? _].
  - rewrite !(append_cons _ _ (":" +:+ _)). intros [= -> E].
    apply colon_free_cons in Hu as [_ Hu]. apply colon_free_cons in Hu' as [_ Hu'].
    destruct (IH u' Hu Hu' E) as [-> ->]. done.
Qed.

Lemma append_inj_l a x y : a +:+ x = a +:+ y → x = y.
Proof.
  induction a as [|c a IH]; [by rewrite !append_nil|].
  rewrite !append_cons. intros [= E]. by apply IH.
Qed.

Lemma result_key_inj u u' p p' :
  colon_free u → colon_free u' →
  result_key u p = result_key u' p' → u = u' ∧ p = p'.
Proof.
  intros Hu Hu'. rewrite !result_key_unfold. intros E.
  apply append_inj_l in E. by apply separated_inj.
Qed.

Lemma getUserResult_run u p s :
  RedisService.getUserResult u p s =
    (match data s !! result_key u p with
     | None => Ok None
     | Some (Str v _) => Ok (Some (String.eqb v "1"))
     | Some (SetV _) => Throw WRONGTYPE
     end,
     Server (data s) (log s ++ [GET (result_key u p)])).
Proof.
  unfold RedisService.getUserResult, RedisService.client, call, bind, ret. simpl.
  change ("flashsale:result:" +:+ u +:+ ":" +:+ p) with (result_key u p).
  by destruct (data s !! result_key u p) as [[v t|]|].
Qed.

(** X2. Result cache round trip.  What [setUserResult] stores for a user
    and product is what both readers return afterwards: [getUserResult]
    returns the boolean stored, and [getUserStatus] reports a result equal
    to it.  [setUserResult] itself never fails. *)
Theorem result_cache_round_trip (u p : string) (b : bool) (s : Redis.server) :
  attempted_wf s p →
  ∃ s1,
    RedisService.setUserResult u p b s = (Ok tt, s1)
    ∧ (RedisService.getUserResult u p s1).1 = Ok (Some b)
    ∧ ∃ st, (RedisService.getUserStatus u p s1).1 = Ok st
            ∧ RedisService.hasResult st = true
            ∧ RedisService.result st = Some b.
Proof.
  intros HA. rewrite setUserResult_run. eexists. split; [reflexivity|].
  split.
  - rewrite getUserResult_run. simpl. rewrite lookup_insert_eq. by destruct b.
  - rewrite getUserStatus_run.
    + eexists. split; [reflexivity|]. split; [done|]. simpl.
      unfold ResultCache. simpl. rewrite lookup_insert_eq. by destruct b.
    + unfold attempted_wf in *. simpl.
      rewrite lookup_insert_ne; [done|]. intros E. symmetry in E.
      by apply attempted_result_ne in E.
    + simpl. by rewrite lookup_insert_eq.
Qed.

Lemma result_cache_round_trip_witness :
  ∃ s1,
    RedisService.setUserResult "7" "1" true store_of_two = (Ok tt, s1)
    ∧ (RedisService.getUserResult "7" "1" s1).1 = Ok (Some true).
Proof.
  assert (H : attempted_wf store_of_two "1") by (vm_compute; exact I).
  destruct (result_cache_round_trip "7" "1" true store_of_two H) as (s1 & E1 & E2 & _).
  exists s1. split; [exact E1|exact E2].
Defined.

(** X3. Result entries of different users and products do not interfere.
    For user ids without ":" (the ids the service issues are decimal
    numerals), writing the result of one user and product leaves what
    [getUserResult] returns for any other pair unchanged, and it leaves
    every stock counter and attempted set as it was. *)
Theorem result_cache_entries_are_separate (u p u' p' : string) (b : bool)
    (s : Redis.server) :
  colon_free u → colon_free u' → (u, p) ≠ (u', p') →
  (RedisService.getUserResult u' p' (RedisService.setUserResult u p b s).2).1
  = (RedisService.getUserResult u' p' s).1
  ∧ ∀ q, StockCounter (RedisService.setUserResult u p b s).2 q = StockCounter s q
         ∧ AttemptedSet (RedisService.setUserResult u p b s).2 q = AttemptedSet s q.
Proof.
  intros Hu Hu' Hne. rewrite setUserResult_run. simpl. split.
  - rewrite !getUserResult_run. simpl.
    rewrite lookup_insert_ne; [done|].
    intros E. apply result_key_inj in E as [-> ->]; done.
  - intros q. unfold StockCounter, AttemptedSet. simpl.
    rewrite !lookup_insert_ne; [done| |].
    + intros E. symmetry in E. by apply attempted_result_ne in E.
    + intros E. symmetry in E. by apply stock_result_ne in E.
Qed.

Lemma result_cache_entries_are_separate_witness :
  (RedisService.getUserResult "8" "1" (RedisService.setUserResult "7" "1" true store_of_two).2).1
  = (RedisService.getUserResult "8" "1" store_of_two).1.
Proof.
  assert (H7 : colon_free "7") by (unfold colon_free; simpl; set_solver).
  assert (H8 : colon_free "8") by (unfold colon_free; simpl; set_solver).
  assert (Hne : ("7", "1") ≠ ("8", "1")) by discriminate.
  exact (proj1 (result_cache_entries_are_separate "7" "1" "8" "1" true store_of_two
                  H7 H8 Hne)).
Defined.

(** Without the restriction the key of a pair is ambiguous: a ":" inside
    the user id moves the boundary between the two ids. *)
Example result_keys_can_collide : result_key "1:2" "3" = result_key "1" "2:3".
Proof. with_strategy transparent [result_key] reflexivity. Qed.

Lemma counter_lookup s p :
  stock_wf s p →
  data s !! stock_key p = None ∧ StockCounter s p = None
  ∨ ∃ t, data s !! stock_key p
         = Some (Str (string_of_Z (counter_or_zero s p)) t)
         ∧ StockCounter s p = Some (counter_or_zero s p)
         ∧ LLONG_MIN ≤ counter_or_zero s p ≤ LLONG_MAX.
Proof.
  unfold stock_wf, counter_or_zero, StockCounter.
  destruct (data s !! stock_key p) as [[v t|]|]; [|done|by left].
  intros [n Hn]. rewrite Hn. simpl. right. exists t.
  apply integer_of_Some in Hn as (-> & _ & ? & ?). done.
Qed.

Lemma incr_by_counter d s p :
  stock_wf s p →
  LLONG_MIN ≤ counter_or_zero s p + d ≤ LLONG_MAX →
  ∃ t, incr_by d (stock_key p) (data s)
       = (Ok (Int (counter_or_zero s p + d)),
          <[stock_key p := Str (string_of_Z (counter_or_zero s p + d)) t]> (data s)).
Proof.
  intros Hwf Hr. unfold incr_by.
  destruct (counter_lookup s p Hwf) as [[E Ec]|(t & E & Ec & _)].
  - unfold counter_or_zero in *. rewrite Ec in *. simpl in *. rewrite E.
    by exists None.
  - rewrite E. rewrite integer_of_string_of_Z.
    + assert ((LLONG_MIN <=? counter_or_zero s p + d)
              && (counter_or_zero s p + d <=? LLONG_MAX) = true) as ->.
      { apply andb_true_intro. split; lia. }
      by exists t.
    + unfold stock_wf, counter_or_zero, StockCounter in *. rewrite E in *.
      destruct Hwf as [n Hn]. rewrite Hn. simpl.
      apply integer_of_Some in Hn as (_ & _ & ? & ?). done.
Qed.

(** X4. The stock counter read back.  After [initializeStock p n] (for a
    count that JavaScript holds exactly), [getStock p] returns [n] and
    [stockKeyExists p] returns true, also for [n = 0].  On a store without
    the key, [getStock] returns 0 as well but [stockKeyExists] returns
    false: a sold-out product and an uninitialized one are told apart by
    the key, not by the count. *)
Theorem stock_counter_round_trip (p : string) (n : Z) (s : Redis.server) :
  - 2 ^ 53 < n < 2 ^ 53 →
  (∃ s1, RedisService.initializeStock p n s = (Ok tt, s1)
         ∧ (RedisService.getStock p s1).1 = Ok (Some n)
         ∧ (RedisService.stockKeyExists p s1).1 = Ok true
         ∧ StockCounter s1 p = Some n)
  ∧ (Redis.data s !! stock_key p = None →
     (RedisService.getStock p s).1 = Ok (Some 0)
     ∧ (RedisService.stockKeyExists p s).1 = Ok false).
Proof.
  intros Hn.
  assert (Hi : integer_of (string_of_Z n) = Some n).
  { apply integer_of_string_of_Z. unfold LLONG_MIN, LLONG_MAX. lia. }
  split.
  - rewrite initializeStock_run. eexists. split; [reflexivity|].
    assert (Hc : StockCounter
                   (Server (<[stock_key p:=Str (string_of_Z n) None]> (data s))
                      (log s ++ [SET (stock_key p) (string_of_Z n)])) p = Some n).
    { unfold StockCounter. simpl. by rewrite lookup_insert_eq. }
    split_and!; [| |exact Hc].
    + rewrite getStock_run.
      * simpl. unfold counter_or_zero. by rewrite Hc.
      * simpl. rewrite lookup_insert_eq. by eexists.
    + rewrite stockKeyExists_run. simpl. rewrite lookup_insert_eq.
      by rewrite bool_decide_eq_true_2.
  - intros E. split.
    + rewrite getStock_run; [|by rewrite E].
      simpl. unfold counter_or_zero, StockCounter. by rewrite E.
    + rewrite stockKeyExists_run. simpl. rewrite E.
      rewrite bool_decide_eq_false_2; [done|]. by intros [? ?].
Qed.

Lemma stock_counter_round_trip_witness :
  ∃ s1, RedisService.initializeStock "1" 0 store_of_two = (Ok tt, s1)
        ∧ (RedisService.getStock "1" s1).1 = Ok (Some 0)
        ∧ (RedisService.stockKeyExists "1" s1).1 = Ok true.
Proof.
  assert (H : - 2 ^ 53 < 0 < 2 ^ 53) by (split; reflexivity).
  destruct (proj1 (stock_counter_round_trip "1" 0 store_of_two H))
    as (s1 & E1 & E2 & E3 & _).
  exists s1. split_and!; [exact E1|exact E2|exact E3].
Defined.

(** X5. [decrementStock] and [incrementStock] are inverse, and neither has
    a floor.  On a product whose stock key is missing (read as 0) or holds
    an integer [v] above the least 64-bit integer, [decrementStock] returns
    and leaves [v - 1] in the counter, also when that is negative, and
    [incrementStock] then returns and restores the counter to [v].  The
    numbers the two calls return are [v - 1] and [v] when these are below
    2^53 in size, the integers a JavaScript number holds exactly. *)
Theorem decrement_then_increment (p : string) (s : Redis.server) :
  stock_wf s p → LLONG_MIN < counter_or_zero s p →
  ∃ r1 s1 r2 s2,
    RedisService.decrementStock p s = (Ok r1, s1)
    ∧ StockCounter s1 p = Some (counter_or_zero s p - 1)
    ∧ RedisService.incrementStock p s1 = (Ok r2, s2)
    ∧ StockCounter s2 p = Some (counter_or_zero s p)
    ∧ (- 2 ^ 53 < counter_or_zero s p - 1 → counter_or_zero s p < 2 ^ 53 →
       r1 = JS.JNum (counter_or_zero s p - 1) ∧ r2 = JS.JNum (counter_or_zero s p)).
Proof.
  intros Hwf Hmin.
  assert (Hmax : counter_or_zero s p ≤ LLONG_MAX).
  { destruct (counter_lookup s p Hwf) as [[_ Ec]|(t & _ & _ & ? & ?)]; [|done].
    unfold counter_or_zero. rewrite Ec. done. }
  destruct (incr_by_counter (-1) s p Hwf) as [t E1]; [lia|].
  unfold RedisService.decrementStock, RedisService.incrementStock,
    RedisService.client, call, bind, ret. simpl.
  change ("flashsale:stock:" +:+ p) with (stock_key p).
  rewrite E1. simpl.
  replace (counter_or_zero s p + -1) with (counter_or_zero s p - 1) by lia.
  set (s1 := Server (<[stock_key p:=Str (string_of_Z (counter_or_zero s p - 1)) t]>
                       (data s)) (log s ++ [DECR (stock_key p)])).
  assert (Hi : integer_of (string_of_Z (counter_or_zero s p - 1))
               = Some (counter_or_zero s p - 1)).
  { apply integer_of_string_of_Z. lia. }
  assert (Hc1 : StockCounter s1 p = Some (counter_or_zero s p - 1)).
  { unfold StockCounter, s1. simpl. by rewrite lookup_insert_eq. }
  assert (Hwf1 : stock_wf s1 p).
  { unfold stock_wf, s1. simpl. rewrite lookup_insert_eq. by eexists. }
  assert (Hz1 : counter_or_zero s1 p = counter_or_zero s p - 1).
  { unfold counter_or_zero at 1. by rewrite Hc1. }
  destruct (incr_by_counter 1 s1 p Hwf1) as [t' E2]; [rewrite Hz1; lia|].
  rewrite Hz1 in E2.
  replace (counter_or_zero s p - 1 + 1) with (counter_or_zero s p) in E2 by lia.
  eexists _, _, _, _. split; [reflexivity|]. split; [exact Hc1|].
  rewrite E2. simpl. split; [reflexivity|]. split; [|done].
  unfold StockCounter. simpl. rewrite lookup_insert_eq.
  apply integer_of_string_of_Z. lia.
Qed.

Lemma decrement_then_increment_witness :
  ∃ s1 s2,
    RedisService.decrementStock "1" sold_out_store = (Ok (JS.JNum (-1)), s1)
    ∧ StockCounter s1 "1" = Some (-1)
    ∧ RedisService.incrementStock "1" s1 = (Ok (JS.JNum 0), s2)
    ∧ StockCounter s2 "1" = Some 0.
Proof.
  assert (H1 : stock_wf sold_out_store "1") by (vm_compute; eexists; reflexivity).
  assert (H2 : LLONG_MIN < counter_or_zero sold_out_store "1") by reflexivity.
  destruct (decrement_then_increment "1" sold_out_store H1 H2)
    as (r1 & s1 & r2 & s2 & E1 & C1 & E2 & C2 & Hr).
  destruct Hr as [-> ->]; [reflexivity|reflexivity|].
  exists s1, s2. split_and!; [exact E1|exact C1|exact E2|exact C2].
Defined.

(** X6. The attempted set, written from outside the reservation script.
    [addUserToAttemptedSet] returns true exactly when the user was not yet
    a member; afterwards [isUserInAttemptedSet] returns true, and a
    reservation by that user is refused as a repeat attempt without
    touching the counter or the set. *)
Theorem added_user_cannot_reserve (u p : string) (s : Redis.server) :
  product_wf s p →
  ∃ s1,
    RedisService.addUserToAttemptedSet u p s
    = (Ok (negb (bool_decide (u ∈ AttemptedSet s p))), s1)
    ∧ AttemptedSet s1 p = {[u]} ∪ AttemptedSet s p
    ∧ (RedisService.isUserInAttemptedSet u p s1).1 = Ok true
    ∧ ∃ r s2,
        tryReserve p u s1 = (Ok r, s2)
        ∧ RedisService.success r = false
        ∧ RedisService.wasNewAttempt r = false
        ∧ Redis.data s2 = Redis.data s1.
Proof.
  intros [HS HA].
  assert (Hne : attempted_key p ≠ stock_key p).
  { intros E. symmetry in E. by apply stock_attempted_ne in E. }
  set (s1 := Server (<[attempted_key p := SetV ({[u]} ∪ AttemptedSet s p)]> (data s))
               (log s ++ [SADD (attempted_key p) u])).
  assert (E1 : RedisService.addUserToAttemptedSet u p s
               = (Ok (negb (bool_decide (u ∈ AttemptedSet s p))), s1)).
  { unfold RedisService.addUserToAttemptedSet, RedisService.client, call, bind, ret.
    simpl. change ("flashsale:attempted:" +:+ p) with (attempted_key p).
    destruct (AttemptedSet_lookup s p HA) as [[E EA]|E]; rewrite E; simpl.
    - rewrite EA. rewrite bool_decide_eq_false_2 by set_solver. simpl.
      unfold s1. rewrite EA. by rewrite union_empty_r_L.
    - unfold s1. by destruct (bool_decide (u ∈ AttemptedSet s p)). }
  assert (EA1 : AttemptedSet s1 p = {[u]} ∪ AttemptedSet s p).
  { unfold AttemptedSet at 1, s1. simpl. by rewrite lookup_insert_eq. }
  assert (HA1 : attempted_wf s1 p).
  { unfold attempted_wf, s1. simpl. by rewrite lookup_insert_eq. }
  assert (HS1 : stock_wf s1 p).
  { unfold stock_wf, s1 in *. simpl. by rewrite lookup_insert_ne. }
  exists s1. split_and!; [exact E1|exact EA1| |].
  - unfold RedisService.isUserInAttemptedSet, RedisService.client, call, bind, ret.
    simpl. change ("flashsale:attempted:" +:+ p) with (attempted_key p).
    rewrite lookup_insert_eq. simpl.
    rewrite bool_decide_eq_true_2 by set_solver. done.
  - destruct (tryReserve_step u p s1 HA1 HS1)
      as (r & s2 & E & _ & _ & _ & _ & _ & Hrep & _).
    destruct Hrep as (? & ? & ?); [rewrite EA1; set_solver|].
    by exists r, s2.
Qed.

Lemma added_user_cannot_reserve_witness :
  ∃ s1,
    RedisService.addUserToAttemptedSet "7" "1" store_of_two = (Ok true, s1)
    ∧ ∃ r s2, tryReserve "1" "7" s1 = (Ok r, s2)
              ∧ RedisService.success r = false
              ∧ Redis.data s2 = Redis.data s1.
Proof.
  assert (H : product_wf store_of_two "1").
  { split; [vm_compute; eexists; reflexivity|vm_compute; exact I]. }
  destruct (added_user_cannot_reserve "7" "1" store_of_two H)
    as (s1 & E1 & _ & _ & r & s2 & E2 & E3 & _ & E4).
  exists s1. split; [exact E1|]. exists r, s2. split_and!; [exact E2|exact E3|exact E4].
Defined.

Ltac thrown :=
  let H := fresh in
  intros H; first [discriminate H | by injection H as <- <-].

Lemma incr_by_throws d k db e db' :
  incr_by d k db = (Throw e, db') → db' = db.
Proof. unfold incr_by. repeat case_match; thrown. Qed.

Lemma exec_throws c db e db' : exec c db = (Throw e, db') → db' = db.
Proof.
  destruct c; simpl; try apply incr_by_throws; repeat case_match; thrown.
Qed.

Lemma call_throws c s e s' : call c s = (Throw e, s') → data s' = data s.
Proof.
  unfold call. destruct (exec c (data s)) as [r db] eqn:E.
  intros [= -> <-]. simpl. by apply exec_throws in E.
Qed.

Lemma tryReserve_throws u p s e s' :
  tryReserve p u s = (Throw e, s') → data s' = data s.
Proof.
  assert (Hne : stock_key p ≠ attempted_key p) by apply stock_attempted_ne.
  unfold tryReserve. rewrite attemptPurchase_unfold. run_script.
  destruct (data s !! attempted_key p) as [[?|A]|] eqn:EA; simpl; [thrown| |].
  - destruct (bool_decide (u ∈ A)); simpl.
    + destruct (data s !! stock_key p) as [[v t|]|] eqn:ES; simpl; thrown.
    + destruct (data s !! stock_key p) as [[v t|]|] eqn:ES; simpl; try thrown.
      * destruct (Z_of_string v) as [n|] eqn:Hz; simpl; [|thrown].
        destruct (n <=? 0) eqn:Hle; simpl.
        -- rewrite EA. simpl. thrown.
        -- unfold incr_by. rewrite ES.
           destruct (integer_of v) as [m|] eqn:Hm; simpl; [|thrown].
           pose proof (integer_of_Some _ _ Hm) as (_ & Hz' & _).
           assert (m = n) as -> by congruence.
           destruct ((LLONG_MIN <=? n + -1) && (n + -1 <=? LLONG_MAX)); simpl;
             [|thrown].
           assert ((n + -1 <? 0) = false) as -> by lia. simpl.
           rewrite lookup_insert_ne by done. rewrite EA. simpl. thrown.
      * rewrite EA. simpl. thrown.
  - destruct (data s !! stock_key p) as [[v t|]|] eqn:ES; simpl; try thrown.
    + destruct (Z_of_string v) as [n|] eqn:Hz; simpl; [|thrown].
      destruct (n <=? 0) eqn:Hle; simpl.
      * rewrite EA. simpl. thrown.
      * unfold incr_by. rewrite ES.
        destruct (integer_of v) as [m|] eqn:Hm; simpl; [|thrown].
        pose proof (integer_of_Some _ _ Hm) as (_ & Hz' & _).
        assert (m = n) as -> by congruence.
        destruct ((LLONG_MIN <=? n + -1) && (n + -1 <=? LLONG_MAX)); simpl;
          [|thrown].
        assert ((n + -1 <? 0) = false) as -> by lia. simpl.
        rewrite lookup_insert_ne by done. rewrite EA. simpl. thrown.
    + rewrite EA. simpl. thrown.
Qed.

Lemma restoreStock_throws p s e s' :
  RedisService.restoreStock p s = (Throw e, s') → data s' = data s.
Proof.
  unfold RedisService.restoreStock, RedisService.executeScript, eval,
    RESTORE_STOCK_SCRIPT, redis_call, call, bind, ret. simpl.
  change ("flashsale:stock:" +:+ p) with (stock_key p).
  destruct (data s !! stock_key p) as [[v t|]|] eqn:ES; simpl.
  - destruct (incr_by 1 (stock_key p) (data s)) as [[r|e'] db] eqn:E; simpl.
    + done.
    + intros [= <- <-]. simpl. by apply incr_by_throws in E.
  - thrown.
  - destruct (incr_by 1 (stock_key p) (data s)) as [[r|e'] db] eqn:E; simpl.
    + done.
    + intros [= <- <-]. simpl. by apply incr_by_throws in E.
Qed.

Lemma query_keeps_data (op : operation) s :
  written_keys op = [] → data (perform op s).2 = data s.
Proof.
  intros H. apply map_eq. intros k. apply operations_change_only.
  rewrite H. set_solver.
Qed.

(** X7. A failed operation changes nothing.  Whenever an operation of the
    Redis client throws (a key of the wrong kind, a counter that is not an
    integer or would leave the 64-bit range), the data of the store are
    what they were before the call: no script writes before a command that
    can fail. *)
Theorem failed_operation_changes_nothing (op : operation) (s s' : Redis.server)
    (e : exn) :
  perform op s = (Throw e, s') → Redis.data s' = Redis.data s.
Proof.
  intros H.
  assert (Hs : s' = (perform op s).2) by by rewrite H.
  destruct op as [u p|p|p|p|p|p|p n|u p|u p|u p|u p b|u p];
    try (rewrite Hs; by apply query_keeps_data).
  all: simpl in H; unfold bind, ret in H.
  all: try (by rewrite initializeStock_run in H).
  all: try (by rewrite setUserResult_run in H).
  - destruct (RedisService.attemptPurchase u p s) as [[r|e'] s1] eqn:E; [done|].
    injection H as <- <-. by eapply tryReserve_throws.
  - unfold RedisService.decrementStock, RedisService.client, bind, ret in H.
    destruct (call _ s) as [[r|e'] s1] eqn:E; [done|].
    injection H as <- <-. by eapply call_throws.
  - unfold RedisService.incrementStock, RedisService.client, bind, ret in H.
    destruct (call _ s) as [[r|e'] s1] eqn:E; [done|].
    injection H as <- <-. by eapply call_throws.
  - destruct (RedisService.restoreStock p s) as [[r|e'] s1] eqn:E; [done|].
    injection H as <- <-. by eapply restoreStock_throws.
  - unfold RedisService.addUserToAttemptedSet, RedisService.client, bind, ret in H.
    destruct (call _ s) as [[r|e'] s1] eqn:E; [done|].
    injection H as <- <-. by eapply call_throws.
Qed.

Lemma failed_operation_changes_nothing_witness :
  ∃ e s',
    perform (AttemptPurchase "7" "1")
      (Redis.Server {[ stock_key "1" := Redis.SetV ∅ ]} [])
    = (Throw e, s')
    ∧ Redis.data s' = {[ stock_key "1" := Redis.SetV ∅ ]}.
Proof.
  eexists _, _.
  assert (H : perform (AttemptPurchase "7" "1")
                (Redis.Server {[ stock_key "1" := Redis.SetV ∅ ]} [])
              = (Throw WRONGTYPE,
                 Redis.Server {[ stock_key "1" := Redis.SetV ∅ ]}
                   [SISMEMBER (attempted_key "1") "7"; GET (stock_key "1")]))
    by (vm_compute; reflexivity).
  split; [exact H|].
  exact (failed_operation_changes_nothing _ _ _ _ H).
Defined.

(** ** The finalizer, one delivery *)

Lemma getStock_any p s :
  ∃ r, RedisService.getStock p s = (r, Server (data s) (log s ++ [GET (stock_key p)]))
       ∧ match r with Throw e => e = WRONGTYPE | Ok _ => True end.
Proof.
  unfold RedisService.getStock, RedisService.client, call, bind, ret. simpl.
  change ("flashsale:stock:" +:+ p) with (stock_key p).
  destruct (data s !! stock_key p) as [[v t|]|]; simpl; by eexists.
Qed.

Lemma create_outcome u p sale user w :
  JS.parseInt u = Some user → order_of sale user w = None →
  ∃ r w',
    OrderRepository.create
      {| OrderRepository.id := None;
         OrderRepository.order_userId := u;
         OrderRepository.order_productId := p;
         OrderRepository.order_saleId := Some sale;
         OrderRepository.status := SUCCESS;
         OrderRepository.attemptId := None |} w = (r, w')
    ∧ redis w' = redis w ∧ flash_sales w' = flash_sales w ∧ products w' = products w
    ∧ topic w' = topic w ∧ purchase_attempts w' = purchase_attempts w
    ∧ clock w' = clock w ∧ kafka_available w' = kafka_available w
    ∧ ((∃ e, r = Throw e ∧ includes "already exists" (message e) = false
             ∧ orders w' = orders w)
       ∨ ∃ product,
           JS.parseInt p = Some product
           ∧ is_Some (flash_sales w !! sale) ∧ product ∈ products w ∧ sale ≠ 0
           ∧ r = Ok (OrderRepository.of_row
                       {| row_id := orders_id_seq w; row_sale_id := sale;
                          row_product_id := product; row_user_id := user;
                          row_status := SUCCESS; row_attempt_id := None |})
           ∧ orders w' = orders w ++ [{| row_id := orders_id_seq w; row_sale_id := sale;
                                         row_product_id := product; row_user_id := user;
                                         row_status := SUCCESS; row_attempt_id := None |}]).
Proof.
  intros Hu Ho.
  unfold OrderRepository.create, try_catch, bind, ret, throw. cbn.
  rewrite Hu.
  destruct (decide (sale = 0)) as [->|Hs].
  { eexists _, _. split; [reflexivity|]. split_and!; try done.
    left. eexists. split; [reflexivity|]. split; [|done]. vm_compute. reflexivity. }
  assert (Hm : ∀ (A : Type) (x y : A),
             match sale with 0 => x | _ => y end = y) by (by destruct sale).
  rewrite Hm.
  destruct (JS.parseInt p) as [product|] eqn:Ep; cycle 1.
  { eexists _, _. split; [reflexivity|]. split_and!; try done.
    left. eexists. split; [reflexivity|]. split; [|done]. vm_compute. reflexivity. }
  unfold OrderRepository.insert. rewrite find_existsb. fold (order_of sale user w).
  rewrite Ho.
  destruct (bool_decide (is_Some (flash_sales w !! sale))) eqn:Hfs; cbn; cycle 1.
  { eexists _, _. split; [reflexivity|]. cbn. split_and!; try done.
    left. eexists. split; [reflexivity|]. split; [|done]. vm_compute. reflexivity. }
  destruct (bool_decide (product ∈ products w)) eqn:Hpr; cbn; cycle 1.
  { eexists _, _. split; [reflexivity|]. cbn. split_and!; try done.
    left. eexists. split; [reflexivity|]. split; [|done]. vm_compute. reflexivity. }
  apply bool_decide_eq_true in Hfs, Hpr.
  eexists _, _. split; [reflexivity|]. cbn. split_and!; try done.
  right. exists product. split_and!; done.
Qed.

Lemma handler_run attempt w :
  ∃ b w',
    run (Worker.processFlashSaleAttempt attempt) w = (Ok tt, w')
    ∧ data (redis w')
      = <[result_key (userId attempt) (productId attempt)
          := Str (encode_result b) (Some 86400)]> (data (redis w))
    ∧ flash_sales w' = flash_sales w ∧ products w' = products w
    ∧ topic w' = topic w ∧ purchase_attempts w' = purchase_attempts w
    ∧ clock w' = clock w ∧ kafka_available w' = kafka_available w
    ∧ (orders w' = orders w ∧ b = false
         ∧ (∀ sid sale user,
              saleId attempt = Some sid → JS.parseInt sid = Some sale →
              JS.parseInt (userId attempt) = Some user →
              order_of sale user w = None)
       ∨ orders w' = orders w
         ∧ (∃ sid sale user row,
              saleId attempt = Some sid ∧ JS.parseInt sid = Some sale
              ∧ JS.parseInt (userId attempt) = Some user
              ∧ order_of sale user w = Some row
              ∧ b = Worker.is_success (row_status row))
       ∨ ∃ sid sale user product,
           saleId attempt = Some sid ∧ JS.parseInt sid = Some sale
           ∧ JS.parseInt (userId attempt) = Some user
           ∧ JS.parseInt (productId attempt) = Some product
           ∧ order_of sale user w = None
           ∧ is_Some (flash_sales w !! sale) ∧ product ∈ products w ∧ sale ≠ 0
           ∧ orders w' = orders w ++ [{| row_id := orders_id_seq w; row_sale_id := sale;
                                         row_product_id := product; row_user_id := user;
                                         row_status := SUCCESS; row_attempt_id := None |}]
           ∧ b = true).
Proof.
  unfold Worker.processFlashSaleAttempt.
  destruct (saleId attempt) as [[|c sid']|] eqn:Esid.
  1, 3: cbn; rewrite (on_redis_eq _ _ _ _ (setUserResult_run _ _ _ _)); cbn;
    exists false; eexists; split; [reflexivity|]; cbn; split_and!; try done; left;
    split_and!; try done; by intros ? ? ? [= <-].
  set (sid := String c sid') in *.
  cbn. unfold OrderRepository.findByUserId.
  destruct (JS.parseInt (userId attempt)) as [user|] eqn:Eu; cycle 1.
  { cbn. rewrite (on_redis_eq _ _ _ _ (setUserResult_run _ _ _ _)). cbn.
    exists false. eexists. split; [reflexivity|]. cbn. split_and!; try done. left.
    split_and!; done. }
  destruct (JS.parseInt sid) as [sale|] eqn:Es; cycle 1.
  { cbn. rewrite (on_redis_eq _ _ _ _ (setUserResult_run _ _ _ _)). cbn.
    exists false. eexists. split; [reflexivity|]. cbn. split_and!; try done. left.
    split_and!; try done. intros ? ? ? [= <-]. congruence. }
  assert (Hnone : order_of sale user w = None →
                  ∀ sid0 sale0 user0,
                    Some sid = Some sid0 → JS.parseInt sid0 = Some sale0 →
                    Some user = Some user0 → order_of sale0 user0 w = None).
  { intros Ho ? ? ? [= <-] Hs0 [= <-]. congruence. }
  cbn. fold (order_of sale user w).
  destruct (order_of sale user w) as [row|] eqn:Eo; cbn.
  { rewrite (on_redis_eq _ _ _ _ (setUserResult_run _ _ _ _)). cbn.
    eexists _, _. split; [reflexivity|]. cbn. split_and!; try done.
    right. left. split; [done|]. by exists sid, sale, user, row. }
  destruct (getStock_any (productId attempt) (redis w)) as (r & Er & He).
  rewrite (on_redis_eq _ _ _ _ Er). cbn.
  destruct r as [[n|]|e]; cbn; [destruct (n <? 0) eqn:Hn; cbn| |subst e; cbn].
  2, 3: match goal with
    | |- context [OrderRepository.create ?o ?w0] =>
        destruct (create_outcome (userId attempt) (productId attempt) sale user w0 Eu)
          as (rc & w1 & Ec & R1 & R2 & R3 & R4 & R5 & R6 & R7 & Hr); [exact Eo|]
    end;
    rewrite Ec; cbn in R1, R2, R3, R4, R5, R6, R7;
    destruct Hr as [(e & -> & Hinc & Hord)|(product & Ep & Hfs & Hpr & Hs0 & -> & Hord)];
    cbn;
    [ rewrite Hinc; cbn;
      rewrite (on_redis_eq _ _ _ _ (setUserResult_run _ _ _ _)); cbn;
      exists false; eexists; split; [reflexivity|]; cbn; rewrite R1; cbn;
      split_and!; try done; left; split_and!; [by rewrite Hord|done|by apply Hnone]
    | rewrite (on_redis_eq _ _ _ _ (setUserResult_run _ _ _ _)); cbn;
      exists true; eexists; split; [reflexivity|]; cbn; rewrite R1; cbn;
      split_and!; try done; right; right;
      exists sid, sale, user, product; cbn in Hfs, Hpr, Hord; split_and!; done ].
  all: rewrite (on_redis_eq _ _ _ _ (setUserResult_run _ _ _ _)); cbn;
    exists false; eexists; split; [reflexivity|]; cbn; split_and!; try done; left;
    split_and!; try done; by apply Hnone.
Qed.

(** X8. The finalizer always settles.  On an orders table whose ids were
    issued by its sequence (so that an insert cannot meet the primary key
    of a row that is there), whatever the message and whatever else the
    stores hold, [processFlashSaleAttempt] returns without throwing, and
    on return the Result Cache entry of the message's user and product
    holds "1" or "0" with a TTL of 86400 seconds: every delivered message
    ends the user's wait.  The ids of the table are still those of the
    sequence afterwards. *)
Theorem finalizer_always_settles (attempt : FlashSaleAttempt) (w : World) :
  order_ids_fresh w →
  ∃ w' v,
    run (Worker.processFlashSaleAttempt attempt) w = (Ok tt, w')
    ∧ ResultCache (redis w') (userId attempt) (productId attempt)
      = Some (v, Some 86400)
    ∧ (v = "1" ∨ v = "0")
    ∧ order_ids_fresh w'.
Proof.
  intros Hfresh.
  pose proof (run_keeps_fresh _ (handler_keeps_fresh attempt) w Hfresh) as Hf.
  destruct (handler_run attempt w) as (b & w' & Hrun & Hdata & _).
  rewrite Hrun in Hf.
  exists w', (encode_result b). split; [exact Hrun|].
  unfold ResultCache. rewrite Hdata, lookup_insert_eq. split; [done|].
  split; [|exact Hf].
  destruct b; [by left|by right].
Qed.

Lemma finalizer_always_settles_witness :
  ∃ w',
    run (Worker.processFlashSaleAttempt sample_attempt) after_first_attempt = (Ok tt, w')
    ∧ ResultCache (redis w') "7" "1" = Some ("1", Some 86400).
Proof.
  assert (H : order_ids_fresh after_first_attempt) by (vm_compute; constructor).
  destruct (finalizer_always_settles sample_attempt after_first_attempt H)
    as (w' & v & Hrun & Hcache & _).
  exists w'. split; [exact Hrun|].
  assert (Hw : w' = (run (Worker.processFlashSaleAttempt sample_attempt)
                       after_first_attempt).2) by (by rewrite Hrun).
  rewrite Hw. vm_compute. reflexivity.
Defined.


(** X10. The finalizer leaves the reservation alone.  A delivery changes
    no stock counter and no attempted set, whatever its outcome: when the
    order cannot be created the result is FAILED and the unit of stock the
    reservation took is not given back.  It enqueues nothing, and the
    orders table only grows, by at most one SUCCESS row. *)
Theorem finalizer_leaves_reservation_alone (attempt : FlashSaleAttempt) (w : World) :
  (∀ q, StockCounter (redis (run (Worker.processFlashSaleAttempt attempt) w).2) q
        = StockCounter (redis w) q
        ∧ AttemptedSet (redis (run (Worker.processFlashSaleAttempt attempt) w).2) q
          = AttemptedSet (redis w) q)
  ∧ topic (run (Worker.processFlashSaleAttempt attempt) w).2 = topic w
  ∧ (orders (run (Worker.processFlashSaleAttempt attempt) w).2 = orders w
     ∨ ∃ row, orders (run (Worker.processFlashSaleAttempt attempt) w).2
              = orders w ++ [row]
              ∧ row_status row = SUCCESS).
Proof.
  destruct (handler_run attempt w)
    as (b & w' & Hrun & Hdata & _ & _ & Htopic & _ & _ & _ & Hcases).
  rewrite Hrun. cbn [snd]. split_and!.
  - intros q. unfold StockCounter, AttemptedSet. rewrite Hdata.
    rewrite !lookup_insert_ne; [done| |].
    + intros E. symmetry in E. by apply attempted_result_ne in E.
    + intros E. symmetry in E. by apply stock_result_ne in E.
  - exact Htopic.
  - destruct Hcases as [(Ho & _)|[(Ho & _)|(sid & sale & user & product & H)]].
    + by left.
    + by left.
    + right. destruct H as (_ & _ & _ & _ & _ & _ & _ & _ & Ho & _).
      eexists. split; [exact Ho|done].
Qed.

Lemma handler_creates attempt sid sale user product w :
  saleId attempt = Some sid → JS.parseInt sid = Some sale → sale ≠ 0 →
  JS.parseInt (userId attempt) = Some user →
  JS.parseInt (productId attempt) = Some product →
  order_of sale user w = None →
  is_Some (flash_sales w !! sale) → product ∈ products w →
  stock_wf (redis w) (productId attempt) →
  0 ≤ counter_or_zero (redis w) (productId attempt) →
  ∃ w',
    run (Worker.processFlashSaleAttempt attempt) w = (Ok tt, w')
    ∧ orders w' = orders w ++ [{| row_id := orders_id_seq w; row_sale_id := sale;
                                  row_product_id := product; row_user_id := user;
                                  row_status := SUCCESS; row_attempt_id := None |}]
    ∧ data (redis w')
      = <[result_key (userId attempt) (productId attempt) := Str "1" (Some 86400)]>
          (data (redis w))
    ∧ flash_sales w' = flash_sales w ∧ topic w' = topic w
    ∧ clock w' = clock w ∧ kafka_available w' = kafka_available w.
Proof.
  intros Esid Es Hs0 Eu Ep Eo Hfs Hpr Hwf Hpos.
  unfold Worker.processFlashSaleAttempt. rewrite Esid.
  destruct sid as [|c sid'].
  { exfalso. revert Es. by vm_compute. }
  set (sid := String c sid') in *.
  cbn. unfold OrderRepository.findByUserId. rewrite Eu, Es. cbn.
  fold (order_of sale user w). rewrite Eo. cbn.
  rewrite (on_redis_eq _ _ _ _ (getStock_run _ _ Hwf)). cbn.
  assert ((counter_or_zero (redis w) (productId attempt) <? 0) = false) as -> by lia.
  cbn.
  match goal with
  | |- context [OrderRepository.create ?o ?w0] =>
      assert (Ec : OrderRepository.create o w0
                   = (Ok (OrderRepository.of_row
                            {| row_id := orders_id_seq w; row_sale_id := sale;
                               row_product_id := product; row_user_id := user;
                               row_status := SUCCESS; row_attempt_id := None |}),
                      set_orders
                        (orders w ++ [{| row_id := orders_id_seq w; row_sale_id := sale;
                                         row_product_id := product; row_user_id := user;
                                         row_status := SUCCESS; row_attempt_id := None |}])
                        (orders_id_seq w + 1) w0))
  end.
  { unfold OrderRepository.create, try_catch, bind, ret, throw. cbn.
    rewrite Eu, Ep.
    assert (Hm : ∀ (A : Type) (x y : A),
               match sale with 0 => x | _ => y end = y) by (by destruct sale).
    rewrite Hm.
    unfold OrderRepository.insert. cbn. rewrite find_existsb.
    fold (order_of sale user w). rewrite Eo.
    rewrite !bool_decide_eq_true_2 by done. done. }
  rewrite Ec. cbn.
  rewrite (on_redis_eq _ _ _ _ (setUserResult_run _ _ _ _)). cbn.
  eexists. split; [reflexivity|]. cbn. done.
Qed.

(** ** The orchestrator, one request *)

Lemma on_redis_any {A} (m : M server A) w :
  ∃ r s, on_redis m w = (r, set_redis s w).
Proof. unfold on_redis. destruct (m (redis w)) as [r s]. by exists r, s. Qed.

Ltac step_on_redis r s :=
  match goal with
  | |- context [on_redis ?m ?w0] =>
      let E := fresh "E" in
      destruct (on_redis_any m w0) as (r & s & E); rewrite E; clear E; cbn
  end.

Ltac refuse :=
  split_and!; try done; right; split; [by intros [=]|done].

Ltac step_audit :=
  match goal with
  | |- context [PurchaseAttemptRepository.create ?a ?w0] =>
      let rows := fresh "rows" in
      let E := fresh "E" in
      destruct (audit_create_run a w0) as [rows E]; rewrite E; clear E; cbn
  end.

Section Requests.

Variable toISOString : Z → string.


Lemma product_wf_data s s' p :
  data s' !! stock_key p = data s !! stock_key p →
  data s' !! attempted_key p = data s !! attempted_key p →
  (product_wf s p → product_wf s' p)
  ∧ StockCounter s' p = StockCounter s p
  ∧ AttemptedSet s' p = AttemptedSet s p.
Proof.
  intros E1 E2. unfold product_wf, stock_wf, attempted_wf, StockCounter, AttemptedSet.
  by rewrite E1, E2.
Qed.

Lemma getUserStatus_keeps_data u p s :
  data (RedisService.getUserStatus u p s).2 = data s.
Proof.
  pose proof (query_keeps_data (GetUserStatus u p) s eq_refl) as H.
  simpl in H. unfold bind, ret in H.
  by destruct (RedisService.getUserStatus u p s) as [[r|e] s1].
Qed.

Lemma request_step (u : string) (sid : Z) (w : World) (sale : FlashSale) (c : Z) :
  flash_sales w !! sid = Some sale →
  startAt sale ≤ clock w ≤ endAt sale →
  product_wf (redis (ensure_stock sale w)) (string_of_Z (sale_productId sale)) →
  StockCounter (redis (ensure_stock sale w)) (string_of_Z (sale_productId sale))
  = Some c →
  0 ≤ c →
  ∃ c',
    product_wf (redis (run (FlashSaleService.attemptPurchase toISOString u sid) w).2)
      (string_of_Z (sale_productId sale))
    ∧ StockCounter (redis (run (FlashSaleService.attemptPurchase toISOString u sid) w).2)
        (string_of_Z (sale_productId sale)) = Some c'
    ∧ 0 ≤ c' ∧ c - 1 ≤ c' ≤ c
    ∧ c' + Z.of_nat
             (length (topic (run (FlashSaleService.attemptPurchase toISOString u sid) w).2))
      = c + Z.of_nat (length (topic w))
    ∧ flash_sales (run (FlashSaleService.attemptPurchase toISOString u sid) w).2
      = flash_sales w
    ∧ orders (run (FlashSaleService.attemptPurchase toISOString u sid) w).2 = orders w.
Proof.
  intros Es [Hw1 Hw2] Hwf Hc Hc0.
  set (p := string_of_Z (sale_productId sale)) in *.
  rewrite ensure_stock_eq in Hwf, Hc. fold p in Hwf, Hc.
  unfold FlashSaleService.attemptPurchase, FlashSaleRepository.findById. cbn. rewrite Es. cbn.
  assert ((clock w <? startAt sale) = false) as -> by lia.
  assert ((endAt sale <? clock w) = false) as -> by lia.
  cbn. fold p.
  rewrite (on_redis_eq _ _ _ _ (stockKeyExists_run _ _)).
  destruct (data (redis w) !! stock_key p) as [ent|] eqn:Ek; cbn;
    cbn in Hwf, Hc.
  2: rewrite (on_redis_eq _ _ _ _ (initializeStock_run _ _ _)); cbn.
  all: match goal with
       | |- context [on_redis (RedisService.attemptPurchase _ _) ?W] =>
           set (w0 := W);
           match type of Hc with
           | StockCounter ?S0 _ = _ =>
               destruct (product_wf_data S0 (redis w0) p eq_refl eq_refl)
                 as (Hwf0 & Hc0' & _)
           end;
           specialize (Hwf0 Hwf); rewrite Hc in Hc0'
       end.
  all: destruct Hwf0 as [HS0 HA0].
  all: destruct (tryReserve_step u p (redis w0) HA0 HS0)
         as (r & s' & E & HA' & HS' & _ & _ & _ & _ & Hcount & _).
  all: unfold tryReserve in E.
  all: rewrite (on_redis_eq _ w0 _ _ E); cbn.
  all: destruct (Hcount c Hc0') as [Hc' Hpos].
  all: assert (Hclose : ∀ S,
            data S !! stock_key p = data s' !! stock_key p →
            data S !! attempted_key p = data s' !! attempted_key p →
            product_wf S p ∧ StockCounter S p = StockCounter s' p)
         by (intros S E1 E2; destruct (product_wf_data s' S p E1 E2) as (W & C & _);
             split; [by apply W|done]).
  all: assert (Hres : ∀ (d : gmap string entry) v,
            <[result_key u p := v]> d !! stock_key p = d !! stock_key p
            ∧ <[result_key u p := v]> d !! attempted_key p = d !! attempted_key p)
         by (intros d v; rewrite !lookup_insert_ne; [done| |];
             intros H; symmetry in H;
             [by apply attempted_result_ne in H|by apply stock_result_ne in H]).
  all: destruct (RedisService.success r) eqn:Hsucc; cycle 1.
  1, 3: rewrite Z.sub_0_r in Hc';
    destruct (RedisService.wasNewAttempt r); cbn;
    [ rewrite (on_redis_eq _ _ _ _ (setUserResult_run _ _ _ _)); cbn;
      exists c;
      match goal with
      | |- product_wf ?S _ ∧ _ =>
          destruct (Hclose S) as [W C]; [apply Hres..|]; rewrite C
      end;
      (split_and!; try done; lia)
    | unfold on_redis; cbn;
      pose proof (getUserStatus_keeps_data u p s') as Hd;
      destruct (RedisService.getUserStatus u p s') as [[st|e] s3]; cbn in *;
      (destruct (Hclose s3) as [W C]; [by rewrite Hd..|]);
      exists c;
      [ destruct (RedisService.hasResult st), (RedisService.result st) as [[]|];
        cbn; rewrite C; (split_and!; try done; lia)
      | rewrite C; (split_and!; try done; lia) ] ].
  all: specialize (Hpos eq_refl).
  all: destruct (tryReserve_granted_inv u p (redis w0) r s' E Hsucc)
         as (v & t & n & _ & _ & _ & _ & Hnew & _).
  all: rewrite Hnew; cbn; step_audit.
  all: unfold KafkaProducer.sendAttempt; cbn.
  all: destruct (kafka_available w); cbn.
  1, 3: exists (c - 1); rewrite length_app; cbn; split_and!; try done; lia.
  all: assert (Hlook : ∃ v' t', data s' !! stock_key p = Some (Str v' t')
                                ∧ integer_of v' = Some (c - 1))
         by (unfold StockCounter in Hc';
             destruct (data s' !! stock_key p) as [[v' t'|]|]; try done;
             by exists v', t').
  all: destruct Hlook as (v' & t' & El & Ei).
  all: assert (Hmax : c ≤ LLONG_MAX)
         by (unfold StockCounter in Hc0';
             destruct (data (redis w0) !! stock_key p) as [[v0 t0|]|]; try done;
             by apply integer_of_Some in Hc0' as (_ & _ & _ & ?)).
  all: assert (Hlt : c - 1 < LLONG_MAX) by lia.
  all: match goal with
       | |- context [on_redis (RedisService.restoreStock _) ?W] =>
           rewrite (on_redis_eq (RedisService.restoreStock p) W _ _
                      (restoreStock_run p s' v' t' (c - 1) El Ei Hlt))
       end.
  all: cbn; replace (c - 1 + 1) with c by lia.
  all: assert (Hi : integer_of (string_of_Z c) = Some c)
         by (apply integer_of_string_of_Z; unfold LLONG_MIN; lia).
  all: exists c; unfold product_wf, stock_wf, attempted_wf, StockCounter; cbn.
  all: rewrite lookup_insert_eq, Hi.
  all: rewrite lookup_insert_ne by apply stock_attempted_ne.
  all: split_and!; try done; try lia.
Qed.

Lemma request_outside (u : string) (sid : Z) (w : World) :
  match flash_sales w !! sid with
  | Some sale => ¬ (startAt sale ≤ clock w ≤ endAt sale)
  | None => True
  end →
  (run (FlashSaleService.attemptPurchase toISOString u sid) w).2 = w.
Proof.
  unfold FlashSaleService.attemptPurchase, FlashSaleRepository.findById. cbn.
  destruct (flash_sales w !! sid) as [sale|]; cbn;
    [|by destruct (bigint_parameter sid)].
  intros H.
  destruct (clock w <? startAt sale) eqn:E1; cbn; [done|].
  destruct (endAt sale <? clock w) eqn:E2; cbn; [done|].
  exfalso. apply H. lia.
Qed.

Lemma ensure_stock_existing sale w :
  is_Some (data (redis w) !! stock_key (string_of_Z (sale_productId sale))) →
  data (redis (ensure_stock sale w)) = data (redis w).
Proof. intros [ent E]. rewrite ensure_stock_eq, E. done. Qed.


Lemma request_accepted (u : string) (sid : Z) (w : World) (sale : FlashSale) (n : Z) :
  flash_sales w !! sid = Some sale →
  startAt sale ≤ clock w ≤ endAt sale →
  product_wf (redis (ensure_stock sale w)) (string_of_Z (sale_productId sale)) →
  StockCounter (redis (ensure_stock sale w)) (string_of_Z (sale_productId sale))
  = Some n →
  0 < n →
  u ∉ AttemptedSet (redis (ensure_stock sale w)) (string_of_Z (sale_productId sale)) →
  kafka_available w = true →
  ∃ w' t,
    run (FlashSaleService.attemptPurchase toISOString u sid) w
    = (Ok {| FlashSaleService.success := true;
             FlashSaleService.message :=
               "Your purchase attempt has been received and is being processed." |}, w')
    ∧ data (redis w')
      = <[attempted_key (string_of_Z (sale_productId sale))
          := SetV ({[u]} ∪ AttemptedSet (redis (ensure_stock sale w))
                             (string_of_Z (sale_productId sale)))]>
          (<[stock_key (string_of_Z (sale_productId sale))
             := Str (string_of_Z (n - 1)) t]> (data (redis (ensure_stock sale w))))
    ∧ topic w' = topic w
                 ++ [(u, {| userId := u;
                            productId := string_of_Z (sale_productId sale);
                            saleId := Some (string_of_Z sid);
                            timestamp := clock w |})]
    ∧ orders w' = orders w ∧ orders_id_seq w' = orders_id_seq w
    ∧ flash_sales w' = flash_sales w ∧ products w' = products w
    ∧ clock w' = clock w ∧ kafka_available w' = kafka_available w.
Proof.
  intros Es [Hw1 Hw2] [HS HA] Hn Hpos Hu Hk.
  set (p := string_of_Z (sale_productId sale)) in *.
  assert (Hlook : ∃ v t, data (redis (ensure_stock sale w)) !! stock_key p
                         = Some (Str v t) ∧ integer_of v = Some n).
  { unfold StockCounter in Hn.
    destruct (data (redis (ensure_stock sale w)) !! stock_key p) as [[v t|]|]; try done.
    by exists v, t. }
  destruct Hlook as (v & t & El & Ei).
  pose proof (tryReserve_granted u p _ v t n HA Hu El Ei Hpos) as Hres.
  unfold FlashSaleService.attemptPurchase, FlashSaleRepository.findById. cbn. rewrite Es. cbn.
  assert ((clock w <? startAt sale) = false) as -> by lia.
  assert ((endAt sale <? clock w) = false) as -> by lia.
  cbn. rewrite (on_redis_eq _ _ _ _ (stockKeyExists_run _ _)).
  rewrite ensure_stock_eq in Hres |- *. unfold tryReserve in Hres.
  fold p in Hres |- *.
  destruct (data (redis w) !! stock_key p) eqn:Ek; cbn.
  - erewrite on_redis_eq by exact Hres. cbn.
    step_audit.
    unfold KafkaProducer.sendAttempt. cbn. rewrite Hk. cbn.
    eexists _, t. split; [reflexivity|]. cbn. by rewrite Hk.
  - rewrite (on_redis_eq _ _ _ _ (initializeStock_run _ _ _)). cbn.
    rewrite <- app_assoc. cbn.
    erewrite on_redis_eq by exact Hres. cbn.
    step_audit.
    unfold KafkaProducer.sendAttempt. cbn. rewrite Hk. cbn.
    eexists _, t. split; [reflexivity|]. cbn. by rewrite Hk.
Qed.

Lemma the_worker_run attempt w :
  run (the_worker (Some attempt)) w = run (Worker.processFlashSaleAttempt attempt) w.
Proof.
  unfold the_worker, KafkaConsumer.eachMessage. rewrite run_ptry.
  destruct (handler_run attempt w) as (b & w' & -> & _). done.
Qed.

Lemma happen_keeps (sid : Z) (sale : FlashSale) (K O : Z) (e : event) (st : Pipeline) :
  flash_sales (world st) !! sid = Some sale →
  (∃ c, product_wf (redis (world st)) (string_of_Z (sale_productId sale))
        ∧ StockCounter (redis (world st)) (string_of_Z (sale_productId sale)) = Some c
        ∧ 0 ≤ c
        ∧ c + Z.of_nat (length (topic (world st))) = K) →
  (offset st ≤ length (topic (world st)))%nat →
  Z.of_nat (length (orders (world st))) ≤ O + Z.of_nat (offset st) →
  flash_sales (world (happen toISOString sid e st)) !! sid = Some sale
  ∧ (∃ c, product_wf (redis (world (happen toISOString sid e st)))
            (string_of_Z (sale_productId sale))
          ∧ StockCounter (redis (world (happen toISOString sid e st)))
              (string_of_Z (sale_productId sale)) = Some c
          ∧ 0 ≤ c
          ∧ c + Z.of_nat (length (topic (world (happen toISOString sid e st)))) = K)
  ∧ (offset (happen toISOString sid e st)
     ≤ length (topic (world (happen toISOString sid e st))))%nat
  ∧ Z.of_nat (length (orders (world (happen toISOString sid e st))))
    ≤ O + Z.of_nat (offset (happen toISOString sid e st)).
Proof.
  intros Es (c & Hwf & Hc & Hc0 & HK) Hoff Hord.
  destruct e as [u|]; cbn [happen world offset].
  - destruct (decide (startAt sale ≤ clock (world st) ≤ endAt sale)) as [Hin|Hout].
    + assert (Hd : data (redis (ensure_stock sale (world st))) = data (redis (world st))).
      { apply ensure_stock_existing. unfold StockCounter in Hc.
        by destruct (data (redis (world st)) !! _). }
      destruct (product_wf_data (redis (world st)) (redis (ensure_stock sale (world st)))
                  (string_of_Z (sale_productId sale))) as (W & C & _);
        [by rewrite Hd..|].
      rewrite Hc in C.
      destruct (request_step u sid (world st) sale c Es Hin (W Hwf) C Hc0)
        as (c' & Hwf' & Hc' & Hc0' & Hcc & Hsum & Hfs & Ho).
      rewrite Hfs, Ho. split_and!; try done.
      * exists c'. split_and!; try done; lia.
      * lia.
    + rewrite request_outside; [|by rewrite Es].
      split_and!; try done. by exists c.
  - destruct (topic (world st) !! offset st) as [[key attempt]|] eqn:Et;
      cbn [world offset].
    + rewrite the_worker_run.
      destruct (handler_run attempt (world st))
        as (b & w' & Hrun & Hdata & Hfs & _ & Htopic & _ & _ & _ & Hcases).
      rewrite Hrun. cbn [snd].
      rewrite Hfs, Htopic.
      apply lookup_lt_Some in Et.
      destruct (product_wf_data (redis (world st)) (redis w')
                  (string_of_Z (sale_productId sale))) as (W & C & _).
      { rewrite Hdata. rewrite lookup_insert_ne; [done|].
        intros H. symmetry in H. by apply stock_result_ne in H. }
      { rewrite Hdata. rewrite lookup_insert_ne; [done|].
        intros H. symmetry in H. by apply attempted_result_ne in H. }
      split_and!; try done.
      * exists c. rewrite C. by split_and!; [apply W|..].
      * destruct Hcases as [(Ho & _)|[(Ho & _)|(? & ? & ? & ? & H)]].
        -- rewrite Ho. lia.
        -- rewrite Ho. lia.
        -- destruct H as (_ & _ & _ & _ & _ & _ & _ & _ & Ho & _).
           rewrite Ho, length_app. cbn. lia.
    + split_and!; try done. by exists c.
Qed.

Lemma play_keeps (sid : Z) (sale : FlashSale) (K O : Z) (events : list event) :
  ∀ st,
  flash_sales (world st) !! sid = Some sale →
  (∃ c, product_wf (redis (world st)) (string_of_Z (sale_productId sale))
        ∧ StockCounter (redis (world st)) (string_of_Z (sale_productId sale)) = Some c
        ∧ 0 ≤ c
        ∧ c + Z.of_nat (length (topic (world st))) = K) →
  (offset st ≤ length (topic (world st)))%nat →
  Z.of_nat (length (orders (world st))) ≤ O + Z.of_nat (offset st) →
  (∃ c, product_wf (redis (world (play toISOString sid events st)))
          (string_of_Z (sale_productId sale))
        ∧ StockCounter (redis (world (play toISOString sid events st)))
            (string_of_Z (sale_productId sale)) = Some c
        ∧ 0 ≤ c
        ∧ c + Z.of_nat (length (topic (world (play toISOString sid events st)))) = K)
  ∧ (offset (play toISOString sid events st)
     ≤ length (topic (world (play toISOString sid events st))))%nat
  ∧ Z.of_nat (length (orders (world (play toISOString sid events st))))
    ≤ O + Z.of_nat (offset (play toISOString sid events st)).
Proof.
  induction events as [|e rest IH]; intros st Es Hinv Hoff Hord; simpl; [done|].
  destruct (happen_keeps sid sale K O e st Es Hinv Hoff Hord) as (Es' & Hinv' & Hoff' & Hord').
  by apply IH.
Qed.



End Requests.




(** ** The HTTP routes *)

Section RouteProperties.

Variable toISOString : Z → string.

(** X15. The purchase route.  A request without an authenticated user is
    answered 401, and one whose [saleId] parameter is not a positive
    integer for [parseInt] is answered 400; in both cases the service is
    not called and nothing changes.  Any other request (with an id below
    2^53, which JavaScript holds exactly) is answered with what
    [attemptPurchase] returns for the parsed id: 200 when it reports
    success, 400 when it reports a refusal, and 500 with the error's
    message when it throws.  The handler itself never throws. *)
Theorem post_attempt_contract (user : option Http.User) (saleId : string) (w : World) :
  (match user with
   | None => True
   | Some user => Http.userId user = ""
   end →
   run (FlashSaleRoutes.post_attempt toISOString user saleId) w
   = (Ok (Http.unauthorized
            "User authentication required. Please provide a valid token."), w))
  ∧ ∀ u name,
      user = Some {| Http.userId := u; Http.username := name |} → u ≠ "" →
      (match JS.parseInt saleId with
       | Some n => n ≤ 0
       | None => True
       end →
       ∃ m, run (FlashSaleRoutes.post_attempt toISOString user saleId) w
            = (Ok (Http.validation_error m), w))
      ∧ ∀ n, JS.parseInt saleId = Some n → 0 < n < 2 ^ 53 →
          run (FlashSaleRoutes.post_attempt toISOString user saleId) w
          = match run (FlashSaleService.attemptPurchase toISOString u n) w with
            | (Ok result, w') =>
                (Ok {| Http.status :=
                         if FlashSaleService.success result then 200 else 400;
                       Http.body :=
                         Http.AttemptResult (FlashSaleService.success result)
                           (FlashSaleService.message result) |}, w')
            | (Throw error, w') =>
                (Ok (Http.internal_error
                       (Http.or_default (message error)
                          "Failed to process purchase attempt")), w')
            end.
Proof.
  split.
  - unfold FlashSaleRoutes.post_attempt. destruct user as [[u name]|]; cbn.
    + intros ->. done.
    + done.
  - intros u name -> Hu.
    assert (Eu : String.eqb u "" = false) by by apply String.eqb_neq.
    unfold FlashSaleRoutes.post_attempt. cbn [Http.userId]. rewrite Eu.
    assert (Es : ∀ n, JS.parseInt saleId = Some n → String.eqb saleId "" = false).
    { intros n Hn. apply String.eqb_neq. intros ->. revert Hn. by vm_compute. }
    split.
    + intros Hbad. destruct (String.eqb saleId "") eqn:E0; [by eexists|].
      destruct (JS.parseInt saleId) as [n|]; [|by eexists].
      assert ((n <=? 0) = true) as -> by lia. by eexists.
    + intros n Hn [Hpos _]. rewrite (Es n Hn), Hn.
      assert ((n <=? 0) = false) as -> by lia.
      rewrite run_ptry, run_pbind.
      destruct (run (FlashSaleService.attemptPurchase toISOString u n) w)
        as [[result|error] w']; done.
Qed.

End RouteProperties.

Lemma post_attempt_contract_witness :
  run (FlashSaleRoutes.post_attempt string_of_Z
         (Some {| Http.userId := "7"; Http.username := "user7" |}) "1abc")
      (sample_world store_of_two 150 true)
  = match run (FlashSaleService.attemptPurchase string_of_Z "7" 1)
            (sample_world store_of_two 150 true) with
    | (Ok result, w') =>
        (Ok {| Http.status := if FlashSaleService.success result then 200 else 400;
               Http.body :=
                 Http.AttemptResult (FlashSaleService.success result)
                   (FlashSaleService.message result) |}, w')
    | (Throw error, w') =>
        (Ok (Http.internal_error
               (Http.or_default (message error)
                  "Failed to process purchase attempt")), w')
    end.
Proof.
  assert (H1 : "7" ≠ "") by discriminate.
  assert (H2 : JS.parseInt "1abc" = Some 1) by (vm_compute; reflexivity).
  assert (H3 : 0 < 1 < 2 ^ 53) by (split; reflexivity).
  exact (proj2 (proj2 (post_attempt_contract string_of_Z
                         (Some {| Http.userId := "7"; Http.username := "user7" |})
                         "1abc" (sample_world store_of_two 150 true))
                  "7" "user7" eq_refl H1) 1 H2 H3).
Defined.

Lemma get_status_run (user : Http.User) (productId : string) (n : Z) (w : World) :
  Http.userId user ≠ "" → JS.parseInt productId = Some n → 0 < n →
  run (OrderRoutes.get_status (Some user) productId) w
  = (Ok match data (redis w) !! result_key (Http.userId user) (string_of_Z n) with
        | None =>
            {| Http.status := 400;
               Http.body :=
                 Http.Rejected "Bad Request"
                   "Order status not found. The purchase attempt may not have been processed yet or the key does not exist in Redis." |}
        | Some (Str v _) =>
            {| Http.status := 200;
               Http.body :=
                 Http.OrderStatusOf n (Http.userId user)
                   (if String.eqb v "1" then "SUCCESS" else "FAILED") |}
        | Some (SetV _) =>
            Http.internal_error (message WRONGTYPE)
        end,
     set_redis
       (Server (data (redis w))
          (log (redis w) ++ [GET (result_key (Http.userId user) (string_of_Z n))])) w).
Proof.
  intros Hu Hn Hpos.
  assert (Eu : String.eqb (Http.userId user) "" = false) by by apply String.eqb_neq.
  assert (Es : String.eqb productId "" = false).
  { apply String.eqb_neq. intros ->. revert Hn. by vm_compute. }
  unfold OrderRoutes.get_status. rewrite Eu, Es, Hn.
  assert ((n <=? 0) = false) as -> by lia.
  cbn. rewrite (on_redis_eq _ _ _ _ (getUserResult_run _ _ _)).
  destruct (data (redis w) !! result_key (Http.userId user) (string_of_Z n))
    as [[v t|]|]; cbn; done.
Qed.

(** X16. The order status route reads the Result Cache.  For an
    authenticated user and a [productId] parameter that [parseInt] reads as
    a positive integer [n] below 2^53, the route looks at the entry of the user and of
    product [n] in its canonical decimal form: once [setUserResult] has
    stored an outcome for them, the answer is 200 with status "SUCCESS" or
    "FAILED" accordingly; while there is no entry the answer is 400.  The
    route changes no data. *)
Theorem order_status_reads_result_cache (user : Http.User) (productId : string)
    (n : Z) (b : bool) (w : World) :
  Http.userId user ≠ "" → JS.parseInt productId = Some n → 0 < n < 2 ^ 53 →
  (run (OrderRoutes.get_status (Some user) productId)
     (on_redis (RedisService.setUserResult (Http.userId user) (string_of_Z n) b) w).2).1
  = Ok {| Http.status := 200;
          Http.body :=
            Http.OrderStatusOf n (Http.userId user)
              (if b then "SUCCESS" else "FAILED") |}
  ∧ (data (redis w) !! result_key (Http.userId user) (string_of_Z n) = None →
     ∃ m, (run (OrderRoutes.get_status (Some user) productId) w).1
          = Ok {| Http.status := 400; Http.body := Http.Rejected "Bad Request" m |})
  ∧ data (redis (run (OrderRoutes.get_status (Some user) productId) w).2)
    = data (redis w).
Proof.
  intros Hu Hn [Hpos _]. split_and!.
  - rewrite (on_redis_eq _ _ _ _ (setUserResult_run _ _ _ _)). cbn [snd].
    rewrite (get_status_run _ _ n) by done. cbn.
    rewrite lookup_insert_eq. by destruct b.
  - intros E. rewrite (get_status_run _ _ n) by done. cbn. rewrite E. by eexists.
  - rewrite (get_status_run _ _ n) by done. done.
Qed.

Lemma order_status_reads_result_cache_witness :
  (run (OrderRoutes.get_status
          (Some {| Http.userId := "7"; Http.username := "user7" |}) "01")
     (on_redis (RedisService.setUserResult "7" (string_of_Z 1) true)
        (sample_world store_of_two 150 true)).2).1
  = Ok {| Http.status := 200; Http.body := Http.OrderStatusOf 1 "7" "SUCCESS" |}.
Proof.
  assert (H1 : Http.userId {| Http.userId := "7"; Http.username := "user7" |} ≠ "")
    by discriminate.
  assert (H2 : JS.parseInt "01" = Some 1) by (vm_compute; reflexivity).
  assert (H3 : 0 < 1 < 2 ^ 53) by (split; reflexivity).
  exact (proj1 (order_status_reads_result_cache
                  {| Http.userId := "7"; Http.username := "user7" |} "01" 1 true
                  (sample_world store_of_two 150 true) H1 H2 H3)).
Defined.



(** ** The status query *)

Section StatusProperties.

Variable created_at : Z → Z.
Variable product_name : Z → option string.
Variable product_description : Z → option string.

Lemma newest_spec (rows : list (Z * FlashSale)) :
  match order_by_created_at_desc_limit_1 created_at rows with
  | None => rows = []
  | Some best =>
      best ∈ rows ∧ ∀ row, row ∈ rows → created_at row.1 ≤ created_at best.1
  end.
Proof.
  induction rows as [|row rest IH]; simpl; [done|].
  destruct (order_by_created_at_desc_limit_1 created_at rest) as [best|].
  - destruct IH as [Hin Hmax].
    destruct (created_at row.1 <? created_at best.1) eqn:E.
    + split; [by right|]. intros r [->|Hr]%elem_of_cons; [lia|by apply Hmax].
    + split; [by left|]. intros r [->|Hr]%elem_of_cons; [lia|].
      specialize (Hmax r Hr). lia.
  - subst rest. split; [by left|]. by intros r ->%list_elem_of_singleton.
Qed.

Lemma getStatus_run (w : World) :
  run (getStatus created_at product_name product_description) w
  = (Ok match
          match order_by_created_at_desc_limit_1 created_at
                  (filter (λ row, in_time_window (clock w) row = true)
                     (map_to_list (flash_sales w))) with
          | Some row => Some row
          | None => order_by_created_at_desc_limit_1 created_at
                      (map_to_list (flash_sales w))
          end
        with
        | None =>
            {| FlashSaleStatus.id := None;
               FlashSaleStatus.status := FlashSaleStatus.ENDED;
               FlashSaleStatus.startTime := clock w;
               FlashSaleStatus.endTime := clock w;
               FlashSaleStatus.currentTime := clock w;
               FlashSaleStatus.productName := None;
               FlashSaleStatus.productDescription := None;
               FlashSaleStatus.productId := None |}
        | Some row =>
            {| FlashSaleStatus.id := Some (sale_id row.2);
               FlashSaleStatus.status :=
                 if clock w <? startAt row.2 then FlashSaleStatus.UPCOMING
                 else if clock w <=? endAt row.2 then FlashSaleStatus.ACTIVE
                      else FlashSaleStatus.ENDED;
               FlashSaleStatus.startTime := startAt row.2;
               FlashSaleStatus.endTime := endAt row.2;
               FlashSaleStatus.currentTime := clock w;
               FlashSaleStatus.productName :=
                 or_undefined (product_name (sale_productId row.2));
               FlashSaleStatus.productDescription :=
                 or_undefined (product_description (sale_productId row.2));
               FlashSaleStatus.productId := Some (sale_productId row.2) |}
        end, w).
Proof.
  unfold getStatus. cbn.
  destruct (order_by_created_at_desc_limit_1 created_at
              (filter _ (map_to_list (flash_sales w)))) as [row|]; cbn.
  - repeat f_equal.
    destruct (clock w <? startAt row.2) eqn:E1; [done|].
    assert ((startAt row.2 <=? clock w) = true) as -> by lia. done.
  - destruct (order_by_created_at_desc_limit_1 created_at (map_to_list (flash_sales w)))
      as [row|]; cbn; [|done].
    repeat f_equal.
    destruct (clock w <? startAt row.2) eqn:E1; [done|].
    assert ((startAt row.2 <=? clock w) = true) as -> by lia. done.
Qed.


Variable toISOString : Z → string.

Lemma reported_sale (w : World) (resp : FlashSaleStatus.FlashSaleStatusResponse) (i : Z) :
  sales_keyed w →
  run (getStatus created_at product_name product_description) w = (Ok resp, w) →
  FlashSaleStatus.id resp = Some i →
  ∃ sale,
    flash_sales w !! i = Some sale
    ∧ FlashSaleStatus.status resp
      = (if clock w <? startAt sale then FlashSaleStatus.UPCOMING
         else if clock w <=? endAt sale then FlashSaleStatus.ACTIVE
              else FlashSaleStatus.ENDED).
Proof.
  intros Hkey Hrun Hid. rewrite getStatus_run in Hrun.
  pose proof (newest_spec (filter (λ row, in_time_window (clock w) row = true)
                             (map_to_list (flash_sales w)))) as Hact.
  pose proof (newest_spec (map_to_list (flash_sales w))) as Hrec.
  assert (Hrow : ∃ k sale,
             flash_sales w !! k = Some sale
             ∧ match order_by_created_at_desc_limit_1 created_at
                       (filter (λ row, in_time_window (clock w) row = true)
                          (map_to_list (flash_sales w))) with
               | Some row => Some row
               | None => order_by_created_at_desc_limit_1 created_at
                           (map_to_list (flash_sales w))
               end = Some (k, sale)).
  { destruct (order_by_created_at_desc_limit_1 created_at (filter _ _))
      as [[k sale]|].
    - destruct Hact as [Hin _]. apply list_elem_of_filter in Hin as [_ Hin].
      apply elem_of_map_to_list in Hin. by exists k, sale.
    - destruct (order_by_created_at_desc_limit_1 created_at
                  (map_to_list (flash_sales w))) as [[k sale]|].
      + destruct Hrec as [Hin _]. apply elem_of_map_to_list in Hin. by exists k, sale.
      + injection Hrun as <-. done. }
  destruct Hrow as (k & sale & Hk & Er). rewrite Er in Hrun.
  injection Hrun as <-. cbn in Hid. injection Hid as <-.
  rewrite (Hkey k sale Hk). by exists sale.
Qed.


End StatusProperties.



(** ** Start-up, the sales table, authentication *)

Section StartupProperties.

Variable created_at : Z → Z.
Variable product_name : Z → option string.
Variable product_description : Z → option string.


End StartupProperties.




Lemma substring_whole (s : string) : String.substring 0 (String.length s) s = s.
Proof. induction s as [|c s IH]; [done|]. cbn. by rewrite IH. Qed.

Section AuthProperties.

Variable verifyToken : string → outcome Http.User.
Variable toISOString : Z → string.

(** X22. No token, no purchase.  Behind the authentication middleware, a
    request to the purchase route whose Authorization header is missing,
    does not start with "Bearer ", or carries a token that [verifyToken]
    rejects, is answered 401 and changes nothing: the route is not entered.
    With a token that [verifyToken] accepts, the request is handled by the
    route for the user the token names. *)
Theorem no_token_no_purchase (authorization : option string) (saleId : string)
    (w : World) :
  (match authorization with
   | None => True
   | Some authHeader =>
       String.prefix "Bearer " authHeader = false
       ∨ ∃ error,
           verifyToken (String.substring 7 (String.length authHeader - 7) authHeader)
           = Throw error
   end →
   ∃ m,
     run (createAuthMiddleware verifyToken authorization
            (λ user, FlashSaleRoutes.post_attempt toISOString (Some user) saleId)) w
     = (Ok (Http.unauthorized m), w))
  ∧ ∀ token user,
      authorization = Some ("Bearer " +:+ token) → verifyToken token = Ok user →
      run (createAuthMiddleware verifyToken authorization
             (λ user, FlashSaleRoutes.post_attempt toISOString (Some user) saleId)) w
      = run (FlashSaleRoutes.post_attempt toISOString (Some user) saleId) w.
Proof.
  split.
  - unfold createAuthMiddleware. destruct authorization as [authHeader|]; [|by eexists].
    intros [Hp|[error He]].
    + rewrite Hp. by eexists.
    + destruct (String.prefix "Bearer " authHeader); [|by eexists].
      rewrite He. by eexists.
  - intros token user -> Hv. unfold createAuthMiddleware.
    assert (Hp : String.prefix "Bearer " ("Bearer " +:+ token) = true)
      by apply prefix_app.
    rewrite Hp.
    assert (Hs : String.substring 7 (String.length ("Bearer " +:+ token) - 7)
                   ("Bearer " +:+ token) = token).
    { change ("Bearer " +:+ token)
        with (String "B" (String "e" (String "a" (String "r" (String "e"
               (String "r" (String " " token))))))).
      cbn [String.length String.substring Nat.sub].
      rewrite Nat.sub_0_r. apply substring_whole. }
    rewrite Hs, Hv. done.
Qed.

End AuthProperties.

Lemma no_token_no_purchase_witness :
  ∃ m,
    run (createAuthMiddleware (λ _, Throw (Error None "jwt malformed")) (Some "Basic abc")
           (λ user, FlashSaleRoutes.post_attempt string_of_Z (Some user) "1"))
      (sample_world store_of_two 150 true)
    = (Ok (Http.unauthorized m), sample_world store_of_two 150 true).
Proof.
  assert (H : String.prefix "Bearer " "Basic abc" = false
              ∨ ∃ error,
                  (λ _ : string, @Throw Http.User (Error None "jwt malformed"))
                    (String.substring 7 (String.length "Basic abc" - 7) "Basic abc")
                  = Throw error) by (left; reflexivity).
  exact (proj1 (no_token_no_purchase (λ _, Throw (Error None "jwt malformed")) string_of_Z
                  (Some "Basic abc") "1" (sample_world store_of_two 150 true)) H).
Defined.

(** ** The repositories *)




(** ** The orchestrator's answers *)

Section Answers.

Variable toISOString : Z → string.


End Answers.

